(** * Deckify: the release-year resolution pipeline of [deckify.py]

    A shallow embedding of the text helpers ([clean_song_title],
    [try_parsing_date]), of the three metadata adapters and of the resolver
    and enrichment functions of [deckify.py], with the properties of the
    specification stated and proved (or refuted) over that embedding.

    Conventions of the embedding
    - Python [str] values are Rocq [string]s: sequences of code points
      below 256.  On that range [\s] and [str.strip] agree on the set
      [isspace] below and [\d] is the ASCII digits.  The date parser is
      defined a second time on sequences of any code points ([Unicode]),
      where [\d] is any decimal digit of Unicode; the two agree on the
      strings.
    - JSON documents and the other dynamically typed values the functions
      pass around are [value]s; a [dict] is a [gmap string value] and a
      JSON number is an integer.
    - An exception is the [Raise] outcome of a [result]; network calls are
      answered by a [world] of oracles and recorded in a log. *)

From Stdlib Require Import ZArith NArith String Ascii List Lia Bool.
From Stdlib Require Import DecimalString DecimalPos DecimalN.
From stdpp Require Import gmap strings list.

Open Scope string_scope.
Open Scope list_scope.

(** ** Characters *)

Module Chars.

Definition code (c : ascii) : N := N_of_ascii c.

(** [Py_UNICODE_ISSPACE] restricted to code points below 256: the set
    matched by [\s] in a [str] pattern and stripped by [str.strip()]. *)
Definition isspace (c : ascii) : bool :=
  let n := code c in
  ((9 <=? n) && (n <=? 13) || (28 <=? n) && (n <=? 32)
   || (n =? 133) || (n =? 160))%N.

(** [\d] *)
Definition isdigit (c : ascii) : bool :=
  let n := code c in ((48 <=? n) && (n <=? 57))%N.

Definition digit_val (c : ascii) : Z := Z.of_N (code c) - 48.

(** The only character that [.] does not match. *)
Definition newline : ascii := "010"%char.

End Chars.
Import Chars.

(** ** Regular-expression substitution, as [clean_song_title] uses it *)

Module Regex.

(** [\s*], greedy: the text after the longest run of whitespace.  Giving
    back whitespace never helps the patterns below, because the token
    that follows [\s*] is never a whitespace character. *)
Fixpoint skip_spaces (s : list ascii) : list ascii :=
  match s with
  | c :: s' => if isspace c then skip_spaces s' else s
  | [] => []
  end.

(** [.*?c], lazy: the text after the first [c], provided no newline
    comes before it. *)
Fixpoint lazy_until (c : ascii) (s : list ascii) : option (list ascii) :=
  match s with
  | [] => None
  | x :: s' =>
      if Ascii.eqb x c then Some s'
      else if Ascii.eqb x newline then None
      else lazy_until c s'
  end.

(** [.*], greedy: the text from the next newline on. *)
Fixpoint rest_of_line (s : list ascii) : list ascii :=
  match s with
  | [] => []
  | x :: s' => if Ascii.eqb x newline then s else rest_of_line s'
  end.

(** [\s*o.*?c\s*] anchored at the start of [s]: the text after the match. *)
Definition match_enclosed (o c : ascii) (s : list ascii)
  : option (list ascii) :=
  match skip_spaces s with
  | x :: s1 =>
      if Ascii.eqb x o then
        match lazy_until c s1 with
        | Some s2 => Some (skip_spaces s2)
        | None => None
        end
      else None
  | [] => None
  end.

(** [\s*-.*] anchored at the start of [s]. *)
Definition match_dash (s : list ascii) : option (list ascii) :=
  match skip_spaces s with
  | x :: s1 => if Ascii.eqb x "-"%char then Some (rest_of_line s1) else None
  | [] => None
  end.

(** [re.sub(pattern, '', s)] for a pattern [m] that never matches the
    empty string: scan from the left, drop each match, copy the rest.
    [fuel] bounds the number of scan steps. *)
Fixpoint re_sub_fuel (m : list ascii -> option (list ascii)) (fuel : nat)
    (s : list ascii) : list ascii :=
  match fuel with
  | O => s
  | S fuel' =>
      match s with
      | [] => []
      | x :: s' =>
          match m s with
          | Some rest => re_sub_fuel m fuel' rest
          | None => x :: re_sub_fuel m fuel' s'
          end
      end
  end.

Definition re_sub (m : list ascii -> option (list ascii)) (s : list ascii)
  : list ascii :=
  re_sub_fuel m (length s) s.

(** [str.strip()]: [lstrip] is [skip_spaces]. *)
Fixpoint rstrip (s : list ascii) : list ascii :=
  match s with
  | [] => []
  | x :: s' =>
      match rstrip s' with
      | [] => if isspace x then [] else [x]
      | r => x :: r
      end
  end.

Definition strip (s : list ascii) : list ascii := rstrip (skip_spaces s).

End Regex.
Import Regex.

(** ** Title normalizer *)

Definition sub_parens : list ascii -> list ascii :=
  re_sub (match_enclosed "("%char ")"%char).
Definition sub_brackets : list ascii -> list ascii :=
  re_sub (match_enclosed "["%char "]"%char).
Definition sub_braces : list ascii -> list ascii :=
  re_sub (match_enclosed "{"%char "}"%char).
Definition sub_dash : list ascii -> list ascii := re_sub match_dash.

Definition clean_chars (title : list ascii) : list ascii :=
  let title := sub_parens title in
  let title := sub_brackets title in
  let title := sub_braces title in
  let title := sub_dash title in
  strip title.

Definition clean_song_title (title : string) : string :=
  string_of_list_ascii (clean_chars (list_ascii_of_string title)).

Definition py_strip (s : string) : string :=
  string_of_list_ascii (strip (list_ascii_of_string s)).

Definition nl : string := String newline EmptyString.


(** ** Date parser *)

Module Datetime.

(** A [datetime] as [strptime] builds it from these formats: the time of
    day is always midnight, so only the calendar date is kept. *)
Record datetime : Type := mkdate { year : Z; month : Z; day : Z }.

Definition is_leap (y : Z) : bool :=
  ((y mod 4 =? 0) && (negb (y mod 100 =? 0) || (y mod 400 =? 0)))%Z.

Definition days_in_month (y m : Z) : Z :=
  if (m =? 2)%Z then (if is_leap y then 29 else 28)
  else if ((m =? 4) || (m =? 6) || (m =? 9) || (m =? 11))%Z then 30
  else 31.

(** The range check of the [datetime] constructor ([MINYEAR] is 1). *)
Definition valid_date (y m d : Z) : bool :=
  ((1 <=? y) && (y <=? 9999) && (1 <=? m) && (m <=? 12)
   && (1 <=? d) && (d <=? days_in_month y m))%Z.

(** [a < b] on [datetime]s. *)
Definition ltb (a b : datetime) : bool :=
  ((year a <? year b)
   || (year a =? year b) && ((month a <? month b)
       || (month a =? month b) && (day a <? day b)))%Z.

(** The formats of [date_formats]. *)
Inductive format : Type :=
| FmtYmd   (* '%Y-%m-%d' *)
| FmtYm    (* '%Y-%m' *)
| FmtY.    (* '%Y' *)

(** The regular expressions [_strptime] compiles the directives to, as
    backtracking matchers: [k] is the rest of the pattern, and an
    alternative that makes [k] fail gives way to the next one. *)
Definition matcher (A : Type) : Type := list ascii -> option A.

Section Directives.

Context {A : Type}.

Definition or_else (a b : option A) : option A :=
  match a with Some _ => a | None => b end.

Definition in_range (lo hi c : ascii) : bool :=
  ((code lo <=? code c) && (code c <=? code hi))%N.

(** [(?P<Y>\d\d\d\d)] *)
Definition re_Y (k : Z -> matcher A) : matcher A := fun s =>
  match s with
  | a :: b :: c :: d :: rest =>
      if isdigit a && isdigit b && isdigit c && isdigit d
      then k (1000 * digit_val a + 100 * digit_val b
              + 10 * digit_val c + digit_val d)%Z rest
      else None
  | _ => None
  end.

Definition two (p1 p2 : ascii -> bool) (k : ascii -> ascii -> matcher A)
  : matcher A := fun s =>
  match s with
  | a :: b :: rest => if p1 a && p2 b then k a b rest else None
  | _ => None
  end.

Definition one (p : ascii -> bool) (k : ascii -> matcher A) : matcher A := fun s =>
  match s with
  | a :: rest => if p a then k a rest else None
  | _ => None
  end.

(** [(?P<m>1[0-2]|0[1-9]|[1-9])] *)
Definition re_m (k : Z -> matcher A) : matcher A := fun s =>
  or_else
    (two (Ascii.eqb "1") (in_range "0" "2")
         (fun _ b => k (10 + digit_val b)%Z) s)
    (or_else
       (two (Ascii.eqb "0") (in_range "1" "9")
            (fun _ b => k (digit_val b)) s)
       (one (in_range "1" "9") (fun a => k (digit_val a)) s)).

(** [(?P<d>3[0-1]|[1-2]\d|0[1-9]|[1-9]| [1-9])] *)
Definition re_d (k : Z -> matcher A) : matcher A := fun s =>
  or_else
    (two (Ascii.eqb "3") (in_range "0" "1")
         (fun _ b => k (30 + digit_val b)%Z) s)
    (or_else
       (two (in_range "1" "2") isdigit
            (fun a b => k (10 * digit_val a + digit_val b)%Z) s)
       (or_else
          (two (Ascii.eqb "0") (in_range "1" "9")
               (fun _ b => k (digit_val b)) s)
          (or_else
             (one (in_range "1" "9") (fun a => k (digit_val a)) s)
             (two (Ascii.eqb " ") (in_range "1" "9")
                  (fun _ b => k (digit_val b)) s)))).

(** A literal character of the format. *)
Definition re_lit (c : ascii) (k : matcher A) : matcher A :=
  one (Ascii.eqb c) (fun _ => k).

End Directives.

(** [format_regex.match(data_string)]: year, month, day (1 where the
    format has no directive for it) and the text after the match. *)
Definition regex_match (f : format) (s : list ascii)
  : option (Z * Z * Z * list ascii) :=
  match f with
  | FmtYmd =>
      re_Y (fun y => re_lit "-" (re_m (fun m => re_lit "-"
        (re_d (fun d rest => Some (y, m, d, rest)))))) s
  | FmtYm =>
      re_Y (fun y => re_lit "-"
        (re_m (fun m rest => Some (y, m, 1%Z, rest)))) s
  | FmtY => re_Y (fun y rest => Some (y, 1%Z, 1%Z, rest)) s
  end.

(** [datetime.strptime(text, fmt)]; [None] stands for [ValueError]: no
    match, unconverted data after the match, or a date that does not
    exist. *)
Definition strptime (text : string) (f : format) : option datetime :=
  match regex_match f (list_ascii_of_string text) with
  | Some (y, m, d, []) =>
      if valid_date y m d then Some (mkdate y m d) else None
  | _ => None
  end.

End Datetime.
Import Datetime.

Definition date_formats : list format := [FmtYmd; FmtYm; FmtY].

Fixpoint first_parse (formats : list format) (text : string)
  : option datetime :=
  match formats with
  | [] => None
  | fmt :: formats' =>
      match strptime text fmt with
      | Some d => Some d
      | None => first_parse formats' text
      end
  end.

(** [try_parsing_date] on a [str]. *)
Definition try_parsing_date (text : string) : option datetime :=
  first_parse date_formats text.

(** [text.split('-')[0]] *)
Fixpoint before_dash (s : list ascii) : list ascii :=
  match s with
  | [] => []
  | x :: s' => if Ascii.eqb x "-" then [] else x :: before_dash s'
  end.

Definition split_first (text : string) : string :=
  string_of_list_ascii (before_dash (list_ascii_of_string text)).


(** ** The date parser on Unicode text *)

(** [try_parsing_date] takes any [str].  The strings of the embedding
    hold code points below 256 only; digits of other scripts, which [\d]
    matches and [int] reads, lie above.  Here the parser is defined on
    sequences of code points, with the table of the decimal digits of
    Unicode as a parameter; on the strings of the embedding it is the
    parser of [Datetime] ([try_parsing_date_of_string] below). *)
Module Unicode.

(** A Python [str]: a sequence of code points. *)
Definition str : Type := list N.

Definition of_string (s : string) : str :=
  List.map code (list_ascii_of_string s).

(** What a token of a pattern reads in a character: the value of a
    digit of a class [[lo-hi]] of ASCII digits, 0 for a literal
    character, [None] when the character does not match. *)
Definition class (lo hi : ascii) (c : N) : option Z :=
  if ((code lo <=? c) && (c <=? code hi))%N then Some (Z.of_N c - 48)%Z
  else None.

Definition lit (x : ascii) (c : N) : option Z :=
  if (c =? code x)%N then Some 0%Z else None.

Section Parser.

(** [unicodedata.decimal]: the value of a character of category [Nd].
    These are the characters that [\d] matches in a [str] pattern, and
    [int] reads each of them with this value. *)
Variable decimal : N -> option Z.

Section Directives.

Context {A : Type}.

Definition one (p : N -> option Z) (k : Z -> str -> option A)
  : str -> option A := fun s =>
  match s with
  | a :: rest =>
      match p a with
      | Some va => k va rest
      | None => None
      end
  | [] => None
  end.

Definition two (p1 p2 : N -> option Z) (k : Z -> Z -> str -> option A)
  : str -> option A :=
  one p1 (fun va => one p2 (fun vb => k va vb)).

(** [(?P<Y>\d\d\d\d)], and [int] of the group *)
Definition re_Y (k : Z -> str -> option A) : str -> option A :=
  two decimal decimal (fun va vb =>
  two decimal decimal (fun vc vd =>
    k (1000 * va + 100 * vb + 10 * vc + vd)%Z)).

(** [(?P<m>1[0-2]|0[1-9]|[1-9])] *)
Definition re_m (k : Z -> str -> option A) : str -> option A := fun s =>
  or_else
    (two (lit "1") (class "0" "2") (fun _ vb => k (10 + vb)%Z) s)
    (or_else
       (two (lit "0") (class "1" "9") (fun _ vb => k vb) s)
       (one (class "1" "9") k s)).

(** [(?P<d>3[0-1]|[1-2]\d|0[1-9]|[1-9]| [1-9])] *)
Definition re_d (k : Z -> str -> option A) : str -> option A := fun s =>
  or_else
    (two (lit "3") (class "0" "1") (fun _ vb => k (30 + vb)%Z) s)
    (or_else
       (two (class "1" "2") decimal (fun va vb => k (10 * va + vb)%Z) s)
       (or_else
          (two (lit "0") (class "1" "9") (fun _ vb => k vb) s)
          (or_else
             (one (class "1" "9") k s)
             (two (lit " ") (class "1" "9") (fun _ vb => k vb) s)))).

(** A literal character of the format. *)
Definition re_lit (x : ascii) (k : str -> option A) : str -> option A :=
  one (lit x) (fun _ => k).

End Directives.

(** [format_regex.match(data_string)] *)
Definition regex_match (f : format) (s : str) : option (Z * Z * Z * str) :=
  match f with
  | FmtYmd =>
      re_Y (fun y => re_lit "-" (re_m (fun m => re_lit "-"
        (re_d (fun d rest => Some (y, m, d, rest)))))) s
  | FmtYm =>
      re_Y (fun y => re_lit "-"
        (re_m (fun m rest => Some (y, m, 1%Z, rest)))) s
  | FmtY => re_Y (fun y rest => Some (y, 1%Z, 1%Z, rest)) s
  end.

(** [datetime.strptime(text, fmt)]; [None] stands for [ValueError]. *)
Definition strptime (text : str) (f : format) : option datetime :=
  match regex_match f text with
  | Some (y, m, d, []) =>
      if valid_date y m d then Some (mkdate y m d) else None
  | _ => None
  end.

Fixpoint first_parse (formats : list format) (text : str)
  : option datetime :=
  match formats with
  | [] => None
  | fmt :: formats' =>
      match strptime text fmt with
      | Some d => Some d
      | None => first_parse formats' text
      end
  end.

(** [try_parsing_date] *)
Definition try_parsing_date (text : str) : option datetime :=
  first_parse [FmtYmd; FmtYm; FmtY] text.

(** [int(digits)] for a text of four decimal digits: the year a text
    carries. *)
Definition year_value (digits : str) : option Z :=
  re_Y (fun y rest => match rest with [] => Some y | _ => None end) digits.

End Parser.

(** [text.split('-')[0]] *)
Fixpoint before_hyphen (s : str) : str :=
  match s with
  | [] => []
  | c :: s' => if (c =? code "-")%N then [] else c :: before_hyphen s'
  end.

(** An ASCII digit. *)
Definition ascii_digit (c : N) : Prop := (48 <= c <= 57)%N.

(** What the properties below need of the table of the decimal digits:
    the ASCII digits have their values, no other character below 256 is
    a decimal digit, and a value is one of 0 to 9. *)
Record decimal_table (decimal : N -> option Z) : Prop := {
  decimal_ascii : forall c,
    ascii_digit c -> decimal c = Some (Z.of_N c - 48)%Z;
  decimal_latin1 : forall c v,
    (c < 256)%N -> decimal c = Some v -> ascii_digit c;
  decimal_value : forall c v, decimal c = Some v -> (0 <= v <= 9)%Z
}.

(** The table of Unicode 14.0, the version of CPython 3.11: the
    characters of category [Nd] are 66 runs of the ten digits of a
    script, in the order of their values; these are their zeros. *)
Definition decimal_zeros : list N :=
  ([
   48; 1632; 1776; 1984; 2406; 2534; 2662; 2790; 2918; 3046; 3174;
   3302; 3430; 3558; 3664; 3792; 3872; 4160; 4240; 6112; 6160; 6470;
   6608; 6784; 6800; 6992; 7088; 7232; 7248; 42528; 43216; 43264;
   43472; 43504; 43600; 44016; 65296; 66720; 68912; 69734; 69872;
   69942; 70096; 70384; 70736; 70864; 71248; 71360; 71472; 71904;
   72016; 72784; 73040; 73120; 92768; 92864; 93008; 120782; 120792;
   120802; 120812; 120822; 123200; 123632; 125264; 130032
  ])%N.

Definition unicode_decimal (c : N) : option Z :=
  match List.find (fun zero => (zero <=? c) && (c <? zero + 10))%N
          decimal_zeros with
  | Some zero => Some (Z.of_N (c - zero))
  | None => None
  end.

End Unicode.

(** ** Python values, exceptions and the operations the program applies *)

Module Py.

(** JSON documents and the other values handed between the functions. *)
#[warnings="-register-all"]
Inductive value : Type :=
| VNone
| VBool (b : bool)
| VInt (n : Z)
| VStr (s : string)
| VList (l : list value)
| VDict (d : gmap string value).

Inductive exn : Type :=
| KeyError | TypeError | ValueError | IndexError | AttributeError
| RequestException | SpotifyException | OtherError.

(** The outcome of evaluating an expression: a value or an exception. *)
Inductive result (A : Type) : Type :=
| Ok (a : A)
| Raise (e : exn).
Arguments Ok {A} a.
Arguments Raise {A} e.

Definition rbind {A B} (r : result A) (k : A -> result B) : result B :=
  match r with
  | Ok a => k a
  | Raise e => Raise e
  end.

Fixpoint rmap {A B} (f : A -> result B) (l : list A) : result (list B) :=
  match l with
  | [] => Ok []
  | x :: l' =>
      rbind (f x) (fun y => rbind (rmap f l') (fun ys => Ok (y :: ys)))
  end.

(** [[x for x in l if p(x)]] *)
Fixpoint rfilter {A} (p : A -> result bool) (l : list A)
  : result (list A) :=
  match l with
  | [] => Ok []
  | x :: l' =>
      rbind (p x) (fun b =>
      rbind (rfilter p l') (fun ys => Ok (if b then x :: ys else ys)))
  end.

(** [v[k]] for a [str] key *)
Definition getitem (v : value) (k : string) : result value :=
  match v with
  | VDict d =>
      match d !! k with
      | Some x => Ok x
      | None => Raise KeyError
      end
  | _ => Raise TypeError
  end.

(** [v[0]]; the keys of a JSON object are strings, so [0] is none of
    them *)
Definition getitem0 (v : value) : result value :=
  match v with
  | VList (x :: _) => Ok x
  | VList [] => Raise IndexError
  | VStr (String c _) => Ok (VStr (String c EmptyString))
  | VStr EmptyString => Raise IndexError
  | VDict _ => Raise KeyError
  | _ => Raise TypeError
  end.

Fixpoint is_substring (k s : string) : bool :=
  String.prefix k s
  || match s with
     | EmptyString => false
     | String _ s' => is_substring k s'
     end.

(** [k in v] for a [str] [k] *)
Definition contains (k : string) (v : value) : result bool :=
  match v with
  | VDict d => Ok (match d !! k with Some _ => true | None => false end)
  | VList l =>
      Ok (existsb (fun x => match x with
                            | VStr s => String.eqb s k
                            | _ => false
                            end) l)
  | VStr s => Ok (is_substring k s)
  | _ => Raise TypeError
  end.

Fixpoint chars (s : string) : list value :=
  match s with
  | EmptyString => []
  | String c s' => VStr (String c EmptyString) :: chars s'
  end.

(** [for x in v]: the elements of a list, the keys of a dict (in the
    order of the map; nothing below depends on it), the characters of a
    string *)
Definition iter (v : value) : result (list value) :=
  match v with
  | VList l => Ok l
  | VDict d => Ok (VStr <$> (map_to_list d).*1)
  | VStr s => Ok (chars s)
  | _ => Raise TypeError
  end.

(** The truth value of [v], as [if v] and [not v] take it *)
Definition truthy (v : value) : bool :=
  match v with
  | VNone => false
  | VBool b => b
  | VInt n => negb (n =? 0)%Z
  | VStr s => negb (String.eqb s "")
  | VList l => match l with [] => false | _ => true end
  | VDict d => match map_to_list d with [] => false | _ => true end
  end.

Definition as_number (v : value) : option Z :=
  match v with
  | VInt n => Some n
  | VBool b => Some (if b then 1 else 0)%Z
  | _ => None
  end.

(** [a < b]: numbers with numbers ([bool] is a number), strings with
    strings (by code point); [None], dicts and mixed pairings raise
    [TypeError].  Python also orders two lists, element by element: a
    year that is a list is outside this model, which raises for it too. *)
Definition lt (a b : value) : result bool :=
  match as_number a, as_number b with
  | Some x, Some y => Ok (x <? y)%Z
  | _, _ =>
      match a, b with
      | VStr s, VStr t => Ok (String.ltb s t)
      | _, _ => Raise TypeError
      end
  end.

(** [l.sort(key=key)]: the keys are computed first, then the list is
    sorted stably with [<] on the keys.  Insertion from the right is
    stable, and it raises exactly when some needed comparison does. *)
Section Sort.

Context {A K : Type}.
Variable less : K -> K -> result bool.

Fixpoint insert_sorted (x : A * K) (l : list (A * K))
  : result (list (A * K)) :=
  match l with
  | [] => Ok [x]
  | y :: l' =>
      rbind (less (snd y) (snd x)) (fun b =>
      if b then rbind (insert_sorted x l') (fun r => Ok (y :: r))
      else Ok (x :: l))
  end.

Fixpoint sort_keyed (l : list (A * K)) : result (list (A * K)) :=
  match l with
  | [] => Ok []
  | x :: l' => rbind (sort_keyed l') (insert_sorted x)
  end.

Definition sort (key : A -> result K) (l : list A) : result (list A) :=
  rbind (rmap (fun x => rbind (key x) (fun k => Ok (x, k))) l)
    (fun keyed => rbind (sort_keyed keyed) (fun s => Ok (s.*1))).

End Sort.

(** [v.split('-')[0]] *)
Definition split0 (v : value) : result value :=
  match v with
  | VStr s => Ok (VStr (split_first s))
  | _ => Raise AttributeError
  end.

End Py.
Import Py.

Notation "'let?' x := e 'in' k" := (rbind e (fun x => k))
  (at level 10, x name, e at level 100, k at level 200).

(** ** The outside world and the state the program threads *)

(** The image [generate_qr_code] and [add_overlay_to_qr_code] build. *)
Inductive image : Type := Image (id : N).

(** The calls that leave the program.  A call carries the values the
    source interpolates into the request (the Discogs URL, the MusicBrainz
    query), not the formatted text.  Building the QR code and pasting the
    overlay (which opens the image file of the music note) are calls too:
    they can fail for reasons outside the program. *)
Inductive call : Type :=
| DiscogsSearch (artist title : value)
| MusicBrainzSearch (artist_name : value) (song_title : string)
| SpotifyAlbum (album_id : value)
| SpotifyNext (results : value)
| QrCode (url : value)
| Overlay (qr_code_image : image).

(** What [requests.get] gives: a [RequestException], or a response with
    its status code and its body ([None] when the body is not JSON). *)
Inductive response : Type :=
| RequestFailed
| Response (status_code : Z) (json : option value).

(** The answers of the outside world; each may depend on the calls made
    so far. *)
Record world : Type := {
  discogs_search : list call -> value -> value -> response;
  musicbrainz_search : list call -> value -> string -> response;
  spotify_album : list call -> value -> result value;
  spotify_next : list call -> value -> result value;
  qr_code : list call -> value -> result image;
  overlay : list call -> image -> result image
}.

(** The [data] dictionary of [main]: five columns. *)
Record store : Type := {
  Artist : list value;
  Title : list value;
  Year : list value;
  URL : list value;
  QR_Code : list image
}.

Record state : Type := { data : store; log : list call }.

(** A computation: from a state to an outcome and the state it leaves;
    what was appended or logged before an exception stays. *)
Definition M (A : Type) : Type := state -> result A * state.

Definition ret {A} (a : A) : M A := fun st => (Ok a, st).
Definition raise {A} (e : exn) : M A := fun st => (Raise e, st).
Definition lift {A} (r : result A) : M A := fun st => (r, st).

Definition bind {A B} (m : M A) (k : A -> M B) : M B := fun st =>
  match m st with
  | (Ok a, st') => k a st'
  | (Raise e, st') => (Raise e, st')
  end.

Notation "x <- m ;; k" := (bind m (fun x => k))
  (at level 100, m at next level, right associativity).

Definition record {A} (c : call) (answer : list call -> A) : M A := fun st =>
  (Ok (answer (log st)), {| data := data st; log := log st ++ [c] |}).

(** [response.raise_for_status()] raises for 4xx and 5xx. *)
Definition is_error_status (status_code : Z) : bool :=
  ((400 <=? status_code) && (status_code <? 600))%Z.

Inductive spotify_type : Type := Album | Playlist.

(** The dictionary [extract_track_info] returns. *)
Record track_info : Type := {
  ti_id : value;
  ti_name : value;
  ti_artists : list value;
  ti_album : value;
  ti_url : value
}.

(** ** The program *)

Section Program.

Variable w : world.

(** [get_release_year_musicbrainz]: one tuple of the first list
    comprehension. *)
Definition release_tuple (release : value)
  : result (value * string * value) :=
  let? title := getitem release "title" in
  let? date := getitem release "date" in
  let? date :=
    match date with
    | VStr text =>
        Ok (match try_parsing_date text with
            | Some _ => text
            | None => "N/A"
            end)
    | _ => Raise TypeError
    end in
  let? has_credit := contains "artist-credit" release in
  let? credit :=
    if has_credit then getitem release "artist-credit" else Ok VNone in
  let? artist :=
    if has_credit && truthy credit then
      let? first := getitem0 credit in
      let? artist := getitem first "artist" in
      getitem artist "name"
    else Ok (VStr "N/A") in
  Ok (title, date, artist).

Fixpoint release_tuples (releases : list value)
  : result (list (value * string * value)) :=
  match releases with
  | [] => Ok []
  | release :: rest =>
      let? has_date := contains "date" release in
      if has_date then
        let? t := release_tuple release in
        let? ts := release_tuples rest in
        Ok (t :: ts)
      else release_tuples rest
  end.

Definition not_various (release : value * string * value) : bool :=
  match release with
  | (_, _, VStr name) => negb (String.eqb name "Various Artists")
  | _ => true
  end.

Definition has_date (release : value * string * value) : bool :=
  negb (String.eqb (snd (fst release)) "N/A").

(** [<] on the sort keys of the releases; [None] is Python's [None]. *)
Definition key_lt (a b : option datetime) : result bool :=
  match a, b with
  | Some x, Some y => Ok (Datetime.ltb x y)
  | _, _ => Raise TypeError
  end.

Definition get_release_year_musicbrainz (artist_name song_title : value)
  : M string :=
  song_title <- lift (match song_title with
                      | VStr s => Ok (clean_song_title s)
                      | _ => Raise TypeError
                      end) ;;
  response <- record (MusicBrainzSearch artist_name song_title)
                (fun calls => musicbrainz_search w calls artist_name song_title) ;;
  match response with
  | RequestFailed => ret "N/A"
  | Response status_code json =>
      if is_error_status status_code then ret "N/A"
      else if (status_code =? 200)%Z then
        match (match json with
               | Some body => getitem body "recordings"
               | None => Raise ValueError
               end) with
        | Raise KeyError | Raise ValueError => ret "N/A"
        | Raise e => raise e
        | Ok recordings =>
            if negb (truthy recordings) then ret "N/A"
            else
              lift (let? first := getitem0 recordings in
                    let? releases := getitem first "releases" in
                    let? releases := iter releases in
                    let? releases := release_tuples releases in
                    let releases := List.filter not_various releases in
                    let releases := List.filter has_date releases in
                    let? releases :=
                      sort key_lt
                        (fun x => Ok (try_parsing_date (snd (fst x))))
                        releases in
                    match releases with
                    | release :: _ => Ok (snd (fst release))
                    | [] => Ok "N/A"
                    end)
        end
      else ret "N/A"
  end.

Definition extract_track_info (item : value) (spotify_type : spotify_type)
  : option track_info :=
  let attempt :=
    let? track_data :=
      match spotify_type with
      | Playlist => getitem item "track"
      | Album => Ok item
      end in
    let? track_id := getitem track_data "id" in
    let? name := getitem track_data "name" in
    let? urls := getitem track_data "external_urls" in
    let? url := getitem urls "spotify" in
    let? artists := getitem track_data "artists" in
    let? artists := iter artists in
    let? artists := rmap (fun artist => getitem artist "name") artists in
    let? has_album := contains "album" track_data in
    let? album :=
      if has_album then
        let? album := getitem track_data "album" in getitem album "name"
      else Ok VNone in
    Ok {| ti_id := track_id; ti_name := name; ti_artists := artists;
          ti_album := album; ti_url := url |} in
  match attempt with
  | Ok info => Some info
  | Raise _ => None
  end.

(** Returns [VNone] for Python's [None]. *)
Definition fetch_discogs_data (artist title : value) : M value :=
  response <- record (DiscogsSearch artist title)
                (fun calls => discogs_search w calls artist title) ;;
  match response with
  | RequestFailed => ret VNone
  | Response status_code json =>
      if is_error_status status_code then ret VNone
      else match json with
           | Some body => ret body
           | None => raise ValueError
           end
  end.

Definition extract_year_from_discogs_data
    (discogs_data artist title item : value) : M value :=
  has_results <- lift (contains "results" discogs_data) ;;
  if has_results then
    results_with_year <-
      lift (let? results := getitem discogs_data "results" in
            let? results := iter results in
            let? with_year := rfilter (contains "year") results in
            sort lt (fun x => getitem x "year") with_year) ;;
    match results_with_year with
    | first :: _ => lift (getitem first "year")
    | [] =>
        date <- get_release_year_musicbrainz artist title ;;
        if negb (String.eqb date "N/A") then ret (VStr (split_first date))
        else ret (VStr "N/A")
    end
  else
    date <- get_release_year_musicbrainz artist title ;;
    if negb (String.eqb date "N/A") then ret (VStr (split_first date))
    else
      album_id <- lift (let? album := getitem item "album" in
                        getitem album "id") ;;
      album <- record (SpotifyAlbum album_id)
                 (fun calls => spotify_album w calls album_id) ;;
      album <- lift album ;;
      has_date <- lift (contains "release_date" album) ;;
      if has_date then
        lift (let? release_date := getitem album "release_date" in
              split0 release_date)
      else ret (VStr "N/A").

Definition generate_qr_code (url : value) : M image :=
  qr_code <- record (QrCode url) (fun calls => qr_code w calls url) ;;
  lift qr_code.

Definition add_overlay_to_qr_code (qr_code_image : image) : M image :=
  qr_code_image <- record (Overlay qr_code_image)
                     (fun calls => overlay w calls qr_code_image) ;;
  lift qr_code_image.

Definition append_row (artist title year url : value) (qr_img : image)
  : M unit := fun st =>
  let d := data st in
  (Ok tt,
   {| data := {| Artist := Artist d ++ [artist];
                 Title := Title d ++ [title];
                 Year := Year d ++ [year];
                 URL := URL d ++ [url];
                 QR_Code := QR_Code d ++ [qr_img] |};
      log := log st |}).

Definition add_track_to_data (item : value) (spotify_type : spotify_type)
  : M unit :=
  match extract_track_info item spotify_type with
  | None => ret tt
  | Some track_info =>
      let artist :=
        match ti_artists track_info with
        | first :: _ => first
        | [] => VNone
        end in
      let title := ti_name track_info in
      discogs_data <- fetch_discogs_data artist title ;;
      match discogs_data with
      | VNone => ret tt
      | _ =>
          year <- extract_year_from_discogs_data
                    discogs_data artist title item ;;
          let url := ti_url track_info in
          qr_img <- generate_qr_code url ;;
          qr_img <- add_overlay_to_qr_code qr_img ;;
          append_row artist title year url qr_img
      end
  end.

Fixpoint for_each (body : value -> M unit) (items : list value) : M unit :=
  match items with
  | [] => ret tt
  | item :: rest => _ <- body item ;; for_each body rest
  end.

Definition add_tracks_to_data (results : value) (spotify_type : spotify_type)
  : M unit :=
  items <- lift (let? items := getitem results "items" in iter items) ;;
  for_each (fun item => add_track_to_data item spotify_type) items.

(** One turn of the loop of [fetch_and_add_additional_tracks]: the body
    of its [try]. *)
Definition next_page (results : value) (spotify_type : spotify_type)
  : M value :=
  results <- record (SpotifyNext results)
               (fun calls => spotify_next w calls results) ;;
  results <- lift results ;;
  _ <- add_tracks_to_data results spotify_type ;;
  ret results.

(** The [while] loop runs as long as the listing names a next page;
    [pages] bounds the number of turns looked at.  A [SpotifyException]
    in a turn ends the loop; any other exception leaves it. *)
Fixpoint fetch_and_add_additional_tracks (pages : nat) (results : value)
    (spotify_type : spotify_type) : M unit :=
  match pages with
  | O => ret tt
  | S pages' =>
      next <- lift (getitem results "next") ;;
      if truthy next then
        fun st =>
          match next_page results spotify_type st with
          | (Ok results', st') =>
              fetch_and_add_additional_tracks pages' results' spotify_type st'
          | (Raise SpotifyException, st') => (Ok tt, st')
          | (Raise e, st') => (Raise e, st')
          end
      else ret tt
  end.

End Program.

(** The [data] dictionary as [main] creates it. *)
Definition empty_store : store :=
  {| Artist := []; Title := []; Year := []; URL := []; QR_Code := [] |}.

Definition initial_state : state := {| data := empty_store; log := [] |}.

(** ** The rest of the program: the listing, the overlay, the card files *)

(** [s.split(sep)] for a separator of one character: the pieces between
    the separators; never an empty list. *)
Fixpoint split_on (sep : ascii) (s : list ascii) : list (list ascii) :=
  match s with
  | [] => [[]]
  | x :: s' =>
      if Ascii.eqb x sep then [] :: split_on sep s'
      else match split_on sep s' with
           | piece :: pieces => (x :: piece) :: pieces
           | [] => [[x]]
           end
  end.

(** [part in ['album', 'playlist']] *)
Definition is_type_word (part : list ascii) : bool :=
  String.eqb (string_of_list_ascii part) "album"
  || String.eqb (string_of_list_ascii part) "playlist".

(** The [for] loop of [extract_spotify_id_and_type] over [path_parts];
    [None] stands for the pair [(None, None)]. *)
Fixpoint find_id_and_type (path_parts : list (list ascii))
  : result (option (string * string)) :=
  match path_parts with
  | [] => Ok None
  | part :: rest =>
      if is_type_word part then
        match rest with
        | id_and_query :: _ =>
            let id_only := hd [] (split_on "?" id_and_query) in
            Ok (Some (string_of_list_ascii id_only,
                      string_of_list_ascii part))
        | [] => Raise IndexError
        end
      else find_id_and_type rest
  end.

(** [extract_spotify_id_and_type], from the path [urlparse(url).path] that
    the standard library hands it. *)
Definition extract_spotify_id_and_type (parsed_path : string)
  : result (option (string * string)) :=
  find_id_and_type (split_on "/" (list_ascii_of_string parsed_path)).

(** The test [spotify_type == 'playlist'] of [extract_track_info]. *)
Definition type_of (type_word : string) : spotify_type :=
  if String.eqb type_word "playlist" then Playlist else Album.

Section Listing.

Variable w : world.

(** The methods [spotify.album_tracks] and [spotify.playlist_tracks] of
    the client (called with [limit=50]). *)
Variable album_tracks playlist_tracks : value -> M value.

Definition api_methods (spotify_type : string) : option (value -> M value) :=
  if String.eqb spotify_type "album" then Some album_tracks
  else if String.eqb spotify_type "playlist" then Some playlist_tracks
  else None.

(** Returns [VNone] for Python's [None]. *)
Definition fetch_tracks (spotify_id : value) (spotify_type : string)
  : M value :=
  match api_methods spotify_type with
  | Some api_method => fun st =>
      match api_method spotify_id st with
      | (Ok results, st') => (Ok results, st')
      | (Raise _, st') => (Ok VNone, st')
      end
  | None => ret VNone
  end.

(** [create_data], from the parsed path of the URL; the countdown of
    [reverse_progress_bar] only waits and prints.  [pages] bounds the
    turns of the paging loop, as in [fetch_and_add_additional_tracks]. *)
Definition create_data (parsed_path : string) (pages : nat) : M unit :=
  parsed <- lift (extract_spotify_id_and_type parsed_path) ;;
  match parsed with
  | None => ret tt
  | Some (spotify_id, spotify_type) =>
      results <- fetch_tracks (VStr spotify_id) spotify_type ;;
      match results with
      | VNone => ret tt
      | _ =>
          _ <- add_tracks_to_data w results (type_of spotify_type) ;;
          fetch_and_add_additional_tracks w pages results
            (type_of spotify_type)
      end
  end.

End Listing.


(** [str(index)] for an index of [df.iterrows()], which is not negative. *)
Definition str_of_index (index : N) : string :=
  NilZero.string_of_uint (N.to_uint index).

(** [save_card_image]: the name of the file a card is saved to. *)
Definition file_name (base_name : string) (index : N) : string :=
  base_name +:+ "-" +:+ str_of_index index +:+ ".png".

(** ** Notions the properties are stated with *)

(** No occurrence of [o] is followed, anywhere later, by a [c]. *)
Fixpoint no_pair (o c : ascii) (s : list ascii) : Prop :=
  match s with
  | [] => True
  | x :: s' => (x = o -> c ∉ s') /\ no_pair o c s'
  end.

Definition single_line (s : list ascii) : Prop := newline ∉ s.

(** A pattern that consumes at least one character and leaves a suffix. *)
Definition shrinks (m : list ascii -> option (list ascii)) : Prop :=
  forall s r, m s = Some r -> r `sublist_of` s /\ length r < length s.

(** A run of whitespace. *)
Definition spaces (ws : list ascii) : Prop :=
  Forall (fun c => isspace c = true) ws.

(** Decimal rendering, zero padded: a year at year precision, and the
    two-digit month and day. *)
Definition digit_char (n : Z) : ascii := ascii_of_N (Z.to_N (48 + n)).

Definition year4 (y : Z) : list ascii :=
  [digit_char (y / 1000); digit_char (y / 100 mod 10);
   digit_char (y / 10 mod 10); digit_char (y mod 10)].

Definition two2 (n : Z) : list ascii :=
  [digit_char (n / 10); digit_char (n mod 10)].

Definition render_year (d : datetime) : string :=
  string_of_list_ascii (year4 (year d)).

Definition render_y (y : Z) : string := string_of_list_ascii (year4 y).

Definition render_ym (y m : Z) : string :=
  string_of_list_ascii (year4 y ++ "-"%char :: two2 m).

Definition render_ymd (y m d : Z) : string :=
  string_of_list_ascii
    (year4 y ++ "-"%char :: two2 m ++ "-"%char :: two2 d).

(** The five columns of the store have one length. *)
Definition aligned (d : store) : Prop :=
  length (Artist d) = length (Title d)
  /\ length (Title d) = length (Year d)
  /\ length (Year d) = length (URL d)
  /\ length (URL d) = length (QR_Code d).

(** [d'] is [d] with one element more in each of the five columns. *)
Definition one_row_more (d d' : store) : Prop :=
  exists artist title year url qr_img,
    Artist d' = Artist d ++ [artist] /\ Title d' = Title d ++ [title]
    /\ Year d' = Year d ++ [year] /\ URL d' = URL d ++ [url]
    /\ QR_Code d' = QR_Code d ++ [qr_img].

(** A computation that leaves the store as it was, or returns normally
    with one row more; the log only grows. *)
Definition adds_at_most_a_row (m : M unit) : Prop :=
  forall st,
    (data (m st).2 = data st
     \/ ((m st).1 = Ok tt /\ one_row_more (data st) (data (m st).2)))
    /\ exists l, log (m st).2 = log st ++ l.

(** A computation that leaves the store alone and only adds to the log. *)
Definition only_logs {A} (m : M A) : Prop :=
  forall st, data (m st).2 = data st /\ exists l, log (m st).2 = log st ++ l.

(** A release of a MusicBrainz recording, as far as the program reads it:
    its title, its [date] field when it has one, and the name of its first
    credited artist when [artist-credit] is there and not empty. *)
Record release : Type := {
  rel_title : value;
  rel_date : option string;
  rel_credit : option value
}.

Definition release_json (r : release) : value :=
  let d : gmap string value := {[ "title" := rel_title r ]} in
  let d := match rel_date r with
           | Some text => <[ "date" := VStr text ]> d
           | None => d
           end in
  let d := match rel_credit r with
           | Some name =>
               <[ "artist-credit" :=
                    VList [VDict {[ "artist" := VDict {[ "name" := name ]} ]}] ]> d
           | None => d
           end in
  VDict d.

(** A search result whose first recording has the given releases. *)
Definition recordings_json (releases : list release)
    (first_rest rest : gmap string value) (more : list value) : value :=
  VDict (<[ "recordings" :=
              VList (VDict (<[ "releases" :=
                                 VList (release_json <$> releases) ]> first_rest)
                     :: more) ]> rest).

(** The release is credited to the compilation marker. *)
Definition various (r : release) : bool :=
  match rel_credit r with
  | Some (VStr name) => String.eqb name "Various Artists"
  | _ => false
  end.

Definition parsed_date (r : release) : option datetime :=
  match rel_date r with
  | Some text => try_parsing_date text
  | None => None
  end.

(** The releases the MusicBrainz stage keeps: those with a date field
    that the date parser accepts and not credited to the marker. *)
Definition survives (r : release) : bool :=
  match parsed_date r with
  | Some _ => negb (various r)
  | None => false
  end.

(** The first element with the least key, for the comparison [less] of
    the keys (a comparison that raises counts as not less). *)
Fixpoint earliest_by {A K} (less : K -> K -> result bool) (key : A -> K)
    (l : list A) : option A :=
  match l with
  | [] => None
  | x :: l' =>
      match earliest_by less key l' with
      | None => Some x
      | Some y =>
          match less (key y) (key x) with
          | Ok true => Some y
          | _ => Some x
          end
      end
  end.

(** [less] never raises on the keys that satisfy [good] and orders them:
    it is asymmetric, and "not less" is transitive. *)
Record orders {K} (less : K -> K -> result bool) (good : K -> Prop)
  : Prop := {
  orders_ok : forall a b, good a -> good b -> exists t, less a b = Ok t;
  orders_asym : forall a b,
    good a -> good b -> less a b = Ok true -> less b a = Ok false;
  orders_trans : forall a b c,
    good a -> good b -> good c ->
    less b a = Ok false -> less c b = Ok false -> less c a = Ok false
}.

(** What the specification asks of the stage: the date text of the
    earliest surviving release, or the sentinel. *)
Definition earliest_release_date (releases : list release) : string :=
  match earliest_by key_lt parsed_date (List.filter survives releases) with
  | Some r => default "N/A" (rel_date r)
  | None => "N/A"
  end.

(** The tuple the first list comprehension of
    [get_release_year_musicbrainz] builds for a release with a date. *)
Definition tuple_of (r : release) : value * string * value :=
  (rel_title r,
   match parsed_date r with
   | Some _ => default "N/A" (rel_date r)
   | None => "N/A"
   end,
   default (VStr "N/A") (rel_credit r)).

Definition has_date_field (r : release) : bool :=
  match rel_date r with Some _ => true | None => false end.

(** The keys the Discogs years are sorted by: numbers, or strings. *)
Definition is_number (v : value) : Prop := is_Some (as_number v).
Definition is_text (v : value) : Prop := exists s, v = VStr s.

(** The request of [fetch_discogs_data] ended in a [RequestException]:
    [requests.get] raised, or [raise_for_status] did. *)
Definition fetch_failed (r : response) : Prop :=
  match r with
  | RequestFailed => True
  | Response status_code _ => is_error_status status_code = true
  end.

(** The artist [add_track_to_data] takes from the extracted list. *)
Definition first_artist (info : track_info) : value :=
  match ti_artists info with
  | first :: _ => first
  | [] => VNone
  end.

(** What [add_track_to_data] does once the track information is there. *)
Definition enrich (w : world) (info : track_info) (artist item : value)
  : M unit :=
  discogs_data <- fetch_discogs_data w artist (ti_name info) ;;
  match discogs_data with
  | VNone => ret tt
  | _ =>
      year <- extract_year_from_discogs_data w discogs_data artist
                (ti_name info) item ;;
      qr_img <- generate_qr_code w (ti_url info) ;;
      qr_img <- add_overlay_to_qr_code w qr_img ;;
      append_row artist (ti_name info) year (ti_url info) qr_img
  end.

(** The three pairs of delimiters of [clean_song_title], in the order of
    its substitutions. *)
Definition delimiters : list (ascii * ascii) :=
  [("("%char, ")"%char); ("["%char, "]"%char); ("{"%char, "}"%char)].

(** A Discogs answer with the given search results, and the years its
    candidates carry, in the order of the results. *)
Definition results_json (candidates : list (gmap string value))
    (rest : gmap string value) : value :=
  VDict (<[ "results" := VList (VDict <$> candidates) ]> rest).

Definition year_of (candidate : gmap string value) : option value :=
  candidate !! "year".

Definition years_of (candidates : list (gmap string value)) : list value :=
  omap year_of candidates.

Definition has_year (candidate : gmap string value) : bool :=
  match year_of candidate with Some _ => true | None => false end.

(** The sort key of a search result. *)
Definition year_key (result : value) : value :=
  match result with
  | VDict candidate => default VNone (year_of candidate)
  | _ => VNone
  end.

(** ** Inputs the properties are tried on *)

Module Examples.

Definition song : string := "Song Title (Remastered 2009) - Radio Edit".
Definition song_url : value := VStr "https://open.spotify.com/track/t1".

(** A title of three lines: [(a], [(b)] and [)]. *)
Definition three_lines : string := "(a" +:+ nl +:+ "(b)" +:+ nl +:+ ")".

(** Titles of two lines. *)
Definition broken_parenthesis : string := "x (a" +:+ nl +:+ "b) y".
Definition broken_suffix : string := "a - b" +:+ nl +:+ "c".

(** A full track object, as a playlist carries it under ["track"]. *)
Definition track_with (artists : list value) : value :=
  VDict (list_to_map
    [("id", VStr "t1"); ("name", VStr song);
     ("external_urls", VDict {[ "spotify" := song_url ]});
     ("artists", VList artists);
     ("album", VDict (list_to_map [("id", VStr "a1");
                                   ("name", VStr "Album")]))]).

Definition track : value :=
  track_with [VDict {[ "name" := VStr "Artist" ]}].

Definition playlist_item : value := VDict {[ "track" := track ]}.

Definition anonymous_item : value := VDict {[ "track" := track_with [] ]}.

(** Discogs search results. *)
Definition results_of (candidates : list value) : value :=
  VDict {[ "results" := VList candidates ]}.

Definition candidate (year : value) : value := VDict {[ "year" := year ]}.

Definition three_years : value :=
  results_of [candidate (VStr "2001"); candidate (VStr "1998");
              candidate (VStr "2010")].

Definition three_numbers : value :=
  results_of [candidate (VInt 2001); candidate (VInt 1998);
              candidate (VInt 2010)].

Definition three_candidates : list (gmap string value) :=
  [ {[ "year" := VStr "2001" ]}; {[ "year" := VStr "1998" ]};
    {[ "year" := VStr "2010" ]} ].

Definition no_results_key : value := VDict ∅.

(** The releases of the first recording of a MusicBrainz answer. *)
Definition two_releases : list release :=
  [ {| rel_title := VStr "Song Title"; rel_date := Some "2005-03-01";
       rel_credit := None |};
    {| rel_title := VStr "Hits"; rel_date := Some "1999-06-01";
       rel_credit := Some (VStr "Various Artists") |} ].

Definition album_1999 : value :=
  VDict {[ "release_date" := VStr "1999-06-01" ]}.

(** Discogs and MusicBrainz are unreachable; Spotify knows the album. *)
Definition spotify_only : world :=
  {| discogs_search := fun _ _ _ => RequestFailed;
     musicbrainz_search := fun _ _ _ => RequestFailed;
     spotify_album := fun _ _ => Ok album_1999;
     spotify_next := fun _ _ => Raise SpotifyException;
     qr_code := fun _ _ => Ok (Image 0);
     overlay := fun _ qr_code_image => Ok qr_code_image |}.

(** Nothing but the QR generator answers. *)
Definition offline : world :=
  {| discogs_search := fun _ _ _ => RequestFailed;
     musicbrainz_search := fun _ _ _ => RequestFailed;
     spotify_album := fun _ _ => Raise SpotifyException;
     spotify_next := fun _ _ => Raise SpotifyException;
     qr_code := fun _ _ => Ok (Image 0);
     overlay := fun _ qr_code_image => Ok qr_code_image |}.

(** Discogs is unreachable; MusicBrainz and Spotify both know a date. *)
Definition discogs_down : world :=
  {| discogs_search := fun _ _ _ => RequestFailed;
     musicbrainz_search := fun _ _ _ =>
       Response 200 (Some (recordings_json two_releases ∅ ∅ []));
     spotify_album := fun _ _ => Ok album_1999;
     spotify_next := fun _ _ => Raise SpotifyException;
     qr_code := fun _ _ => Ok (Image 0);
     overlay := fun _ qr_code_image => Ok qr_code_image |}.

(** Discogs answers with a document that has no ["results"]. *)
Definition discogs_empty_document : world :=
  {| discogs_search := fun _ _ _ => Response 200 (Some no_results_key);
     musicbrainz_search := fun _ _ _ => RequestFailed;
     spotify_album := fun _ _ => Ok album_1999;
     spotify_next := fun _ _ => Raise SpotifyException;
     qr_code := fun _ _ => Ok (Image 0);
     overlay := fun _ qr_code_image => Ok qr_code_image |}.

(** Discogs knows one year. *)
Definition discogs_1998 : world :=
  {| discogs_search := fun _ _ _ =>
       Response 200 (Some (results_of [candidate (VStr "1998")]));
     musicbrainz_search := fun _ _ _ => RequestFailed;
     spotify_album := fun _ _ => Raise SpotifyException;
     spotify_next := fun _ _ => Raise SpotifyException;
     qr_code := fun _ _ => Ok (Image 0);
     overlay := fun _ qr_code_image => Ok qr_code_image |}.

(** MusicBrainz answers with the two releases. *)
Definition musicbrainz_two : world :=
  {| discogs_search := fun _ _ _ => Response 200 (Some (results_of []));
     musicbrainz_search := fun _ _ _ =>
       Response 200 (Some (recordings_json two_releases ∅ ∅ []));
     spotify_album := fun _ _ => Raise SpotifyException;
     spotify_next := fun _ _ => Raise SpotifyException;
     qr_code := fun _ _ => Ok (Image 0);
     overlay := fun _ qr_code_image => Ok qr_code_image |}.

End Examples.

(** ** Notions of the resolver's fallbacks *)

(** A Discogs document that gives no year: it has no ["results"], or
    its results are objects none of which has a ["year"]. *)
Definition without_year (discogs_data : value) : Prop :=
  exists d, discogs_data = VDict d
    /\ (d !! "results" = None
        \/ exists candidates,
             d !! "results" = Some (VList (VDict <$> candidates))
             /\ years_of candidates = []).

(** ** MusicBrainz releases as the service sends them *)

(** The artist credit the stage reads in a release object [d]: the name
    of the artist of the first credit, whatever else the credits hold;
    no credit when the object has no ["artist-credit"] or an empty one. *)
Definition credit_reads_as (d : gmap string value) (credit : option value)
  : Prop :=
  match credit with
  | Some name =>
      exists first others artist,
        d !! "artist-credit" = Some (VList (VDict first :: others))
        /\ first !! "artist" = Some (VDict artist)
        /\ artist !! "name" = Some name
  | None =>
      match d !! "artist-credit" with
      | Some credits => truthy credits = false
      | None => True
      end
  end.

(** The JSON value [v] is a release object that the stage reads as [r]:
    an object with any fields, of which the stage looks at ["date"] and,
    when that is there, at ["title"] and ["artist-credit"]. *)
Definition reads_as (v : value) (r : release) : Prop :=
  exists d, v = VDict d
    /\ match rel_date r with
       | Some text =>
           d !! "date" = Some (VStr text)
           /\ d !! "title" = Some (rel_title r)
           /\ credit_reads_as d (rel_credit r)
       | None => d !! "date" = None
       end.

(** A search result whose first recording has the given release
    objects; every other field of the result, of the first recording and
    every further recording is arbitrary. *)
Definition recordings_document (releases : list value)
    (first_rest rest : gmap string value) (more : list value) : value :=
  VDict (<[ "recordings" :=
              VList (VDict (<[ "releases" := VList releases ]> first_rest)
                     :: more) ]> rest).

(** The calendar order, stated without the program's comparison: a date
    read as the number YYYYMMDD. *)
Definition date_number (d : datetime) : Z :=
  (10000 * year d + 100 * month d + day d)%Z.

(** The releases that survive the filters, in the order of the answer. *)
Definition survivors (releases : list release) : list release :=
  List.filter survives releases.

(** [r] is the earliest survivor: every survivor listed before it is
    dated strictly later, and none listed after it is dated earlier. *)
Definition earliest_survivor (releases : list release) (r : release)
  : Prop :=
  exists listed_before listed_after d,
    survivors releases = listed_before ++ r :: listed_after
    /\ parsed_date r = Some d
    /\ (forall r' d', r' ∈ listed_before -> parsed_date r' = Some d' ->
                      (date_number d < date_number d')%Z)
    /\ (forall r' d', r' ∈ listed_after -> parsed_date r' = Some d' ->
                      (date_number d <= date_number d')%Z).

(** ** Further notions *)

(** An answer of MusicBrainz that names no recording: the request failed,
    the status is not 200, the body is not JSON, or it is an object
    without ["recordings"] or with an empty value there. *)
Definition no_recordings (r : response) : Prop :=
  match r with
  | RequestFailed => True
  | Response status_code json =>
      status_code <> 200%Z
      \/ json = None
      \/ exists d, json = Some (VDict d)
                   /\ match d !! "recordings" with
                      | Some recordings => truthy recordings = false
                      | None => True
                      end
  end.

(** The store with one row more. *)
Definition add_row (d : store) (artist title year url : value)
    (qr_img : image) : store :=
  {| Artist := Artist d ++ [artist]; Title := Title d ++ [title];
     Year := Year d ++ [year]; URL := URL d ++ [url];
     QR_Code := QR_Code d ++ [qr_img] |}.

(** The tracks of a listing that [extract_track_info] can read, in the
    order of the listing. *)
Definition listed (items : list value) (spotify_type : spotify_type)
  : list track_info :=
  omap (fun item => extract_track_info item spotify_type) items.

(** A computation that leaves the store as it was, or returns normally
    with the row of the track [info] added. *)
Definition adds_row_of (info : track_info) (artist : value) (m : M unit)
  : Prop :=
  forall st,
    data (m st).2 = data st
    \/ ((m st).1 = Ok tt
        /\ exists year qr_img,
             data (m st).2
             = add_row (data st) artist (ti_name info) year (ti_url info)
                 qr_img).

(** No part of the path is one of the two type words. *)
Definition no_type_word (path : string) : Prop :=
  Forall (fun part => is_type_word part = false)
    (split_on "/" (list_ascii_of_string path)).

(** The text after the id in a path: nothing, or a further segment, or a
    query. *)
Definition ends_id (rest : string) : Prop :=
  match rest with
  | EmptyString => True
  | String c _ => c = "/"%char \/ c = "?"%char
  end.

(** Two sort keys that [<] compares: two numbers, or two texts. *)
Definition comparable (a b : value) : Prop :=
  (is_number a /\ is_number b) \/ (is_text a /\ is_text b).

(** ** Further inputs *)

Module Samples.

Import Examples.

(** What [extract_track_info] reads from the playlist item of the
    examples. *)
Definition song_info : track_info :=
  {| ti_id := VStr "t1"; ti_name := VStr song;
     ti_artists := [VStr "Artist"]; ti_album := VStr "Album";
     ti_url := song_url |}.

(** MusicBrainz answers with no recording; Discogs with a document
    without ["results"]. *)
Definition musicbrainz_empty : world :=
  {| discogs_search := fun _ _ _ => Response 200 (Some no_results_key);
     musicbrainz_search := fun _ _ _ =>
       Response 200 (Some (VDict {[ "recordings" := VList [] ]}));
     spotify_album := fun _ _ => Ok album_1999;
     spotify_next := fun _ _ => Raise SpotifyException;
     qr_code := fun _ _ => Ok (Image 0);
     overlay := fun _ qr_code_image => Ok qr_code_image |}.

(** Discogs answers with a body that is not JSON. *)
Definition discogs_not_json : world :=
  {| discogs_search := fun _ _ _ => Response 200 None;
     musicbrainz_search := fun _ _ _ => RequestFailed;
     spotify_album := fun _ _ => Raise SpotifyException;
     spotify_next := fun _ _ => Raise SpotifyException;
     qr_code := fun _ _ => Ok (Image 0);
     overlay := fun _ qr_code_image => Ok qr_code_image |}.

(** Discogs results with a year that is a number and one that is a
    text. *)
Definition mixed_candidates : list (gmap string value) :=
  [ {[ "year" := VInt 1998 ]}; {[ "title" := VStr "Song Title" ]};
    {[ "year" := VStr "2001" ]} ].

(** The item of a track with an album, and the album as Spotify
    describes it. *)
Definition item_with_album : gmap string value :=
  {[ "album" := VDict {[ "id" := VStr "a1" ]} ]}.

Definition album_of_1999 : gmap string value :=
  {[ "release_date" := VStr "1999-06-01" ]}.

(** A page of a playlist with two tracks and no further page, and a
    page that names a next one. *)
Definition last_page : gmap string value :=
  list_to_map [("items", VList [playlist_item; anonymous_item]);
               ("next", VNone)].

Definition first_page : gmap string value :=
  list_to_map [("items", VList []);
               ("next", VStr "https://api.spotify.com/v1/next")].

(** Listing methods of the client: one that answers with the last page,
    one that fails. *)
Definition lists_last_page (spotify_id : value) : M value :=
  ret (VDict last_page).

Definition listing_fails (spotify_id : value) : M value :=
  raise SpotifyException.

(** A release object with the fields MusicBrainz sends. *)
Definition release_object (id title date artist : string) : value :=
  VDict (list_to_map
    [("id", VStr id); ("title", VStr title); ("status", VStr "Official");
     ("date", VStr date); ("country", VStr "XW"); ("track-count", VInt 12);
     ("artist-credit",
      VList [VDict (list_to_map
               [("name", VStr artist); ("joinphrase", VStr "");
                ("artist",
                 VDict (list_to_map
                   [("id", VStr "a-1"); ("name", VStr artist);
                    ("sort-name", VStr artist)]))])])]).

(** The releases of a first recording, not in the order of their dates:
    the second is a compilation, the fifth has a date that is none, the
    sixth has no date, and the last is dated as the fourth. *)
Definition unsorted_releases : list value :=
  [ release_object "r1" "Song Title" "2005-03-01" "Artist";
    release_object "r2" "Hits of the 90s" "1999-06-01" "Various Artists";
    release_object "r3" "Song Title" "2001-11" "Artist";
    release_object "r4" "Song Title" "1999-07" "Artist";
    release_object "r5" "Song Title" "199?" "Artist";
    VDict (list_to_map [("id", VStr "r6"); ("title", VStr "Song Title")]);
    release_object "r7" "Song Title" "1999-07-01" "Artist" ].

(** What the stage reads of them. *)
Definition unsorted_read : list release :=
  [ {| rel_title := VStr "Song Title"; rel_date := Some "2005-03-01";
       rel_credit := Some (VStr "Artist") |};
    {| rel_title := VStr "Hits of the 90s"; rel_date := Some "1999-06-01";
       rel_credit := Some (VStr "Various Artists") |};
    {| rel_title := VStr "Song Title"; rel_date := Some "2001-11";
       rel_credit := Some (VStr "Artist") |};
    {| rel_title := VStr "Song Title"; rel_date := Some "1999-07";
       rel_credit := Some (VStr "Artist") |};
    {| rel_title := VStr "Song Title"; rel_date := Some "199?";
       rel_credit := Some (VStr "Artist") |};
    {| rel_title := VStr "Song Title"; rel_date := None;
       rel_credit := None |};
    {| rel_title := VStr "Song Title"; rel_date := Some "1999-07-01";
       rel_credit := Some (VStr "Artist") |} ].

(** The answer of MusicBrainz: the first recording has these releases, a
    second recording a release of 1980. *)
Definition unsorted_answer : value :=
  recordings_document unsorted_releases
    (list_to_map [("id", VStr "rec-1"); ("score", VInt 100);
                  ("title", VStr "Song Title")])
    (list_to_map [("created", VStr "2024-01-01T00:00:00.000Z");
                  ("count", VInt 2); ("offset", VInt 0)])
    [VDict (list_to_map
       [("id", VStr "rec-2"); ("score", VInt 90);
        ("releases",
         VList [release_object "r8" "Song Title" "1980-01-01" "Artist"])])].

(** Discogs has results without a year; MusicBrainz gives that answer. *)
Definition musicbrainz_unsorted : world :=
  {| discogs_search := fun _ _ _ => Response 200 (Some (results_of []));
     musicbrainz_search := fun _ _ _ => Response 200 (Some unsorted_answer);
     spotify_album := fun _ _ => Raise SpotifyException;
     spotify_next := fun _ _ => Raise SpotifyException;
     qr_code := fun _ _ => Ok (Image 0);
     overlay := fun _ qr_code_image => Ok qr_code_image |}.

(** Dates in digits of other scripts: 2005-03-01 with the year in
    Arabic-Indic digits (U+0662 U+0660 U+0660 U+0665), and the year 2005
    in fullwidth digits (U+FF12 U+FF10 U+FF10 U+FF15). *)
Definition arabic_indic_date : Unicode.str :=
  [1634; 1632; 1632; 1637; 45; 48; 51; 45; 48; 49]%N.

Definition fullwidth_year : Unicode.str := [65298; 65296; 65296; 65301]%N.

End Samples.
(** ** Facts about the matchers *)

Section RegexFacts.

Implicit Types s r : list ascii.

Lemma skip_spaces_sublist s : skip_spaces s `sublist_of` s.
Proof.
  induction s as [|x s IH]; simpl; [constructor|].
  destruct (isspace x); [by constructor|done].
Qed.

Lemma skip_spaces_head s x r : skip_spaces s = x :: r -> isspace x = false.
Proof.
  induction s as [|y s IH]; simpl; [done|].
  destruct (isspace y) eqn:Hy; [done|]. by intros [= -> _].
Qed.

Lemma skip_spaces_nonspace x s : isspace x = false -> skip_spaces (x :: s) = x :: s.
Proof. simpl. by intros ->. Qed.

Lemma skip_spaces_fixed s : skip_spaces (skip_spaces s) = skip_spaces s.
Proof.
  destruct (skip_spaces s) as [|x r] eqn:E; [done|].
  apply skip_spaces_nonspace. by eapply skip_spaces_head.
Qed.

Lemma lazy_until_split c s r :
  lazy_until c s = Some r ->
  exists pre, s = pre ++ c :: r /\ (c ∉ pre) /\ (newline ∉ pre).
Proof.
  revert r. induction s as [|x s IH]; simpl; intros r; [done|].
  destruct (Ascii.eqb_spec x c) as [->|Hxc].
  - intros [= ->]. exists []. split_and!; [done|apply not_elem_of_nil..].
  - destruct (Ascii.eqb_spec x newline) as [->|Hxn]; [done|].
    intros (pre & -> & ? & ?)%IH. exists (x :: pre).
    split_and!; [done|..]; rewrite not_elem_of_cons; by split.
Qed.

Lemma lazy_until_None c s :
  lazy_until c s = None -> newline ∉ s -> c ∉ s.
Proof.
  induction s as [|x s IH]; simpl; [intros; apply not_elem_of_nil|].
  destruct (Ascii.eqb_spec x c) as [->|Hxc]; [done|].
  destruct (Ascii.eqb_spec x newline) as [->|Hxn].
  - intros _ []. by left.
  - rewrite !not_elem_of_cons. intros H [_ Hn]. split; [congruence|auto].
Qed.

Lemma lazy_until_sublist c s r : lazy_until c s = Some r -> r `sublist_of` s.
Proof.
  intros (pre & -> & _)%lazy_until_split.
  apply sublist_inserts_l. by constructor.
Qed.

Lemma rest_of_line_sublist s : rest_of_line s `sublist_of` s.
Proof.
  induction s as [|x s IH]; simpl; [constructor|].
  destruct (Ascii.eqb x newline); [done|by constructor].
Qed.

Lemma rest_of_line_single s : newline ∉ s -> rest_of_line s = [].
Proof.
  induction s as [|x s IH]; simpl; [done|].
  rewrite not_elem_of_cons. intros [Hx Hs].
  destruct (Ascii.eqb_spec x newline); [done|auto].
Qed.

Lemma match_enclosed_inv o c s r :
  match_enclosed o c s = Some r ->
  exists s1 s2, skip_spaces s = o :: s1 /\ lazy_until c s1 = Some s2
                /\ r = skip_spaces s2.
Proof.
  unfold match_enclosed. destruct (skip_spaces s) as [|x s1] eqn:E; [done|].
  destruct (Ascii.eqb_spec x o) as [->|]; [|done].
  destruct (lazy_until c s1) as [s2|] eqn:E2; [|done].
  intros [= <-]. by exists s1, s2.
Qed.

Lemma match_dash_inv s r :
  match_dash s = Some r ->
  exists s1, skip_spaces s = "-"%char :: s1 /\ r = rest_of_line s1.
Proof.
  unfold match_dash. destruct (skip_spaces s) as [|x s1] eqn:E; [done|].
  destruct (Ascii.eqb_spec x "-"%char) as [->|]; [|done].
  intros [= <-]. by exists s1.
Qed.

Lemma match_enclosed_shrinks o c : shrinks (match_enclosed o c).
Proof.
  intros s r (s1 & s2 & E1 & E2 & ->)%match_enclosed_inv.
  assert (Hsub : skip_spaces s2 `sublist_of` s1).
  { etrans; [apply skip_spaces_sublist|by eapply lazy_until_sublist]. }
  pose proof (skip_spaces_sublist s) as Hs. rewrite E1 in Hs.
  split.
  - etrans; [|exact Hs]. by constructor.
  - apply sublist_length in Hsub. apply sublist_length in Hs.
    simpl in Hs. lia.
Qed.

Lemma match_dash_shrinks : shrinks match_dash.
Proof.
  intros s r (s1 & E1 & ->)%match_dash_inv.
  pose proof (rest_of_line_sublist s1) as Hsub.
  pose proof (skip_spaces_sublist s) as Hs. rewrite E1 in Hs.
  split.
  - etrans; [|exact Hs]. by constructor.
  - apply sublist_length in Hsub. apply sublist_length in Hs.
    simpl in Hs. lia.
Qed.

End RegexFacts.

(** ** Facts about [re.sub] *)

Section ReSub.

Variable m : list ascii -> option (list ascii).
Hypothesis m_shrinks : shrinks m.

(** Any fuel from the length of the text on gives the same result: the
    scan always terminates within [length s] steps. *)
Lemma re_sub_fuel_enough fuel s :
  length s <= fuel -> re_sub_fuel m fuel s = re_sub m s.
Proof.
  unfold re_sub. revert s.
  induction (lt_wf fuel) as [fuel _ IH]. intros s Hlen.
  destruct s as [|x s]; [by destruct fuel|].
  simpl in Hlen. destruct fuel as [|fuel]; [lia|]. simpl.
  destruct (m (x :: s)) as [r|] eqn:E.
  - destruct (m_shrinks _ _ E) as [_ Hr]. simpl in Hr.
    rewrite (IH fuel) by lia.
    symmetry. rewrite (IH (length s)) by lia. done.
  - f_equal. apply IH; lia.
Qed.

Lemma re_sub_nil : re_sub m [] = [].
Proof. done. Qed.

Lemma re_sub_cons x s :
  re_sub m (x :: s) =
  match m (x :: s) with
  | Some rest => re_sub m rest
  | None => x :: re_sub m s
  end.
Proof.
  unfold re_sub at 1. simpl. destruct (m (x :: s)) as [r|] eqn:E; [|done].
  apply re_sub_fuel_enough. destruct (m_shrinks _ _ E) as [_ Hr].
  simpl in Hr. lia.
Qed.

(** Induction along the scan of [re.sub]. *)
Lemma re_sub_ind (P : list ascii -> list ascii -> Prop) :
  P [] [] ->
  (forall x s rest, m (x :: s) = Some rest ->
     P rest (re_sub m rest) -> P (x :: s) (re_sub m rest)) ->
  (forall x s, m (x :: s) = None ->
     P s (re_sub m s) -> P (x :: s) (x :: re_sub m s)) ->
  forall s, P s (re_sub m s).
Proof.
  intros Hnil Hhit Hmiss s.
  remember (length s) as n eqn:Hn. revert s Hn.
  induction (lt_wf n) as [n _ IH]. intros s ->.
  destruct s as [|x s]; [done|]. rewrite re_sub_cons.
  destruct (m (x :: s)) as [r|] eqn:E.
  - apply Hhit; [done|]. destruct (m_shrinks _ _ E) as [_ Hr].
    by eapply IH.
  - apply Hmiss; [done|]. eapply IH; [|done]. simpl. lia.
Qed.

Lemma re_sub_sublist s : re_sub m s `sublist_of` s.
Proof.
  apply (re_sub_ind (fun s r => r `sublist_of` s)).
  - constructor.
  - intros x s' rest E IH. etrans; [exact IH|]. by apply m_shrinks.
  - intros x s' _ IH. by constructor.
Qed.

(** Where the pattern matches nowhere, the text is returned as it is. *)
Lemma re_sub_no_match s :
  (forall t, t `suffix_of` s -> m t = None) -> re_sub m s = s.
Proof.
  induction s as [|x s IH]; intros H; [done|].
  rewrite re_sub_cons, (H (x :: s)) by done.
  f_equal. apply IH. intros t Ht. apply H. by apply suffix_cons_r.
Qed.

End ReSub.

Section Normalized.

Implicit Types s r t : list ascii.

Lemma sublist_no_pair o c s t :
  s `sublist_of` t -> no_pair o c t -> no_pair o c s.
Proof.
  induction 1 as [|x s t Hst IH|x s t Hst IH]; simpl; [done|..].
  - intros [Hx Ht]. split; [|auto].
    intros Ho Hc. apply (Hx Ho). eauto using elem_of_sublist.
  - intros [_ Ht]. auto.
Qed.

Lemma sublist_single_line s t :
  s `sublist_of` t -> single_line t -> single_line s.
Proof. unfold single_line. eauto using elem_of_sublist. Qed.

Lemma suffix_is_sublist s t : s `suffix_of` t -> s `sublist_of` t.
Proof. intros [k ->]. by apply sublist_inserts_l. Qed.

Lemma match_enclosed_pair o c s r :
  match_enclosed o c s = Some r -> ~ no_pair o c s.
Proof.
  intros (s1 & s2 & E1 & E2 & _)%match_enclosed_inv Hs.
  apply (sublist_no_pair o c _ _ (skip_spaces_sublist s)) in Hs.
  rewrite E1 in Hs. destruct Hs as [Hs _].
  apply lazy_until_split in E2 as (pre & -> & _).
  apply Hs; [done|]. set_solver.
Qed.

(** A text without a pair is left alone by the substitution. *)
Lemma re_sub_enclosed_id o c s :
  no_pair o c s -> re_sub (match_enclosed o c) s = s.
Proof.
  intros Hs. apply re_sub_no_match; [apply match_enclosed_shrinks|].
  intros t Ht. destruct (match_enclosed o c t) as [r|] eqn:E; [|done].
  apply match_enclosed_pair in E. destruct E.
  eauto using sublist_no_pair, suffix_is_sublist.
Qed.

(** On one line, the substitution leaves no pair behind. *)
Lemma re_sub_enclosed_no_pair o c s :
  isspace o = false -> single_line s ->
  no_pair o c (re_sub (match_enclosed o c) s).
Proof.
  intros Ho. pose proof (match_enclosed_shrinks o c) as Hm.
  apply (re_sub_ind _ Hm (fun s r => single_line s -> no_pair o c r)).
  - done.
  - intros x s' rest E IH Hl. apply IH.
    eapply sublist_single_line; [|exact Hl]. by apply Hm.
  - intros x s' E IH Hl.
    assert (single_line s') as Hl'.
    { intros ?. apply Hl. by right. }
    split; [|auto]. intros -> Hc.
    unfold match_enclosed in E. rewrite skip_spaces_nonspace in E by done.
    rewrite Ascii.eqb_refl in E.
    destruct (lazy_until c s') eqn:E2; [done|].
    eapply lazy_until_None; [exact E2|exact Hl'|].
    eapply elem_of_sublist; [exact Hc|]. by apply re_sub_sublist.
Qed.

Lemma re_sub_dash_id s : "-"%char ∉ s -> re_sub match_dash s = s.
Proof.
  intros Hs. apply re_sub_no_match; [apply match_dash_shrinks|].
  intros t Ht. destruct (match_dash t) as [r|] eqn:E; [|done].
  apply match_dash_inv in E as (s1 & E1 & _). destruct Hs.
  eapply elem_of_sublist; [|by apply suffix_is_sublist].
  eapply elem_of_sublist; [|apply skip_spaces_sublist].
  rewrite E1. by left.
Qed.

Lemma re_sub_dash_no_dash s :
  single_line s -> "-"%char ∉ re_sub match_dash s.
Proof.
  pose proof match_dash_shrinks as Hm.
  apply (re_sub_ind _ Hm (fun s r => single_line s -> "-"%char ∉ r)).
  - intros _. apply not_elem_of_nil.
  - intros x s' rest E IH Hl. apply IH.
    eapply sublist_single_line; [|exact Hl]. by apply Hm.
  - intros x s' E IH Hl. rewrite not_elem_of_cons. split.
    + intros <-. unfold match_dash in E.
      by rewrite skip_spaces_nonspace in E.
    + apply IH. intros ?. apply Hl. by right.
Qed.

Lemma rstrip_sublist s : rstrip s `sublist_of` s.
Proof.
  induction s as [|x s IH]; simpl; [constructor|].
  destruct (rstrip s) as [|y r].
  - destruct (isspace x); [apply sublist_nil_l|].
    constructor. apply sublist_nil_l.
  - by constructor.
Qed.

Lemma rstrip_fixed s : rstrip (rstrip s) = rstrip s.
Proof.
  induction s as [|x s IH]; simpl; [done|].
  destruct (rstrip s) as [|y r] eqn:E.
  - destruct (isspace x) eqn:Hx; simpl; [done|]. by rewrite Hx.
  - change (rstrip (x :: y :: r)) with
      (match rstrip (y :: r) with
       | [] => if isspace x then [] else [x]
       | r' => x :: r'
       end).
    by rewrite IH.
Qed.

Lemma rstrip_cons_fixed x s : rstrip (x :: s) = x :: s -> rstrip s = s.
Proof.
  simpl. destruct (rstrip s) as [|y r] eqn:E.
  - destruct (isspace x); [done|]. by intros [= <-].
  - by intros [= <-].
Qed.

Lemma skip_spaces_rstrip s :
  skip_spaces s = s -> skip_spaces (rstrip s) = rstrip s.
Proof.
  destruct s as [|x s]; [done|]. intros Hs.
  assert (isspace x = false) as Hx by (by eapply skip_spaces_head).
  simpl. destruct (rstrip s); rewrite ?Hx; simpl; by rewrite Hx.
Qed.

Lemma strip_sublist s : strip s `sublist_of` s.
Proof.
  unfold strip. etrans; [apply rstrip_sublist|apply skip_spaces_sublist].
Qed.

Lemma strip_fixed s : strip (strip s) = strip s.
Proof.
  unfold strip.
  rewrite skip_spaces_rstrip by apply skip_spaces_fixed.
  apply rstrip_fixed.
Qed.

Lemma clean_chars_sublist s : clean_chars s `sublist_of` s.
Proof.
  unfold clean_chars, sub_dash, sub_braces, sub_brackets, sub_parens.
  etrans; [apply strip_sublist|].
  etrans; [apply re_sub_sublist, match_dash_shrinks|].
  etrans; [apply re_sub_sublist, match_enclosed_shrinks|].
  etrans; [apply re_sub_sublist, match_enclosed_shrinks|].
  apply re_sub_sublist, match_enclosed_shrinks.
Qed.

(** A text with no pair of delimiters and no hyphen is only trimmed. *)
Lemma clean_chars_plain s :
  no_pair "("%char ")"%char s -> no_pair "["%char "]"%char s ->
  no_pair "{"%char "}"%char s -> "-"%char ∉ s ->
  clean_chars s = strip s.
Proof.
  intros H1 H2 H3 H4.
  unfold clean_chars, sub_dash, sub_braces, sub_brackets, sub_parens.
  rewrite (re_sub_enclosed_id "("%char ")"%char s) by done.
  rewrite (re_sub_enclosed_id "["%char "]"%char s) by done.
  rewrite (re_sub_enclosed_id "{"%char "}"%char s) by done.
  by rewrite re_sub_dash_id.
Qed.

(** The shape of every normalized one-line title. *)
Lemma clean_chars_normal s :
  single_line s ->
  let r := clean_chars s in
  no_pair "("%char ")"%char r /\ no_pair "["%char "]"%char r /\
  no_pair "{"%char "}"%char r /\ ("-"%char ∉ r) /\ strip r = r.
Proof.
  intros Hl. simpl. unfold clean_chars.
  set (t1 := sub_parens s). set (t2 := sub_brackets t1).
  set (t3 := sub_braces t2). set (t4 := sub_dash t3).
  assert (t1 `sublist_of` s) as S1
    by apply re_sub_sublist, match_enclosed_shrinks.
  assert (t2 `sublist_of` t1) as S2
    by apply re_sub_sublist, match_enclosed_shrinks.
  assert (t3 `sublist_of` t2) as S3
    by apply re_sub_sublist, match_enclosed_shrinks.
  assert (t4 `sublist_of` t3) as S4
    by apply re_sub_sublist, match_dash_shrinks.
  pose proof (strip_sublist t4) as S5.
  assert (single_line t1) as L1 by eauto using sublist_single_line.
  assert (single_line t2) as L2 by eauto using sublist_single_line.
  assert (single_line t3) as L3 by eauto using sublist_single_line.
  assert (no_pair "("%char ")"%char t1) as P1
    by by apply re_sub_enclosed_no_pair.
  assert (no_pair "["%char "]"%char t2) as P2
    by by apply re_sub_enclosed_no_pair.
  assert (no_pair "{"%char "}"%char t3) as P3
    by by apply re_sub_enclosed_no_pair.
  assert ("-"%char ∉ t4) as P4 by by apply re_sub_dash_no_dash.
  split_and!.
  - eauto 6 using sublist_no_pair.
  - eauto 6 using sublist_no_pair.
  - eauto 6 using sublist_no_pair.
  - intros ?. apply P4. eauto using elem_of_sublist.
  - apply strip_fixed.
Qed.

Lemma clean_chars_fixed s :
  single_line s -> clean_chars (clean_chars s) = clean_chars s.
Proof.
  intros (H1 & H2 & H3 & H4 & H5)%clean_chars_normal.
  by rewrite clean_chars_plain.
Qed.

End Normalized.

(** ** What one match removes *)

Section Runs.

Implicit Types s pre body post ws : list ascii.

Lemma skip_spaces_app ws s : spaces ws -> skip_spaces (ws ++ s) = skip_spaces s.
Proof. induction 1 as [|c ws Hc _ IH]; simpl; [done|]. by rewrite Hc. Qed.

Lemma lazy_until_app c body s :
  c ∉ body -> newline ∉ body -> lazy_until c (body ++ c :: s) = Some s.
Proof.
  induction body as [|x body IH]; simpl.
  - intros _ _. by rewrite Ascii.eqb_refl.
  - rewrite !not_elem_of_cons. intros [Hc Hb] [Hn Hb'].
    destruct (Ascii.eqb_spec x c) as [->|_]; [done|].
    destruct (Ascii.eqb_spec x newline) as [->|_]; [done|]. auto.
Qed.

Lemma rest_of_line_app body s :
  newline ∉ body -> rest_of_line (body ++ s) = rest_of_line s.
Proof.
  induction body as [|x body IH]; simpl; [done|].
  rewrite not_elem_of_cons. intros [Hn Hb].
  destruct (Ascii.eqb_spec x newline) as [->|_]; [done|]. auto.
Qed.

(** Before the end of a text [pre] that does not end in whitespace, the
    whitespace skipped by [\s*] stops inside [pre]. *)
Lemma skip_spaces_inside pre s :
  rstrip pre = pre -> pre <> [] ->
  exists y t, skip_spaces (pre ++ s) = y :: t /\ y ∈ pre.
Proof.
  induction pre as [|x pre IH]; [done|]. intros Hfix _.
  destruct (isspace x) eqn:Hx.
  - assert (pre <> []) as Hne.
    { intros ->. simpl in Hfix. by rewrite Hx in Hfix. }
    destruct (IH (rstrip_cons_fixed _ _ Hfix) Hne) as (y & t & E & Hy).
    exists y, t. simpl. rewrite Hx. split; [done|by right].
  - exists x, (pre ++ s). simpl. rewrite Hx. split; [done|by left].
Qed.

Lemma match_enclosed_run o c ws1 body ws2 post :
  isspace o = false -> spaces ws1 -> c ∉ body -> newline ∉ body ->
  spaces ws2 -> skip_spaces post = post ->
  match_enclosed o c (ws1 ++ o :: body ++ c :: ws2 ++ post) = Some post.
Proof.
  intros Ho Hw1 Hc Hn Hw2 Hpost. unfold match_enclosed.
  rewrite skip_spaces_app, skip_spaces_nonspace by done.
  rewrite Ascii.eqb_refl, lazy_until_app by done.
  by rewrite skip_spaces_app, Hpost.
Qed.

Lemma match_enclosed_before o c pre s :
  o ∉ pre -> rstrip pre = pre -> pre <> [] ->
  match_enclosed o c (pre ++ s) = None.
Proof.
  intros Ho Hfix Hne. unfold match_enclosed.
  destruct (skip_spaces_inside pre s Hfix Hne) as (y & t & -> & Hy).
  destruct (Ascii.eqb_spec y o) as [->|]; done.
Qed.

Lemma match_dash_before pre s :
  "-"%char ∉ pre -> rstrip pre = pre -> pre <> [] ->
  match_dash (pre ++ s) = None.
Proof.
  intros Ho Hfix Hne. unfold match_dash.
  destruct (skip_spaces_inside pre s Hfix Hne) as (y & t & -> & Hy).
  destruct (Ascii.eqb_spec y "-"%char) as [->|]; done.
Qed.

(** The first enclosed run of a text goes away with its delimiters and
    the whitespace around it; the substitution goes on after it. *)
Lemma re_sub_enclosed_run o c pre ws1 body ws2 post :
  isspace o = false -> o ∉ pre -> rstrip pre = pre ->
  spaces ws1 -> c ∉ body -> newline ∉ body ->
  spaces ws2 -> skip_spaces post = post ->
  re_sub (match_enclosed o c) (pre ++ ws1 ++ o :: body ++ c :: ws2 ++ post)
  = pre ++ re_sub (match_enclosed o c) post.
Proof.
  intros Ho Hpre Hfix Hw1 Hc Hn Hw2 Hpost.
  pose proof (match_enclosed_shrinks o c) as Hm.
  induction pre as [|x pre IH].
  - pose proof (match_enclosed_run o c ws1 body ws2 post
                  Ho Hw1 Hc Hn Hw2 Hpost) as E.
    simpl. destruct ws1 as [|w ws1]; simpl in *;
      by rewrite re_sub_cons, E.
  - change ((x :: pre) ++ ?s) with (x :: pre ++ s).
    rewrite re_sub_cons by done.
    change (x :: pre ++ ?s) with ((x :: pre) ++ s).
    rewrite match_enclosed_before by done.
    simpl. f_equal. apply IH.
    + by apply not_elem_of_cons in Hpre as [_ ?].
    + by eapply rstrip_cons_fixed.
Qed.

(** From the first hyphen on, with the whitespace before it, the rest
    of the line goes away; the substitution goes on at the line break. *)
Lemma re_sub_dash_run pre ws rest :
  "-"%char ∉ pre -> rstrip pre = pre -> spaces ws ->
  re_sub match_dash (pre ++ ws ++ "-"%char :: rest)
  = pre ++ re_sub match_dash (rest_of_line rest).
Proof.
  intros Hpre Hfix Hw. pose proof match_dash_shrinks as Hm.
  induction pre as [|x pre IH].
  - assert (match_dash (ws ++ "-"%char :: rest) = Some (rest_of_line rest))
      as E.
    { unfold match_dash. by rewrite skip_spaces_app. }
    simpl. destruct ws as [|w ws]; simpl in *; by rewrite re_sub_cons, E.
  - change ((x :: pre) ++ ?s) with (x :: pre ++ s).
    rewrite re_sub_cons by done.
    change (x :: pre ++ ?s) with ((x :: pre) ++ s).
    rewrite match_dash_before by done.
    simpl. f_equal. apply IH.
    + by apply not_elem_of_cons in Hpre as [_ ?].
    + by eapply rstrip_cons_fixed.
Qed.

Lemma re_sub_dash_line pre ws rest :
  "-"%char ∉ pre -> rstrip pre = pre -> spaces ws -> newline ∉ rest ->
  re_sub match_dash (pre ++ ws ++ "-"%char :: rest) = pre.
Proof.
  intros Hpre Hfix Hw Hn. rewrite re_sub_dash_run by done.
  rewrite rest_of_line_single by done. apply app_nil_r.
Qed.

End Runs.

(** ** Facts about the date parser *)

(** Case analysis on an integer of a bounded range. *)
Lemma Z_range_cases (P : Z -> Prop) (lo : Z) (n : nat) :
  Forall P (List.map (fun i => lo + Z.of_nat i)%Z (seq 0 n)) ->
  forall z, (lo <= z < lo + Z.of_nat n)%Z -> P z.
Proof.
  intros HP z Hz. rewrite Forall_forall in HP. apply HP.
  apply list_elem_of_In, in_map_iff. exists (Z.to_nat (z - lo)). split; [lia|].
  apply in_seq. lia.
Qed.

Ltac range_cases z lo n :=
  pattern z; apply (Z_range_cases _ lo n); [|lia];
  cbn [List.map seq]; repeat apply Forall_cons_2; [..|apply Forall_nil_2].

Section DateFacts.

Lemma isdigit_inv a :
  isdigit a = true ->
  digit_char (digit_val a) = a /\ (0 <= digit_val a <= 9)%Z
  /\ a <> "-"%char.
Proof.
  unfold isdigit, digit_char, digit_val, code. intros H.
  apply andb_prop in H as [H1%N.leb_le H2%N.leb_le]. split; [|split].
  - replace (Z.to_N (48 + (Z.of_N (N_of_ascii a) - 48))) with (N_of_ascii a)
      by lia.
    apply ascii_N_embedding.
  - lia.
  - intros ->. vm_compute in H1. done.
Qed.

Lemma digit_char_spec n :
(0 <= n <= 9)%Z ->
isdigit (digit_char n) = true /\ digit_val (digit_char n) = n.
Proof. intros Hn. range_cases n 0%Z 10%nat; by vm_compute. Qed.

Lemma year4_value a b c d :
  isdigit a = true -> isdigit b = true -> isdigit c = true ->
  isdigit d = true ->
  year4 (1000 * digit_val a + 100 * digit_val b + 10 * digit_val c
         + digit_val d) = [a; b; c; d].
Proof.
  intros (Ea & Ha & _)%isdigit_inv (Eb & Hb & _)%isdigit_inv
         (Ec & Hc & _)%isdigit_inv (Ed & Hd & _)%isdigit_inv.
  unfold year4.
  set (va := digit_val a) in *. set (vb := digit_val b) in *.
  set (vc := digit_val c) in *. set (vd := digit_val d) in *.
  replace ((1000 * va + 100 * vb + 10 * vc + vd) / 1000)%Z with va
    by (Z.div_mod_to_equations; lia).
  replace ((1000 * va + 100 * vb + 10 * vc + vd) / 100 mod 10)%Z with vb
    by (Z.div_mod_to_equations; lia).
  replace ((1000 * va + 100 * vb + 10 * vc + vd) / 10 mod 10)%Z with vc
    by (Z.div_mod_to_equations; lia).
  replace ((1000 * va + 100 * vb + 10 * vc + vd) mod 10)%Z with vd
    by (Z.div_mod_to_equations; lia).
  by rewrite Ea, Eb, Ec, Ed.
Qed.

Context {A : Type}.
Implicit Types (k : Z -> matcher A) (s : list ascii) (r : A).

Lemma or_else_inv (a b : option A) r :
  or_else a b = Some r -> a = Some r \/ b = Some r.
Proof. destruct a; simpl; auto. Qed.

Lemma one_inv p (k : ascii -> matcher A) s r :
  one p k s = Some r ->
  exists a rest, s = a :: rest /\ p a = true /\ k a rest = Some r.
Proof.
  destruct s as [|a rest]; simpl; [done|].
  destruct (p a) eqn:Hp; [|done]. intros H. by exists a, rest.
Qed.

Lemma two_inv p1 p2 (k : ascii -> ascii -> matcher A) s r :
  two p1 p2 k s = Some r ->
  exists a b rest, s = a :: b :: rest /\ p1 a = true /\ p2 b = true
                   /\ k a b rest = Some r.
Proof.
  destruct s as [|a [|b rest]]; simpl; [done..|].
  destruct (p1 a) eqn:H1, (p2 b) eqn:H2; simpl; try done.
  intros H. by exists a, b, rest.
Qed.

Lemma re_lit_inv c (k : matcher A) s r :
  re_lit c k s = Some r -> exists rest, s = c :: rest /\ k rest = Some r.
Proof.
  intros (a & rest & -> & Ha & Hk)%one_inv.
  apply Ascii.eqb_eq in Ha as <-. by exists rest.
Qed.

Lemma re_Y_inv k s r :
  re_Y k s = Some r ->
  exists a b c d rest,
    s = a :: b :: c :: d :: rest
    /\ isdigit a = true /\ isdigit b = true /\ isdigit c = true
    /\ isdigit d = true
    /\ k (1000 * digit_val a + 100 * digit_val b + 10 * digit_val c
          + digit_val d)%Z rest = Some r.
Proof.
  destruct s as [|a [|b [|c [|d rest]]]]; simpl; [done..|].
  destruct (isdigit a) eqn:Ha, (isdigit b) eqn:Hb, (isdigit c) eqn:Hc,
    (isdigit d) eqn:Hd; simpl; try done.
  intros H. by exists a, b, c, d, rest.
Qed.

Lemma re_m_inv k s r :
  re_m k s = Some r -> exists m rest, k m rest = Some r.
Proof.
  unfold re_m.
  intros [H|[H|H]%or_else_inv]%or_else_inv.
  - apply two_inv in H as (a & b & rest & _ & _ & _ & H). eauto.
  - apply two_inv in H as (a & b & rest & _ & _ & _ & H). eauto.
  - apply one_inv in H as (a & rest & _ & _ & H). eauto.
Qed.

Lemma re_d_inv k s r :
  re_d k s = Some r -> exists d rest, k d rest = Some r.
Proof.
  unfold re_d.
  intros [H|[H|[H|[H|H]%or_else_inv]%or_else_inv]%or_else_inv]%or_else_inv.
  - apply two_inv in H as (a & b & rest & _ & _ & _ & H). eauto.
  - apply two_inv in H as (a & b & rest & _ & _ & _ & H). eauto.
  - apply two_inv in H as (a & b & rest & _ & _ & _ & H). eauto.
  - apply one_inv in H as (a & rest & _ & _ & H). eauto.
  - apply two_inv in H as (a & b & rest & _ & _ & _ & H). eauto.
Qed.

End DateFacts.

Lemma before_dash_year a b c d tail :
  isdigit a = true -> isdigit b = true -> isdigit c = true ->
  isdigit d = true ->
  tail = [] \/ (exists t, tail = "-"%char :: t) ->
  before_dash (a :: b :: c :: d :: tail) = [a; b; c; d].
Proof.
  intros (_ & _ & Ha)%isdigit_inv (_ & _ & Hb)%isdigit_inv
         (_ & _ & Hc)%isdigit_inv (_ & _ & Hd)%isdigit_inv Htail.
  simpl.
  apply Ascii.eqb_neq in Ha, Hb, Hc, Hd. rewrite Ha, Hb, Hc, Hd.
  by destruct Htail as [->|[t ->]].
Qed.

(** What a successful match tells about the text: it starts with the four
    digits of the year, followed by the end of the text or by a hyphen. *)
Lemma regex_match_inv f s y m d rest :
  regex_match f s = Some (y, m, d, rest) ->
  exists a b c e tail,
    s = a :: b :: c :: e :: tail
    /\ isdigit a = true /\ isdigit b = true /\ isdigit c = true
    /\ isdigit e = true
    /\ y = (1000 * digit_val a + 100 * digit_val b + 10 * digit_val c
            + digit_val e)%Z
    /\ match f with
       | FmtY => tail = rest /\ m = 1%Z /\ d = 1%Z
       | FmtYm => (exists t, tail = "-"%char :: t) /\ d = 1%Z
       | FmtYmd => exists t, tail = "-"%char :: t
       end.
Proof.
  destruct f; simpl;
    intros (a & b & c & e & tail & -> & Ha & Hb & Hc & He & H)%re_Y_inv;
    exists a, b, c, e, tail.
  - apply re_lit_inv in H as (t & -> & H).
    apply re_m_inv in H as (m' & r1 & H).
    apply re_lit_inv in H as (t' & -> & H).
    apply re_d_inv in H as (d' & r2 & H). simplify_eq. eauto 10.
  - apply re_lit_inv in H as (t & -> & H).
    apply re_m_inv in H as (m' & r1 & H). simplify_eq. eauto 10.
  - simplify_eq. eauto 10.
Qed.

Lemma strptime_inv text f dt :
  strptime text f = Some dt ->
  split_first text = render_year dt
  /\ (1 <= year dt <= 9999)%Z
  /\ valid_date (year dt) (month dt) (day dt) = true
  /\ (f = FmtY -> month dt = 1%Z /\ day dt = 1%Z)
  /\ (f = FmtYm -> day dt = 1%Z).
Proof.
  unfold strptime, split_first, render_year.
  destruct (regex_match f (list_ascii_of_string text))
    as [[[[y m] d] rest]|] eqn:E; [|done].
  destruct rest; [|done].
  destruct (valid_date y m d) eqn:Hv; [|done]. intros [= <-].
  cbn [year month day].
  apply regex_match_inv in E
    as (a & b & c & e & tail & -> & Ha & Hb & Hc & He & -> & Hf).
  split; [|split; [|split; [|split]]].
  - rewrite year4_value by done. f_equal.
    apply before_dash_year; try done.
    destruct f; [right; done|right; apply Hf|left; apply Hf].
  - unfold valid_date in Hv. repeat (apply andb_prop in Hv as [Hv ?]). lia.
  - done.
  - intros ->. by destruct Hf as (_ & -> & ->).
  - intros ->. by destruct Hf as (_ & ->).
Qed.

Lemma first_parse_inv formats text dt :
  first_parse formats text = Some dt ->
  exists f, f ∈ formats /\ strptime text f = Some dt.
Proof.
  induction formats as [|f formats IH]; simpl; [done|].
  destruct (strptime text f) as [d|] eqn:E.
  - intros [= ->]. exists f. split; [by left|done].
  - intros (f' & ? & ?)%IH. exists f'. split; [by right|done].
Qed.

(** *** Canonical texts are parsed *)

Lemma re_Y_year4 {A} (k : Z -> matcher A) y rest :
  (0 <= y <= 9999)%Z -> re_Y k (year4 y ++ rest) = k y rest.
Proof.
  intros Hy. unfold year4.
  destruct (digit_char_spec (y / 1000)) as [D1 V1];
    [Z.div_mod_to_equations; lia|].
  destruct (digit_char_spec (y / 100 mod 10)) as [D2 V2];
    [Z.div_mod_to_equations; lia|].
  destruct (digit_char_spec (y / 10 mod 10)) as [D3 V3];
    [Z.div_mod_to_equations; lia|].
  destruct (digit_char_spec (y mod 10)) as [D4 V4];
    [Z.div_mod_to_equations; lia|].
  cbn [app re_Y]. rewrite D1, D2, D3, D4, V1, V2, V3, V4. cbn [andb].
  f_equal. Z.div_mod_to_equations. lia.
Qed.

Lemma regex_match_ymd y m d :
  (0 <= y <= 9999)%Z -> (1 <= m <= 12)%Z -> (1 <= d <= 31)%Z ->
  regex_match FmtYmd (year4 y ++ "-"%char :: two2 m ++ "-"%char :: two2 d)
  = Some (y, m, d, []).
Proof.
  intros Hy Hm Hd. unfold regex_match. rewrite re_Y_year4 by done.
  revert d Hd. range_cases m 1%Z 12%nat; intros d Hd;
    range_cases d 1%Z 31%nat; reflexivity.
Qed.

Lemma regex_match_ym y m :
  (0 <= y <= 9999)%Z -> (1 <= m <= 12)%Z ->
  regex_match FmtYmd (year4 y ++ "-"%char :: two2 m) = None
  /\ regex_match FmtYm (year4 y ++ "-"%char :: two2 m) = Some (y, m, 1%Z, []).
Proof.
  intros Hy Hm. unfold regex_match. rewrite !re_Y_year4 by done.
  range_cases m 1%Z 12%nat; by split.
Qed.

Lemma regex_match_y y :
  (0 <= y <= 9999)%Z ->
  regex_match FmtYmd (year4 y) = None
  /\ regex_match FmtYm (year4 y) = None
  /\ regex_match FmtY (year4 y) = Some (y, 1%Z, 1%Z, []).
Proof.
  intros Hy. unfold regex_match.
  rewrite <-(app_nil_r (year4 y)), !re_Y_year4 by done. done.
Qed.

Lemma valid_date_bounds y m d :
  valid_date y m d = true ->
  (1 <= y <= 9999)%Z /\ (1 <= m <= 12)%Z /\ (1 <= d <= 31)%Z.
Proof.
  unfold valid_date, days_in_month. intros H.
  repeat (apply andb_prop in H as [H ?]).
  repeat case_match; lia.
Qed.

Lemma try_parsing_date_ymd y m d :
  valid_date y m d = true ->
  try_parsing_date (render_ymd y m d) = Some (mkdate y m d).
Proof.
  intros Hv. pose proof (valid_date_bounds _ _ _ Hv) as (Hy & Hm & Hd).
  unfold try_parsing_date, render_ymd. cbn [date_formats first_parse].
  unfold strptime. rewrite list_ascii_of_string_of_list_ascii.
  rewrite regex_match_ymd by lia. by rewrite Hv.
Qed.

Lemma try_parsing_date_ym y m :
  (1 <= y <= 9999)%Z -> (1 <= m <= 12)%Z ->
  try_parsing_date (render_ym y m) = Some (mkdate y m 1).
Proof.
  intros Hy Hm. unfold try_parsing_date, render_ym.
  cbn [date_formats first_parse]. unfold strptime.
  rewrite list_ascii_of_string_of_list_ascii.
  destruct (regex_match_ym y m) as [-> ->]; [lia..|].
  assert (valid_date y m 1 = true) as ->; [|done].
  unfold valid_date, days_in_month.
  repeat (apply andb_true_intro; split); try lia.
  repeat case_match; lia.
Qed.

Lemma try_parsing_date_y y :
  (1 <= y <= 9999)%Z ->
  try_parsing_date (render_y y) = Some (mkdate y 1 1).
Proof.
  intros Hy. unfold try_parsing_date, render_y.
  cbn [date_formats first_parse]. unfold strptime.
  rewrite list_ascii_of_string_of_list_ascii.
  destruct (regex_match_y y) as (-> & -> & ->); [lia|].
  assert (valid_date y 1 1 = true) as ->; [|done].
  unfold valid_date, days_in_month. cbn.
  repeat (apply andb_true_intro; split); lia.
Qed.

(** ** Facts about the date parser on Unicode text *)

Lemma unicode_decimal_table : Unicode.decimal_table Unicode.unicode_decimal.
Proof.
  assert (forall c zero,
            List.find (fun zero => (zero <=? c) && (c <? zero + 10))%N
              Unicode.decimal_zeros = Some zero ->
            (zero = 48 \/ 256 <= zero)%N /\ (zero <= c < zero + 10)%N)
    as Hfind.
  { intros c zero [Hin Ht]%find_some. split.
    - assert (forallb (fun z => (z =? 48) || (256 <=? z))%N
                Unicode.decimal_zeros = true) as Hall by reflexivity.
      rewrite forallb_forall in Hall. specialize (Hall zero Hin).
      apply orb_prop in Hall as [?%N.eqb_eq|?%N.leb_le]; auto.
    - apply andb_prop in Ht as [?%N.leb_le ?%N.ltb_lt]. done. }
  split.
  - intros c [H1 H2]. unfold Unicode.unicode_decimal, Unicode.decimal_zeros.
    cbn [List.find].
    destruct (N.leb_spec 48 c); [|lia].
    destruct (N.ltb_spec c (48 + 10)); [|lia]. cbn [andb].
    f_equal. lia.
  - intros c v Hc. unfold Unicode.unicode_decimal.
    destruct (List.find _ _) as [zero|] eqn:E; [|done]. intros _.
    apply Hfind in E as [[->|?] ?]; unfold Unicode.ascii_digit; lia.
  - intros c v. unfold Unicode.unicode_decimal.
    destruct (List.find _ _) as [zero|] eqn:E; [|done]. intros [= <-].
    apply Hfind in E as [_ ?]. lia.
Qed.

Section UnicodeFacts.

Variable decimal : N -> option Z.
Hypothesis Htable : Unicode.decimal_table decimal.

Implicit Types (s : list ascii) (a b c x : ascii).

Lemma code_bounded a : (code a < 256)%N.
Proof. apply N_ascii_bounded. Qed.

Lemma code_inj a b : code a = code b -> a = b.
Proof.
  unfold code. intros H.
  by rewrite <- (ascii_N_embedding a), <- (ascii_N_embedding b), H.
Qed.

Lemma decimal_code a :
  decimal (code a) = if isdigit a then Some (digit_val a) else None.
Proof.
  unfold isdigit, digit_val.
  destruct (N.leb_spec 48 (code a)), (N.leb_spec (code a) 57); simpl.
  - by apply (Unicode.decimal_ascii _ Htable).
  - destruct (decimal (code a)) as [v|] eqn:E; [|done].
    apply (Unicode.decimal_latin1 _ Htable) in E as [? ?];
      [lia|apply code_bounded].
  - destruct (decimal (code a)) as [v|] eqn:E; [|done].
    apply (Unicode.decimal_latin1 _ Htable) in E as [? ?];
      [lia|apply code_bounded].
  - destruct (decimal (code a)) as [v|] eqn:E; [|done].
    apply (Unicode.decimal_latin1 _ Htable) in E as [? ?];
      [lia|apply code_bounded].
Qed.

Lemma class_code lo hi a :
  Unicode.class lo hi (code a)
  = if Datetime.in_range lo hi a then Some (digit_val a) else None.
Proof. reflexivity. Qed.

Lemma lit_code x a :
  Unicode.lit x (code a) = if Ascii.eqb x a then Some 0%Z else None.
Proof.
  unfold Unicode.lit. destruct (Ascii.eqb_spec x a) as [->|Hne].
  - by rewrite N.eqb_refl.
  - destruct (N.eqb_spec (code a) (code x)) as [E|]; [|done].
    by apply code_inj in E.
Qed.

(** *** On the strings of the embedding the parser is the one of
        [Datetime] *)

Section Bridge.

Context {A B : Type}.
Variable g : B -> A.

Implicit Types (k : Z -> Unicode.str -> option A)
         (h : Z -> list ascii -> option B).

Lemma re_Y_codes k h s :
  (forall y rest, k y (List.map code rest) = g <$> h y rest) ->
  Unicode.re_Y decimal k (List.map code s) = g <$> Datetime.re_Y h s.
Proof.
  intros Hk. destruct s as [|a [|b [|c [|d rest]]]];
    unfold Unicode.re_Y, Unicode.two, Unicode.one; cbn [List.map];
    rewrite ?decimal_code; unfold Datetime.re_Y;
    repeat (destruct (isdigit _)); simpl; first [done | apply Hk].
Qed.

Lemma re_lit_codes x (k : Unicode.str -> option A)
    (h : list ascii -> option B) s :
  (forall rest, k (List.map code rest) = g <$> h rest) ->
  Unicode.re_lit x k (List.map code s) = g <$> Datetime.re_lit x h s.
Proof.
  intros Hk. destruct s as [|a rest]; [done|].
  unfold Unicode.re_lit, Unicode.one, Datetime.re_lit, Datetime.one.
  cbn [List.map]. rewrite lit_code. destruct (Ascii.eqb x a); [apply Hk|done].
Qed.

Lemma re_m_codes k h s :
  (forall m rest, k m (List.map code rest) = g <$> h m rest) ->
  Unicode.re_m k (List.map code s) = g <$> Datetime.re_m h s.
Proof.
  intros Hk. unfold Unicode.re_m, Datetime.re_m, Unicode.two, Unicode.one,
    Datetime.two, Datetime.one.
  destruct s as [|a [|b rest]]; cbn [List.map]; [done| |];
    rewrite ?lit_code, ?class_code;
    repeat (destruct (Ascii.eqb _ _));
    repeat (destruct (Datetime.in_range _ _ _));
    simpl;
    try change (code b :: List.map code rest) with (List.map code (b :: rest));
    change (@nil N) with (List.map code []);
    rewrite ?Hk;
    repeat (destruct (h _ _); simpl); done.
Qed.

Lemma re_d_codes k h s :
  (forall d rest, k d (List.map code rest) = g <$> h d rest) ->
  Unicode.re_d decimal k (List.map code s) = g <$> Datetime.re_d h s.
Proof.
  intros Hk. unfold Unicode.re_d, Datetime.re_d, Unicode.two, Unicode.one,
    Datetime.two, Datetime.one.
  destruct s as [|a [|b rest]]; cbn [List.map]; [done| |];
    rewrite ?lit_code, ?class_code, ?decimal_code;
    repeat (destruct (Ascii.eqb _ _));
    repeat (destruct (Datetime.in_range _ _ _));
    repeat (destruct (isdigit _));
    simpl;
    try change (code b :: List.map code rest) with (List.map code (b :: rest));
    change (@nil N) with (List.map code []);
    rewrite ?Hk;
    repeat (destruct (h _ _); simpl); done.
Qed.

End Bridge.

Lemma regex_match_codes f s :
  Unicode.regex_match decimal f (List.map code s)
  = (fun r => (r.1, List.map code r.2)) <$> Datetime.regex_match f s.
Proof.
  destruct f; unfold Unicode.regex_match, Datetime.regex_match.
  - apply re_Y_codes. intros y rest. apply re_lit_codes. intros rest1.
    apply re_m_codes. intros m rest2. apply re_lit_codes. intros rest3.
    apply re_d_codes. intros d rest4. done.
  - apply re_Y_codes. intros y rest. apply re_lit_codes. intros rest1.
    apply re_m_codes. intros m rest2. done.
  - apply re_Y_codes. intros y rest. done.
Qed.

Lemma strptime_of_string text f :
  Unicode.strptime decimal (Unicode.of_string text) f
  = Datetime.strptime text f.
Proof.
  unfold Unicode.strptime, Datetime.strptime, Unicode.of_string.
  rewrite regex_match_codes.
  destruct (Datetime.regex_match f (list_ascii_of_string text))
    as [[[[y m] d] rest]|]; [|done].
  simpl. by destruct rest.
Qed.

Lemma try_parsing_date_of_string text :
  Unicode.try_parsing_date decimal (Unicode.of_string text)
  = try_parsing_date text.
Proof.
  unfold Unicode.try_parsing_date, try_parsing_date, date_formats.
  cbn [Unicode.first_parse first_parse]. by rewrite !strptime_of_string.
Qed.

End UnicodeFacts.

(** *** What a parse tells about a text of any script *)

Section UnicodeParses.

Variable decimal : N -> option Z.
Hypothesis Htable : Unicode.decimal_table decimal.

Section Inversion.

Context {A : Type}.
Implicit Types (k : Z -> Unicode.str -> option A) (s : Unicode.str) (r : A).

Lemma uone_inv p k s r :
  Unicode.one p k s = Some r ->
  exists a va rest, s = a :: rest /\ p a = Some va /\ k va rest = Some r.
Proof.
  destruct s as [|a rest]; simpl; [done|].
  destruct (p a) as [va|] eqn:E; [|done]. intros H. by exists a, va, rest.
Qed.

Lemma utwo_inv p1 p2 (k : Z -> Z -> Unicode.str -> option A) s r :
  Unicode.two p1 p2 k s = Some r ->
  exists a b va vb rest,
    s = a :: b :: rest /\ p1 a = Some va /\ p2 b = Some vb
    /\ k va vb rest = Some r.
Proof.
  unfold Unicode.two.
  intros (a & va & rest & -> & Ha & H)%uone_inv.
  apply uone_inv in H as (b & vb & rest' & -> & Hb & H).
  by exists a, b, va, vb, rest'.
Qed.

Lemma ure_Y_inv k s r :
  Unicode.re_Y decimal k s = Some r ->
  exists a b c d va vb vc vd rest,
    s = a :: b :: c :: d :: rest
    /\ decimal a = Some va /\ decimal b = Some vb
    /\ decimal c = Some vc /\ decimal d = Some vd
    /\ k (1000 * va + 100 * vb + 10 * vc + vd)%Z rest = Some r.
Proof.
  unfold Unicode.re_Y.
  intros (a & b & va & vb & rest & -> & Ha & Hb & H)%utwo_inv.
  apply utwo_inv in H as (c & d & vc & vd & rest' & -> & Hc & Hd & H).
  exists a, b, c, d, va, vb, vc, vd, rest'. done.
Qed.

Lemma ure_lit_inv x (k : Unicode.str -> option A) s r :
  Unicode.re_lit x k s = Some r ->
  exists rest, s = code x :: rest /\ k rest = Some r.
Proof.
  unfold Unicode.re_lit.
  intros (a & va & rest & -> & Ha & H)%uone_inv. exists rest.
  unfold Unicode.lit in Ha.
  destruct (N.eqb_spec a (code x)) as [->|]; done.
Qed.

Lemma ure_m_inv k s r :
  Unicode.re_m k s = Some r -> exists m rest, k m rest = Some r.
Proof.
  unfold Unicode.re_m.
  intros [H|[H|H]%or_else_inv]%or_else_inv.
  - apply utwo_inv in H as (a & b & va & vb & rest & _ & _ & _ & H). eauto.
  - apply utwo_inv in H as (a & b & va & vb & rest & _ & _ & _ & H). eauto.
  - apply uone_inv in H as (a & va & rest & _ & _ & H). eauto.
Qed.

Lemma ure_d_inv k s r :
  Unicode.re_d decimal k s = Some r -> exists d rest, k d rest = Some r.
Proof.
  unfold Unicode.re_d.
  intros [H|[H|[H|[H|H]%or_else_inv]%or_else_inv]%or_else_inv]%or_else_inv.
  - apply utwo_inv in H as (a & b & va & vb & rest & _ & _ & _ & H). eauto.
  - apply utwo_inv in H as (a & b & va & vb & rest & _ & _ & _ & H). eauto.
  - apply utwo_inv in H as (a & b & va & vb & rest & _ & _ & _ & H). eauto.
  - apply uone_inv in H as (a & va & rest & _ & _ & H). eauto.
  - apply utwo_inv in H as (a & b & va & vb & rest & _ & _ & _ & H). eauto.
Qed.

End Inversion.

(** A matched text starts with four decimal digits, the year, followed
    by the end of the match or by a hyphen. *)
Lemma uregex_match_inv f s y m d rest :
  Unicode.regex_match decimal f s = Some (y, m, d, rest) ->
  exists a b c e va vb vc ve tail,
    s = a :: b :: c :: e :: tail
    /\ decimal a = Some va /\ decimal b = Some vb
    /\ decimal c = Some vc /\ decimal e = Some ve
    /\ y = (1000 * va + 100 * vb + 10 * vc + ve)%Z
    /\ match f with
       | FmtY => tail = rest /\ m = 1%Z /\ d = 1%Z
       | FmtYm => (exists t, tail = code "-" :: t) /\ d = 1%Z
       | FmtYmd => exists t, tail = code "-" :: t
       end.
Proof.
  destruct f; simpl;
    intros (a & b & c & e & va & vb & vc & ve & tail & -> & Ha & Hb & Hc
            & He & H)%ure_Y_inv;
    exists a, b, c, e, va, vb, vc, ve, tail.
  - apply ure_lit_inv in H as (t & -> & H).
    apply ure_m_inv in H as (m' & r1 & H).
    apply ure_lit_inv in H as (t' & -> & H).
    apply ure_d_inv in H as (d' & r2 & H). simplify_eq. eauto 10.
  - apply ure_lit_inv in H as (t & -> & H).
    apply ure_m_inv in H as (m' & r1 & H). simplify_eq. eauto 10.
  - simplify_eq. eauto 10.
Qed.

Lemma decimal_no_hyphen c v : decimal c = Some v -> c <> code "-".
Proof.
  intros H ->. apply (Unicode.decimal_latin1 _ Htable) in H as [? ?];
    [|done]. vm_compute in H. done.
Qed.

Lemma before_hyphen_year a b c e tail :
  a <> code "-" -> b <> code "-" -> c <> code "-" -> e <> code "-" ->
  tail = [] \/ (exists t, tail = code "-" :: t) ->
  Unicode.before_hyphen (a :: b :: c :: e :: tail) = [a; b; c; e].
Proof.
  intros Ha%N.eqb_neq Hb%N.eqb_neq Hc%N.eqb_neq He%N.eqb_neq Ht.
  cbn [Unicode.before_hyphen]. rewrite Ha, Hb, Hc, He.
  destruct Ht as [->|[t ->]]; [done|].
  cbn [Unicode.before_hyphen]. by rewrite N.eqb_refl.
Qed.

(** Four ASCII digits are the text of the number they make. *)
Lemma ascii_year a b c e :
  Unicode.ascii_digit a -> Unicode.ascii_digit b ->
  Unicode.ascii_digit c -> Unicode.ascii_digit e ->
  Unicode.of_string
    (string_of_list_ascii
       (year4 (1000 * (Z.of_N a - 48) + 100 * (Z.of_N b - 48)
               + 10 * (Z.of_N c - 48) + (Z.of_N e - 48))))
  = [a; b; c; e].
Proof.
  assert (forall x, Unicode.ascii_digit x ->
            isdigit (ascii_of_N x) = true
            /\ digit_val (ascii_of_N x) = (Z.of_N x - 48)%Z
            /\ code (ascii_of_N x) = x) as Hx.
  { intros x [H1 H2]. unfold isdigit, digit_val, code.
    rewrite N_ascii_embedding by lia.
    destruct (N.leb_spec 48 x), (N.leb_spec x 57); first [lia|done]. }
  intros (Da & <- & Ca)%Hx (Db & <- & Cb)%Hx (Dc & <- & Cc)%Hx
         (De & <- & Ce)%Hx.
  rewrite year4_value by done. unfold Unicode.of_string.
  rewrite list_ascii_of_string_of_list_ascii. simpl.
  by rewrite Ca, Cb, Cc, Ce.
Qed.

Lemma ustrptime_inv text f dt :
  Unicode.strptime decimal text f = Some dt ->
  Unicode.year_value decimal (Unicode.before_hyphen text) = Some (year dt)
  /\ (1 <= year dt <= 9999)%Z
  /\ valid_date (year dt) (month dt) (day dt) = true
  /\ (f = FmtY -> month dt = 1%Z /\ day dt = 1%Z)
  /\ (f = FmtYm -> day dt = 1%Z)
  /\ (Forall Unicode.ascii_digit (Unicode.before_hyphen text) ->
      Unicode.before_hyphen text = Unicode.of_string (render_year dt)).
Proof.
  unfold Unicode.strptime.
  destruct (Unicode.regex_match decimal f text)
    as [[[[y m] d] rest]|] eqn:E; [|done].
  destruct rest; [|done].
  destruct (valid_date y m d) eqn:Hv; [|done]. intros [= <-].
  cbn [year month day].
  apply uregex_match_inv in E
    as (a & b & c & e & va & vb & vc & ve & tail & -> & Ha & Hb & Hc & He
        & -> & Hf).
  rewrite before_hyphen_year; eauto using decimal_no_hyphen.
  2:{ destruct f; [right; done|right; apply Hf|left; apply Hf]. }
  split_and!.
  - unfold Unicode.year_value, Unicode.re_Y, Unicode.two, Unicode.one.
    by rewrite Ha, Hb, Hc, He.
  - unfold valid_date in Hv. repeat (apply andb_prop in Hv as [Hv ?]). lia.
  - unfold valid_date in Hv. repeat (apply andb_prop in Hv as [Hv ?]). lia.
  - done.
  - intros ->. by destruct Hf as (_ & -> & ->).
  - intros ->. by destruct Hf as (_ & ->).
  - intros Hall. unfold render_year. cbn [year].
    apply Forall_cons_1 in Hall as [Aa Hall].
    apply Forall_cons_1 in Hall as [Ab Hall].
    apply Forall_cons_1 in Hall as [Ac Hall].
    apply Forall_cons_1 in Hall as [Ae _].
    rewrite (Unicode.decimal_ascii _ Htable a Aa) in Ha.
    rewrite (Unicode.decimal_ascii _ Htable b Ab) in Hb.
    rewrite (Unicode.decimal_ascii _ Htable c Ac) in Hc.
    rewrite (Unicode.decimal_ascii _ Htable e Ae) in He.
    simplify_eq. by rewrite ascii_year.
Qed.

Lemma ufirst_parse_inv formats text dt :
  Unicode.first_parse decimal formats text = Some dt ->
  exists f, f ∈ formats /\ Unicode.strptime decimal text f = Some dt.
Proof.
  induction formats as [|f formats IH]; simpl; [done|].
  destruct (Unicode.strptime decimal text f) as [d|] eqn:E.
  - intros [= ->]. exists f. split; [by left|done].
  - intros (f' & ? & ?)%IH. exists f'. split; [by right|done].
Qed.

(** Four decimal digits of any script are a year. *)
Lemma four_digits_parse a b c e va vb vc ve :
  decimal a = Some va -> decimal b = Some vb ->
  decimal c = Some vc -> decimal e = Some ve ->
  let y := (1000 * va + 100 * vb + 10 * vc + ve)%Z in
  (1 <= y)%Z ->
  Unicode.try_parsing_date decimal [a; b; c; e] = Some (mkdate y 1 1).
Proof.
  intros Ha Hb Hc He y Hy.
  pose proof (Unicode.decimal_value _ Htable _ _ Ha).
  pose proof (Unicode.decimal_value _ Htable _ _ Hb).
  pose proof (Unicode.decimal_value _ Htable _ _ Hc).
  pose proof (Unicode.decimal_value _ Htable _ _ He).
  unfold Unicode.try_parsing_date, Unicode.first_parse, Unicode.strptime,
    Unicode.regex_match, Unicode.re_Y, Unicode.two, Unicode.one,
    Unicode.re_lit.
  rewrite Ha, Hb, Hc, He. fold y.
  assert (valid_date y 1 1 = true) as ->; [|done].
  unfold valid_date, days_in_month. cbn.
  repeat (apply andb_true_intro; split); lia.
Qed.

End UnicodeParses.

(** ** Facts about the adapters and the resolver *)

Section Frames.

Variable w : world.

Lemma only_logs_ret {A} (a : A) : only_logs (ret a).
Proof. intros st. split; [done|]. exists []. by rewrite app_nil_r. Qed.

Lemma only_logs_raise {A} e : only_logs (@raise A e).
Proof. intros st. split; [done|]. exists []. by rewrite app_nil_r. Qed.

Lemma only_logs_lift {A} (r : result A) : only_logs (lift r).
Proof. intros st. split; [done|]. exists []. by rewrite app_nil_r. Qed.

Lemma only_logs_record {A} c (answer : list call -> A) :
  only_logs (record c answer).
Proof. intros st. split; [done|]. by exists [c]. Qed.

Lemma only_logs_bind {A B} (m : M A) (k : A -> M B) :
  only_logs m -> (forall a, only_logs (k a)) -> only_logs (bind m k).
Proof.
  intros Hm Hk st. unfold bind.
  destruct (Hm st) as [Hd [l Hl]]. destruct (m st) as [[a|e] st1]; simpl in *.
  - destruct (Hk a st1) as [Hd' [l' Hl']]. split; [congruence|].
    exists (l ++ l'). rewrite Hl', Hl. by rewrite app_assoc.
  - split; [done|]. by exists l.
Qed.

Ltac only_logs_step :=
  first [ apply only_logs_ret | apply only_logs_raise
        | apply only_logs_lift | apply only_logs_record
        | apply only_logs_bind; [|intros ?] | case_match ].

Lemma only_logs_musicbrainz artist_name song_title :
  only_logs (get_release_year_musicbrainz w artist_name song_title).
Proof. unfold get_release_year_musicbrainz. repeat only_logs_step. Qed.

Lemma only_logs_discogs artist title :
  only_logs (fetch_discogs_data w artist title).
Proof. unfold fetch_discogs_data. repeat only_logs_step. Qed.

Lemma only_logs_resolver discogs_data artist title item :
  only_logs (extract_year_from_discogs_data w discogs_data artist title item).
Proof.
  unfold extract_year_from_discogs_data.
  repeat first [apply only_logs_musicbrainz | only_logs_step].
Qed.

Lemma only_logs_qr url : only_logs (generate_qr_code w url).
Proof. unfold generate_qr_code. repeat only_logs_step. Qed.

Lemma only_logs_overlay qr_code_image :
  only_logs (add_overlay_to_qr_code w qr_code_image).
Proof. unfold add_overlay_to_qr_code. repeat only_logs_step. Qed.

End Frames.

(** ** The record store *)

Section Store.

Variable w : world.

Lemma one_row_more_aligned d d' :
  aligned d -> one_row_more d d' -> aligned d'.
Proof.
  intros (H1 & H2 & H3 & H4) (a & t & y & u & q & E1 & E2 & E3 & E4 & E5).
  unfold aligned. rewrite E1, E2, E3, E4, E5, !length_app. simpl. lia.
Qed.

Lemma adds_ret : adds_at_most_a_row (ret tt).
Proof. intros st. split; [by left|]. exists []. by rewrite app_nil_r. Qed.

Lemma adds_append_row artist title year url qr_img :
  adds_at_most_a_row (append_row artist title year url qr_img).
Proof.
  intros st. split.
  - right. split; [done|]. by exists artist, title, year, url, qr_img.
  - exists []. by rewrite app_nil_r.
Qed.

(** A step that only logs, then one that adds at most a row. *)
Lemma adds_bind {A} (m : M A) (k : A -> M unit) :
  only_logs m -> (forall a, adds_at_most_a_row (k a)) ->
  adds_at_most_a_row (bind m k).
Proof.
  intros Hm Hk st. unfold bind.
  destruct (Hm st) as [Hd [l Hl]]. destruct (m st) as [[a|e] st1];
    simpl in *.
  - destruct (Hk a st1) as [Hrow [l' Hl']]. rewrite Hd in Hrow. split.
    + destruct Hrow as [->|Hrow]; [by left|by right].
    + exists (l ++ l'). by rewrite Hl', Hl, app_assoc.
  - split; [by left|]. by exists l.
Qed.

Lemma adds_finish info artist item discogs_data :
  adds_at_most_a_row
    (year <- extract_year_from_discogs_data w discogs_data artist
               (ti_name info) item ;;
     qr_img <- generate_qr_code w (ti_url info) ;;
     qr_img <- add_overlay_to_qr_code w qr_img ;;
     append_row artist (ti_name info) year (ti_url info) qr_img).
Proof.
  apply adds_bind; [apply only_logs_resolver|]. intros year.
  apply adds_bind; [apply only_logs_qr|]. intros qr_img.
  apply adds_bind; [apply only_logs_overlay|]. intros qr_img'.
  apply adds_append_row.
Qed.

Lemma adds_enrich info artist item :
  adds_at_most_a_row (enrich w info artist item).
Proof.
  unfold enrich. apply adds_bind; [apply only_logs_discogs|].
  intros discogs_data.
  destruct discogs_data; first [apply adds_ret | apply adds_finish].
Qed.

(** One call of the per-track operation: the store is left as it was,
    or the call returns normally with one row more. *)
Lemma add_track_to_data_step item spotify_type :
  adds_at_most_a_row (add_track_to_data w item spotify_type).
Proof.
  unfold add_track_to_data.
  destruct (extract_track_info item spotify_type) as [info|];
    [apply (adds_enrich info)|apply adds_ret].
Qed.

Lemma add_track_to_data_aligned item spotify_type st :
  aligned (data st) ->
  aligned (data (add_track_to_data w item spotify_type st).2).
Proof.
  intros Ha.
  destruct (add_track_to_data_step item spotify_type st)
    as [[->|[_ Hrow]] _]; eauto using one_row_more_aligned.
Qed.

Lemma for_each_aligned (body : value -> M unit) items st :
  (forall item st, aligned (data st) -> aligned (data (body item st).2)) ->
  aligned (data st) -> aligned (data (for_each body items st).2).
Proof.
  intros Hbody. revert st.
  induction items as [|item items IH]; intros st Ha; simpl; [done|].
  unfold bind. specialize (Hbody item st Ha).
  destruct (body item st) as [[[]|e] st1]; simpl in *; auto.
Qed.

Lemma add_tracks_to_data_aligned results spotify_type st :
  aligned (data st) ->
  aligned (data (add_tracks_to_data w results spotify_type st).2).
Proof.
  intros Ha. unfold add_tracks_to_data, bind, lift.
  destruct (let? items := getitem results "items" in iter items)
    as [items|e]; [|done].
  apply for_each_aligned; [|done].
  intros item st'. apply add_track_to_data_aligned.
Qed.

Lemma next_page_aligned results spotify_type st :
  aligned (data st) ->
  aligned (data (next_page w results spotify_type st).2).
Proof.
  intros Ha. unfold next_page, bind, record, lift. simpl.
  destruct (spotify_next w (log st) results) as [results'|e]; [|done].
  set (st1 := {| data := data st; log := log st ++ [SpotifyNext results] |}).
  pose proof (add_tracks_to_data_aligned results' spotify_type st1 Ha) as H.
  by destruct (add_tracks_to_data w results' spotify_type st1) as [[[]|e] st2].
Qed.

Lemma fetch_and_add_additional_tracks_aligned pages results spotify_type st :
  aligned (data st) ->
  aligned (data (fetch_and_add_additional_tracks w pages results
                   spotify_type st).2).
Proof.
  revert results st. induction pages as [|pages IH]; intros results st Ha;
    [done|].
  cbn [fetch_and_add_additional_tracks]. unfold bind, lift.
  destruct (getitem results "next") as [next|e]; [|done].
  destruct (truthy next); [|done].
  pose proof (next_page_aligned results spotify_type st Ha) as H.
  destruct (next_page w results spotify_type st) as [[results'|e] st'];
    simpl in H; [by apply IH|by destruct e].
Qed.

End Store.

(** ** The MusicBrainz stage *)

Section MusicBrainz.

Lemma contains_date r :
  contains "date" (release_json r)
  = Ok (match rel_date r with Some _ => true | None => false end).
Proof.
  unfold release_json, contains.
  destruct (rel_date r), (rel_credit r); by simplify_map_eq.
Qed.

Lemma release_tuple_json r text :
  rel_date r = Some text -> release_tuple (release_json r) = Ok (tuple_of r).
Proof.
  intros Hd. unfold release_tuple, release_json, tuple_of, parsed_date.
  rewrite Hd. unfold getitem, contains.
  destruct (rel_credit r) as [name|]; simplify_map_eq; simpl;
    by destruct (try_parsing_date text).
Qed.


Lemma release_tuples_json rs :
  release_tuples (release_json <$> rs)
  = Ok (tuple_of <$> List.filter has_date_field rs).
Proof.
  induction rs as [|r rs IH]; [done|].
  cbn [fmap list_fmap release_tuples List.filter].
  rewrite contains_date. unfold has_date_field at 1. cbn [rbind].
  destruct (rel_date r) as [text|] eqn:Hd; [|done].
  rewrite (release_tuple_json r text Hd), IH. done.
Qed.

Lemma not_various_tuple r : not_various (tuple_of r) = negb (various r).
Proof.
  unfold not_various, tuple_of, various.
  by destruct (rel_credit r) as [[]|].
Qed.

Lemma has_date_tuple r :
  has_date (tuple_of r)
  = match parsed_date r with Some _ => true | None => false end.
Proof.
  unfold has_date, tuple_of, parsed_date. simpl.
  destruct (rel_date r) as [text|]; [|done]. simpl.
  destruct (try_parsing_date text) eqn:E; [|done].
  destruct (String.eqb_spec text "N/A") as [->|]; [|done].
  by vm_compute in E.
Qed.

(** The two filters keep exactly the surviving releases. *)
Lemma kept_tuples rs :
  List.filter has_date
    (List.filter not_various (tuple_of <$> List.filter has_date_field rs))
  = tuple_of <$> List.filter survives rs.
Proof.
  induction rs as [|r rs IH]; [done|]. unfold survives at 1.
  cbn [List.filter]. unfold has_date_field at 1, parsed_date at 1.
  destruct (rel_date r) as [text|] eqn:Hd; [|done].
  cbn [fmap list_fmap List.filter]. rewrite not_various_tuple.
  destruct (various r) eqn:Hv; cbn [negb].
  - by destruct (try_parsing_date text).
  - cbn [List.filter]. rewrite has_date_tuple. unfold parsed_date.
    rewrite Hd. destruct (try_parsing_date text); [|done].
    rewrite IH. reflexivity.
Qed.

Lemma key_of_tuple r :
  survives r = true ->
  try_parsing_date (tuple_of r).1.2 = parsed_date r.
Proof.
  unfold survives, tuple_of. simpl.
  destruct (parsed_date r) eqn:E; [|done]. intros _.
  unfold parsed_date in E. by destruct (rel_date r).
Qed.

End MusicBrainz.

(** ** Sorting by keys that compare *)

Section SortFacts.

Context {A K : Type}.
Variable less : K -> K -> result bool.
Variable good : K -> Prop.
Hypothesis Hord : orders less good.

Implicit Types (l s : list (A * K)).

Lemma insert_sorted_head x l :
  good x.2 -> Forall (fun y => good y.2) l ->
  exists r, insert_sorted less x l = Ok r /\ Forall (fun y => good y.2) r
    /\ head r = match head l with
                | Some y =>
                    match less y.2 x.2 with
                    | Ok true => Some y
                    | _ => Some x
                    end
                | None => Some x
                end.
Proof.
  intros Hx. induction 1 as [|y l Hy Hl IH].
  - exists [x]. split_and!; [done|by repeat constructor|done].
  - cbn [insert_sorted head].
    destruct (orders_ok _ _ Hord y.2 x.2 Hy Hx) as [t ->]. cbn [rbind].
    destruct t.
    + destruct IH as (r & -> & Hr & _). exists (y :: r).
      split_and!; [done|by constructor|done].
    + exists (x :: y :: l). split_and!; [done|by repeat constructor|done].
Qed.

Lemma sort_keyed_head l :
  Forall (fun y => good y.2) l ->
  exists s, sort_keyed less l = Ok s /\ Forall (fun y => good y.2) s
    /\ head s = earliest_by less snd l.
Proof.
  induction 1 as [|x l Hx Hl IH].
  - by exists [].
  - destruct IH as (s & Hs & Hk & Hh). cbn [sort_keyed]. rewrite Hs.
    cbn [rbind].
    destruct (insert_sorted_head x s Hx Hk) as (r & -> & Hr & Hhr).
    exists r. split_and!; [done..|].
    rewrite Hhr, Hh. cbn [earliest_by]. done.
Qed.

Lemma earliest_by_elem (key : A -> K) (l : list A) x :
  earliest_by less key l = Some x -> x ∈ l.
Proof.
  revert x. induction l as [|z l IH]; [done|]. intros x. simpl.
  destruct (earliest_by less key l) as [y|].
  - specialize (IH y eq_refl).
    destruct (less (key y) (key z)) as [[]|]; intros [= <-];
      first [by left | by right].
  - intros [= <-]. by left.
Qed.

Lemma earliest_by_ext (k1 k2 : A -> K) (l : list A) :
  (forall x, x ∈ l -> k1 x = k2 x) ->
  earliest_by less k1 l = earliest_by less k2 l.
Proof.
  induction l as [|z l IH]; [done|]. intros H. simpl.
  rewrite <-IH by (intros; apply H; by right).
  destruct (earliest_by less k1 l) as [y|] eqn:E; [|done].
  rewrite <-(H y), <-(H z); [done|by left|].
  right. by eapply earliest_by_elem.
Qed.

(** No element has a key less than that of the one [earliest_by] picks. *)
Lemma earliest_by_least (key : A -> K) (l : list A) x :
  (forall y, y ∈ l -> good (key y)) ->
  earliest_by less key l = Some x ->
  forall y, y ∈ l -> less (key y) (key x) = Ok false.
Proof.
  revert x. induction l as [|z l IH]; intros x Hk; [done|]. simpl.
  assert (forall y, y ∈ l -> good (key y)) as Hk'
    by (intros; apply Hk; by right).
  assert (good (key z)) as Hz by (apply Hk; by left).
  assert (less (key z) (key z) = Ok false) as Hrefl.
  { destruct (orders_ok _ _ Hord _ _ Hz Hz) as [[] E]; [|done].
    by rewrite (orders_asym _ _ Hord _ _ Hz Hz E) in E. }
  destruct (earliest_by less key l) as [m|] eqn:E.
  - specialize (IH m Hk' eq_refl).
    assert (good (key m)) as Hm by (by eapply Hk', earliest_by_elem).
    destruct (orders_ok _ _ Hord _ _ Hm Hz) as [t Hlt]. rewrite Hlt.
    destruct t.
    + intros [= <-] y [->|Hy]%elem_of_cons; [|by apply IH].
      by apply (orders_asym _ _ Hord).
    + intros [= <-] y [->|Hy]%elem_of_cons; [done|].
      eapply (orders_trans _ _ Hord _ (key m)); eauto.
  - destruct l as [|z' l].
    + intros [= <-] y ->%list_elem_of_singleton. done.
    + simpl in E. destruct (earliest_by less key l); [|done].
      by destruct (less _ _) as [[]|].
Qed.

End SortFacts.

Section SortHead.

Context {A K : Type}.
Variable less : K -> K -> result bool.
Variable good : K -> Prop.
Hypothesis Hord : orders less good.

Lemma earliest_by_fmap {B} (key : B -> K) (f : A -> B) (l : list A) :
  earliest_by less key (f <$> l)
  = f <$> earliest_by less (fun x => key (f x)) l.
Proof.
  induction l as [|x l IH]; [done|]. cbn [fmap list_fmap earliest_by].
  rewrite IH. destruct (earliest_by less _ l) as [y|]; [|done]. simpl.
  by destruct (less (key (f y)) (key (f x))) as [[]|].
Qed.

Lemma rmap_keys (key : A -> result K) (kf : A -> K) (l : list A) :
  (forall x, x ∈ l -> key x = Ok (kf x)) ->
  rmap (fun x => rbind (key x) (fun k => Ok (x, k))) l
  = Ok ((fun x => (x, kf x)) <$> l).
Proof.
  induction l as [|x l IH]; [done|]. intros H. simpl.
  rewrite (H x) by (by left). cbn [rbind].
  rewrite IH by (intros; apply H; by right). done.
Qed.

(** The head of the sorted list is the first element with the least
    key. *)
Lemma sort_head (key : A -> result K) (kf : A -> K) (l : list A) :
  (forall x, x ∈ l -> key x = Ok (kf x) /\ good (kf x)) ->
  exists s, sort less key l = Ok s /\ head s = earliest_by less kf l.
Proof.
  intros Hk. unfold sort.
  rewrite (rmap_keys key kf) by (intros; by apply Hk). cbn [rbind].
  destruct (sort_keyed_head less good Hord ((fun x => (x, kf x)) <$> l))
    as (s & -> & _ & Hh).
  { apply Forall_fmap, Forall_forall. intros x Hx. by apply Hk. }
  exists (s.*1). split; [done|].
  rewrite (earliest_by_fmap snd (fun x => (x, kf x))) in Hh. simpl in Hh.
  destruct s as [|[y ky] s]; simpl in *.
  - by destruct (earliest_by less kf l).
  - destruct (earliest_by less kf l); simpl in *; by simplify_eq.
Qed.

End SortHead.

(** ** The orders the program sorts by *)

Section Orders.

Lemma ltb_asym a b : Datetime.ltb a b = true -> Datetime.ltb b a = false.
Proof.
  destruct a as [y1 m1 d1], b as [y2 m2 d2]. unfold Datetime.ltb. simpl.
  destruct (Z.ltb_spec y1 y2), (Z.ltb_spec y2 y1), (Z.eqb_spec y1 y2),
    (Z.eqb_spec y2 y1), (Z.ltb_spec m1 m2), (Z.ltb_spec m2 m1),
    (Z.eqb_spec m1 m2), (Z.eqb_spec m2 m1), (Z.ltb_spec d1 d2),
    (Z.ltb_spec d2 d1); simpl; intros; try done; lia.
Qed.

Lemma ltb_not_later a b c :
  Datetime.ltb b a = false -> Datetime.ltb c b = false ->
  Datetime.ltb c a = false.
Proof.
  destruct a as [y1 m1 d1], b as [y2 m2 d2], c as [y3 m3 d3].
  unfold Datetime.ltb. simpl.
  destruct (Z.ltb_spec y2 y1), (Z.eqb_spec y2 y1), (Z.ltb_spec m2 m1),
    (Z.eqb_spec m2 m1), (Z.ltb_spec d2 d1); simpl; try done;
  destruct (Z.ltb_spec y3 y2), (Z.eqb_spec y3 y2), (Z.ltb_spec m3 m2),
    (Z.eqb_spec m3 m2), (Z.ltb_spec d3 d2); simpl; try done;
  destruct (Z.ltb_spec y3 y1), (Z.eqb_spec y3 y1), (Z.ltb_spec m3 m1),
    (Z.eqb_spec m3 m1), (Z.ltb_spec d3 d1); simpl; intros; try done; lia.
Qed.

Lemma key_lt_orders : orders key_lt is_Some.
Proof.
  split.
  - intros a b [x ->] [y ->]. by eexists.
  - intros a b [x ->] [y ->]. simpl. intros [= H].
    by rewrite (ltb_asym _ _ H).
  - intros a b c [x ->] [y ->] [z ->]. simpl. intros [= H1] [= H2].
    by rewrite (ltb_not_later _ _ _ H1 H2).
Qed.

Lemma lt_numbers : orders lt is_number.
Proof.
  split.
  - intros a b [x Hx] [y Hy]. unfold lt. rewrite Hx, Hy. by eexists.
  - intros a b [x Hx] [y Hy]. unfold lt. rewrite Hx, Hy.
    intros [= H]. f_equal. lia.
  - intros a b c [x Hx] [y Hy] [z Hz]. unfold lt. rewrite Hx, Hy, Hz.
    intros [= H1] [= H2]. f_equal. lia.
Qed.

Lemma ascii_compare_trans a b c :
  Ascii.compare a b <> Gt -> Ascii.compare b c <> Gt ->
  Ascii.compare a c <> Gt
  /\ (Ascii.compare a c = Eq ->
      Ascii.compare a b = Eq /\ Ascii.compare b c = Eq).
Proof.
  unfold Ascii.compare.
  destruct (N.compare_spec (N_of_ascii a) (N_of_ascii b)),
    (N.compare_spec (N_of_ascii b) (N_of_ascii c)),
    (N.compare_spec (N_of_ascii a) (N_of_ascii c));
    intros; split; intros; try done; lia.
Qed.

Lemma string_compare_trans s t u :
  String.compare s t <> Gt -> String.compare t u <> Gt ->
  String.compare s u <> Gt.
Proof.
  revert t u. induction s as [|a s IH]; intros [|b t] [|c u]; simpl;
    try done.
  destruct (Ascii.compare a b) eqn:Eab; [| |done];
    destruct (Ascii.compare b c) eqn:Ebc; try done; intros H1 H2;
    destruct (ascii_compare_trans a b c) as [Hac Heq];
    rewrite ?Eab, ?Ebc; try done;
    destruct (Ascii.compare a c) eqn:Eac; try done;
    destruct Heq as [? ?]; try done; try congruence.
  by eapply IH.
Qed.

Lemma lt_texts : orders lt is_text.
Proof.
  split.
  - intros a b [s ->] [t ->]. by eexists.
  - intros a b [s ->] [t ->]. unfold lt, String.ltb. simpl.
    rewrite (String.compare_antisym s t).
    by destruct (String.compare t s).
  - intros a b c [s ->] [t ->] [u ->]. unfold lt, String.ltb. simpl.
    intros [= H1] [= H2]. f_equal.
    rewrite (String.compare_antisym t s) in H1.
    rewrite (String.compare_antisym u t) in H2.
    rewrite (String.compare_antisym u s).
    pose proof (string_compare_trans s t u) as H.
    destruct (String.compare s t), (String.compare t u); simpl in *;
      try done; destruct (String.compare s u); simpl; try done;
      exfalso; by apply H.
Qed.

End Orders.

Section MusicBrainzStage.

Variable w : world.

Lemma survivors_keyed rs x :
  x ∈ tuple_of <$> List.filter survives rs ->
  is_Some (try_parsing_date x.1.2).
Proof.
  intros (r & -> & Hr)%list_elem_of_fmap.
  apply list_elem_of_In, filter_In in Hr as [_ Hs].
  rewrite key_of_tuple by done. unfold survives in Hs.
  by destruct (parsed_date r).
Qed.

(** The pure part of the stage, on the releases of the first
    recording. *)
Lemma releases_earliest rs :
  (let? releases := release_tuples (release_json <$> rs) in
   let releases := List.filter not_various releases in
   let releases := List.filter has_date releases in
   let? releases :=
     sort key_lt (fun x => Ok (try_parsing_date (snd (fst x)))) releases in
   match releases with
   | release :: _ => Ok (snd (fst release))
   | [] => Ok "N/A"
   end) = Ok (earliest_release_date rs).
Proof.
  rewrite release_tuples_json. cbn [rbind]. rewrite kept_tuples.
  destruct (sort_head key_lt is_Some key_lt_orders
              (fun x : value * string * value =>
                 Ok (try_parsing_date x.1.2))
              (fun x => try_parsing_date x.1.2)
              (tuple_of <$> List.filter survives rs))
    as (s & -> & Hh); [intros x Hx; split; [done|by eapply survivors_keyed]|].
  cbn [rbind]. unfold earliest_release_date.
  rewrite earliest_by_fmap in Hh.
  rewrite (earliest_by_ext _ _ parsed_date) in Hh.
  2:{ intros r Hr. apply key_of_tuple.
      by apply list_elem_of_In, filter_In in Hr as [_ ?]. }
  destruct (earliest_by key_lt parsed_date (List.filter survives rs))
    as [r|] eqn:E.
  - destruct s as [|t s]; [done|]. simpl in Hh. simplify_eq.
    apply earliest_by_elem, list_elem_of_In, filter_In in E as [_ Hs].
    unfold tuple_of. simpl. unfold survives in Hs.
    by destruct (parsed_date r).
  - by destruct s.
Qed.

Lemma musicbrainz_releases rs first_rest rest more artist title st :
  musicbrainz_search w (log st) artist (clean_song_title title)
  = Response 200 (Some (recordings_json rs first_rest rest more)) ->
  get_release_year_musicbrainz w artist (VStr title) st
  = (Ok (earliest_release_date rs),
     {| data := data st;
        log := log st ++ [MusicBrainzSearch artist (clean_song_title title)] |}).
Proof.
  intros Hw. unfold get_release_year_musicbrainz, bind, lift, record.
  rewrite Hw. cbn [is_error_status Z.leb Z.ltb Z.compare andb Z.eqb
                   Pos.compare Pos.compare_cont Pos.eqb].
  unfold recordings_json. cbn [getitem]. rewrite lookup_insert_eq.
  cbn [truthy negb getitem0 getitem rbind]. rewrite lookup_insert_eq.
  cbn [rbind iter]. by rewrite releases_earliest.
Qed.

End MusicBrainzStage.

(** ** The Discogs stage *)

Section DiscogsStage.

Variable w : world.
Variable good : value -> Prop.
Hypothesis Hord : orders lt good.

Lemma rfilter_year cs :
  rfilter (contains "year") (VDict <$> cs)
  = Ok (VDict <$> List.filter has_year cs).
Proof.
  induction cs as [|c cs IH]; [done|].
  cbn [fmap list_fmap rfilter contains rbind List.filter].
  rewrite IH. cbn [rbind]. unfold has_year, year_of.
  by destruct (c !! "year").
Qed.

Lemma year_key_spec cs x :
  Forall good (years_of cs) ->
  x ∈ VDict <$> List.filter has_year cs ->
  getitem x "year" = Ok (year_key x) /\ good (year_key x)
  /\ year_key x ∈ years_of cs.
Proof.
  intros Hg (c & -> & Hc)%list_elem_of_fmap.
  apply list_elem_of_In, filter_In in Hc as [Hc%list_elem_of_In Hy].
  unfold has_year in Hy. unfold getitem, year_key.
  destruct (year_of c) as [y|] eqn:E; [|done]. unfold year_of in E.
  rewrite E. simpl.
  assert (y ∈ years_of cs) as Hin.
  { unfold years_of. apply list_elem_of_omap. by exists c. }
  split_and!; [done| |done]. rewrite Forall_forall in Hg. by apply Hg.
Qed.

(** The stage returns the first least year and makes no call. *)
Lemma discogs_earliest cs rest artist title item st :
  Forall good (years_of cs) -> years_of cs <> [] ->
  exists y,
    extract_year_from_discogs_data w (results_json cs rest) artist title
      item st = (Ok y, st)
    /\ y ∈ years_of cs
    /\ forall y', y' ∈ years_of cs -> lt y' y = Ok false.
Proof.
  intros Hg Hne. unfold extract_year_from_discogs_data, results_json.
  unfold bind, lift. cbn [contains getitem]. rewrite lookup_insert_eq.
  cbn [rbind iter]. rewrite rfilter_year. cbn [rbind].
  destruct (sort_head lt good Hord (fun x => getitem x "year") year_key
              (VDict <$> List.filter has_year cs))
    as (s & -> & Hh).
  { intros x Hx. destruct (year_key_spec cs x Hg Hx) as (? & ? & _). done. }
  assert (exists c, c ∈ List.filter has_year cs) as [c0 Hc0].
  { destruct (years_of cs) as [|y ys] eqn:E; [done|].
    assert (y ∈ years_of cs) as Hy by (rewrite E; by left).
    unfold years_of in Hy. apply list_elem_of_omap in Hy as (c & Hc & Hyc).
    exists c. apply list_elem_of_In, filter_In. rewrite <-list_elem_of_In.
    split; [done|]. unfold has_year. by rewrite Hyc. }
  destruct (earliest_by lt year_key (VDict <$> List.filter has_year cs))
    as [first|] eqn:E.
  2:{ destruct (List.filter has_year cs) as [|c l]; [by inv Hc0|].
      simpl in E. repeat case_match; done. }
  destruct s as [|x s]; [done|]. simpl in Hh. simplify_eq.
  pose proof (earliest_by_elem _ _ _ _ E) as Hfirst.
  destruct (year_key_spec cs first Hg Hfirst) as (Hget & _ & Hin).
  exists (year_key first). rewrite Hget. split_and!; [done..|].
  intros y' Hy'. unfold years_of in Hy'.
  apply list_elem_of_omap in Hy' as (c & Hc & Hyc).
  assert (VDict c ∈ VDict <$> List.filter has_year cs) as Hx.
  { apply list_elem_of_fmap. exists c. split; [done|].
    apply list_elem_of_In, filter_In. rewrite <-list_elem_of_In.
    split; [done|]. unfold has_year. by rewrite Hyc. }
  replace y' with (year_key (VDict c)) by (simpl; by rewrite Hyc).
  eapply (earliest_by_least lt good Hord); [|exact E|exact Hx].
  intros x Hx'. by destruct (year_key_spec cs x Hg Hx') as (_ & ? & _).
Qed.

End DiscogsStage.

Section NoYear.

Variable w : world.

Lemma has_year_none cs : years_of cs = [] -> List.filter has_year cs = [].
Proof.
  induction cs as [|c cs IH]; [done|]. unfold years_of. simpl.
  unfold has_year. destruct (year_of c); [done|]. apply IH.
Qed.

(** With ["results"] in the Discogs answer and no year in them, the
    answer of MusicBrainz is final: with MusicBrainz unreachable the
    resolver returns ["N/A"] after that one call. *)
Lemma results_without_year cs rest artist title item st :
  years_of cs = [] ->
  musicbrainz_search w (log st) artist (clean_song_title title)
  = RequestFailed ->
  extract_year_from_discogs_data w (results_json cs rest) artist
    (VStr title) item st
  = (Ok (VStr "N/A"),
     {| data := data st;
        log := log st
               ++ [MusicBrainzSearch artist (clean_song_title title)] |}).
Proof.
  intros Hy Hmb. unfold extract_year_from_discogs_data, results_json.
  unfold bind at 1. unfold lift at 1. cbn [contains].
  rewrite lookup_insert_eq.
  unfold bind at 1. unfold lift at 1. cbn [getitem].
  rewrite lookup_insert_eq. cbn [rbind iter]. rewrite rfilter_year.
  rewrite (has_year_none cs Hy). cbn.
  unfold bind, lift, record. cbn. rewrite Hmb. done.
Qed.

(** Without ["results"] in the Discogs answer and with MusicBrainz
    unreachable, an item without ["album"] makes the resolver raise. *)
Lemma item_without_album (discogs item : gmap string value) artist title st :
  discogs !! "results" = None -> item !! "album" = None ->
  musicbrainz_search w (log st) artist (clean_song_title title)
  = RequestFailed ->
  extract_year_from_discogs_data w (VDict discogs) artist (VStr title)
    (VDict item) st
  = (Raise KeyError,
     {| data := data st;
        log := log st
               ++ [MusicBrainzSearch artist (clean_song_title title)] |}).
Proof.
  intros Hd Hi Hmb. unfold extract_year_from_discogs_data.
  unfold bind at 1. unfold lift at 1. cbn [contains]. rewrite Hd.
  unfold get_release_year_musicbrainz, bind, lift, record. cbn.
  rewrite Hmb. cbn. by rewrite Hi.
Qed.

End NoYear.

(** ** Further facts about the stages *)

Section StageCalls.

Variable w : world.

Lemma musicbrainz_state artist title st :
  (get_release_year_musicbrainz w artist (VStr title) st).2
  = {| data := data st;
       log := log st ++ [MusicBrainzSearch artist (clean_song_title title)] |}.
Proof.
  unfold get_release_year_musicbrainz, bind, lift, record, ret, raise.
  simpl. repeat case_match; simplify_eq; done.
Qed.


End StageCalls.

(** ** Release objects with any further fields *)

Section ReleaseObjects.

Lemma contains_date_reads v r :
  reads_as v r -> contains "date" v = Ok (has_date_field r).
Proof.
  intros (d & -> & H). unfold has_date_field. simpl.
  destruct (rel_date r); [destruct H as (-> & _)|rewrite H]; done.
Qed.

Lemma release_tuple_reads v r text :
  reads_as v r -> rel_date r = Some text ->
  release_tuple v = Ok (tuple_of r).
Proof.
  intros (d & -> & H) Hd. rewrite Hd in H. destruct H as (H1 & H2 & H3).
  unfold release_tuple, tuple_of, parsed_date. rewrite Hd.
  cbn [getitem contains]. rewrite H1, H2. cbn [rbind default].
  unfold credit_reads_as in H3.
  destruct (rel_credit r) as [name|].
  - destruct H3 as (first & others & artist & -> & Hf & Ha).
    cbn [rbind truthy andb getitem0 getitem default]. rewrite Hf.
    cbn [rbind getitem]. rewrite Ha. cbn [rbind].
    by destruct (try_parsing_date text).
  - destruct (d !! "artist-credit") as [credits|]; cbn [rbind andb].
    + rewrite H3. cbn [rbind default]. by destruct (try_parsing_date text).
    + cbn [rbind default]. by destruct (try_parsing_date text).
Qed.

Lemma release_tuples_reads vs rs :
  Forall2 reads_as vs rs ->
  release_tuples vs = Ok (tuple_of <$> List.filter has_date_field rs).
Proof.
  induction 1 as [|v r vs rs Hv _ IH]; [done|].
  cbn [release_tuples List.filter]. rewrite (contains_date_reads v r Hv).
  cbn [rbind]. unfold has_date_field at 1 2.
  destruct (rel_date r) as [text|] eqn:Hd; [|done].
  rewrite (release_tuple_reads v r text Hv Hd), IH. done.
Qed.

End ReleaseObjects.

(** ** The earliest element, by position *)

Section EarliestSplit.

Context {A K : Type}.
Variable less : K -> K -> result bool.
Variable good : K -> Prop.
Hypothesis Hord : orders less good.

Lemma earliest_by_none (key : A -> K) (l : list A) :
  earliest_by less key l = None -> l = [].
Proof.
  destruct l as [|x l]; [done|]. simpl.
  destruct (earliest_by less key l); [|done].
  by destruct (less _ _) as [[]|].
Qed.

(** The element [earliest_by] picks beats every element before it and
    is beaten by none after it. *)
Lemma earliest_by_split (key : A -> K) (l : list A) x :
  (forall y, y ∈ l -> good (key y)) ->
  earliest_by less key l = Some x ->
  exists l1 l2,
    l = l1 ++ x :: l2
    /\ (forall y, y ∈ l1 -> less (key x) (key y) = Ok true)
    /\ (forall y, y ∈ l2 -> less (key y) (key x) = Ok false).
Proof.
  revert x. induction l as [|z l IH]; intros x Hk; [done|]. simpl.
  assert (forall y, y ∈ l -> good (key y)) as Hk'
    by (intros; apply Hk; by right).
  assert (good (key z)) as Hz by (apply Hk; by left).
  destruct (earliest_by less key l) as [m|] eqn:E.
  - destruct (IH m Hk' eq_refl) as (l1 & l2 & -> & H1 & H2).
    assert (good (key m)) as Hm by (by eapply Hk', earliest_by_elem).
    destruct (orders_ok _ _ Hord _ _ Hm Hz) as [t Hlt]. rewrite Hlt.
    destruct t; intros [= <-].
    + exists (z :: l1), l2. split_and!; [done| |done].
      intros y [->|Hy]%elem_of_cons; [done|by apply H1].
    + exists [], (l1 ++ m :: l2). split_and!; [done|by intros y []%elem_of_nil|].
      intros y Hy.
      apply (orders_trans _ _ Hord (key z) (key m) (key y) Hz Hm
               (Hk' y Hy) Hlt).
      exact (earliest_by_least less good Hord key _ m Hk' E y Hy).
  - apply earliest_by_none in E as ->. intros [= <-].
    exists [], []. split_and!; [done|by intros y []%elem_of_nil..].
Qed.

End EarliestSplit.

(** ** The order of the dates *)

Section Chronology.

Lemma ltb_date_number a b :
  valid_date (year a) (month a) (day a) = true ->
  valid_date (year b) (month b) (day b) = true ->
  Datetime.ltb a b = (date_number a <? date_number b)%Z.
Proof.
  intros (_ & Hma & Hda)%valid_date_bounds (_ & Hmb & Hdb)%valid_date_bounds.
  unfold Datetime.ltb, date_number.
  destruct (Z.ltb_spec (year a) (year b)), (Z.eqb_spec (year a) (year b)),
    (Z.ltb_spec (month a) (month b)), (Z.eqb_spec (month a) (month b)),
    (Z.ltb_spec (day a) (day b)); simpl;
    destruct (Z.ltb_spec (10000 * year a + 100 * month a + day a)
                (10000 * year b + 100 * month b + day b)); lia.
Qed.

Lemma parsed_date_valid r d :
  parsed_date r = Some d -> valid_date (year d) (month d) (day d) = true.
Proof.
  unfold parsed_date. destruct (rel_date r) as [text|]; [|done].
  intros (f & _ & H)%first_parse_inv.
  by apply strptime_inv in H as (_ & _ & ? & _).
Qed.

Lemma survivor_parsed rs r :
  r ∈ survivors rs -> survives r = true /\ is_Some (parsed_date r).
Proof.
  intros [_ H]%list_elem_of_In%filter_In. split; [done|].
  unfold survives in H. by destruct (parsed_date r).
Qed.

(** What [earliest_release_date] computes with the comparison of the
    program is the date of the earliest survivor in the calendar. *)
Lemma earliest_release_date_chronological rs :
  (survivors rs = [] /\ earliest_release_date rs = "N/A")
  \/ exists r date,
       earliest_survivor rs r /\ rel_date r = Some date
       /\ earliest_release_date rs = date.
Proof.
  unfold earliest_release_date. fold (survivors rs).
  destruct (earliest_by key_lt parsed_date (survivors rs)) as [r|] eqn:E.
  - right.
    pose proof (earliest_by_elem _ _ _ _ E) as Hr.
    destruct (survivor_parsed rs r Hr) as [Hs [d Hd]].
    assert (exists date, rel_date r = Some date) as [date Hdate].
    { unfold parsed_date in Hd. destruct (rel_date r); [by eexists|done]. }
    exists r, date. rewrite Hdate. split_and!; [|done..].
    destruct (earliest_by_split key_lt is_Some key_lt_orders parsed_date
                (survivors rs) r) as (l1 & l2 & Hl & H1 & H2); [|done|].
    { intros y Hy. by apply survivor_parsed in Hy as [_ ?]. }
    exists l1, l2, d. split_and!; [done..| |].
    + intros r' d' Hin Hd'. specialize (H1 r' Hin).
      rewrite Hd, Hd' in H1. simpl in H1. injection H1 as H1.
      rewrite ltb_date_number in H1 by (by eapply parsed_date_valid).
      by apply Z.ltb_lt in H1.
    + intros r' d' Hin Hd'. specialize (H2 r' Hin).
      rewrite Hd, Hd' in H2. simpl in H2. injection H2 as H2.
      rewrite ltb_date_number in H2 by (by eapply parsed_date_valid).
      by apply Z.ltb_ge in H2.
  - left. split; [|done]. by eapply earliest_by_none.
Qed.

(** There is one earliest survivor. *)
Lemma earliest_survivor_unique rs r r' :
  earliest_survivor rs r -> earliest_survivor rs r' -> r = r'.
Proof.
  intros (l1 & l2 & d & Hl & Hd & H1 & H2)
         (l1' & l2' & d' & Hl' & Hd' & H1' & H2').
  rewrite Hl in Hl'. clear Hl. revert l1' Hl' H1' H1.
  induction l1 as [|x l1 IH]; intros [|x' l1'] Hl' H1' H1; simpl in Hl'.
  - by injection Hl'.
  - injection Hl' as Hx Hl2. subst x' l2.
    assert (r' ∈ l1' ++ r' :: l2') as Hin
      by (apply elem_of_app; right; by left).
    pose proof (H2 r' d' Hin Hd').
    pose proof (H1' r d (list_elem_of_here _ _) Hd). lia.
  - injection Hl' as Hx Hl2. subst x l2'.
    assert (r ∈ l1 ++ r :: l2) as Hin
      by (apply elem_of_app; right; by left).
    pose proof (H2' r d Hin Hd).
    pose proof (H1 r' d' (list_elem_of_here _ _) Hd'). lia.
  - injection Hl' as Hx Hl2. subst x'.
    apply (IH l1' Hl2).
    + intros r0 d0 Hin. apply H1'. by right.
    + intros r0 d0 Hin. apply H1. by right.
Qed.

End Chronology.

(** ** The stage and the resolver on any answer of MusicBrainz *)

Section AnyAnswer.

Variable w : world.

Lemma releases_earliest_reads vs rs :
  Forall2 reads_as vs rs ->
  (let? releases := release_tuples vs in
   let releases := List.filter not_various releases in
   let releases := List.filter has_date releases in
   let? releases :=
     sort key_lt (fun x => Ok (try_parsing_date (snd (fst x)))) releases in
   match releases with
   | release :: _ => Ok (snd (fst release))
   | [] => Ok "N/A"
   end) = Ok (earliest_release_date rs).
Proof.
  intros Hvs. rewrite <- (releases_earliest rs).
  by rewrite (release_tuples_reads vs rs Hvs), release_tuples_json.
Qed.

Lemma musicbrainz_document vs rs first_rest rest more artist title st :
  Forall2 reads_as vs rs ->
  musicbrainz_search w (log st) artist (clean_song_title title)
  = Response 200 (Some (recordings_document vs first_rest rest more)) ->
  get_release_year_musicbrainz w artist (VStr title) st
  = (Ok (earliest_release_date rs),
     {| data := data st;
        log := log st ++ [MusicBrainzSearch artist (clean_song_title title)] |}).
Proof.
  intros Hvs Hw. unfold get_release_year_musicbrainz, bind, lift, record.
  rewrite Hw. cbn [is_error_status Z.leb Z.ltb Z.compare andb Z.eqb
                   Pos.compare Pos.compare_cont Pos.eqb].
  unfold recordings_document. cbn [getitem]. rewrite lookup_insert_eq.
  cbn [truthy negb getitem0 getitem rbind]. rewrite lookup_insert_eq.
  unfold rbind at 1. cbn [iter]. unfold rbind at 1.
  f_equal. exact (releases_earliest_reads vs rs Hvs).
Qed.

Lemma survivor_date_is_no_sentinel rs r date :
  earliest_survivor rs r -> rel_date r = Some date -> date <> "N/A".
Proof.
  intros (l1 & l2 & d & _ & Hd & _) Hdate ->.
  unfold parsed_date in Hd. rewrite Hdate in Hd. by vm_compute in Hd.
Qed.

(** Without a year from Discogs, the year is the text before the first
    hyphen of what the MusicBrainz stage returns, unless that is the
    sentinel. *)
Lemma resolver_takes_musicbrainz discogs_data artist title item st date st' :
  without_year discogs_data ->
  get_release_year_musicbrainz w artist (VStr title) st = (Ok date, st') ->
  date <> "N/A" ->
  extract_year_from_discogs_data w discogs_data artist (VStr title) item st
  = (Ok (VStr (split_first date)), st').
Proof.
  intros (d & -> & Hd) Hmb Hdate.
  apply String.eqb_neq in Hdate.
  unfold extract_year_from_discogs_data.
  unfold bind at 1. unfold lift at 1. cbn [contains].
  destruct Hd as [Hd|(cs & Hd & Hcs)]; rewrite Hd.
  - unfold bind at 1. rewrite Hmb, Hdate. done.
  - unfold bind at 1. unfold lift at 1. cbn [getitem rbind]. rewrite Hd.
    cbn [rbind iter]. rewrite rfilter_year, (has_year_none cs Hcs). cbn.
    unfold bind at 1. rewrite Hmb, Hdate. done.
Qed.

End AnyAnswer.

(** * The properties of the specification *)

Import Examples.
Import Samples.

Section Enrichment.

Variable w : world.

Lemma add_track_to_data_enrich item spotify_type info :
  extract_track_info item spotify_type = Some info ->
  add_track_to_data w item spotify_type
  = enrich w info (first_artist info) item.
Proof. intros H. unfold add_track_to_data. by rewrite H. Qed.




End Enrichment.

(** C1 (the claim holds of the design, the code breaks it): the resolver
    is documented to return the year or ["N/A"], yet exceptions leave it.
    With a Discogs document that has no ["results"] and MusicBrainz
    unreachable, the playlist item (wrapped under ["track"]) makes
    [item["album"]] raise [KeyError]; on a bare track object an exception
    of [spotify.album] leaves the resolver as well; and through
    [add_track_to_data] the [KeyError] leaves the per-track operation.
    The [KeyError] is raised for every item without ["album"]. *)
Theorem resolver_lets_exceptions_escape :
  extract_year_from_discogs_data spotify_only no_results_key
    (VStr "Artist") (VStr song) playlist_item initial_state
  = (Raise KeyError,
     {| data := empty_store;
        log := [MusicBrainzSearch (VStr "Artist") "Song Title"] |})
  /\ extract_year_from_discogs_data offline no_results_key
       (VStr "Artist") (VStr song) track initial_state
     = (Raise SpotifyException,
        {| data := empty_store;
           log := [MusicBrainzSearch (VStr "Artist") "Song Title";
                   SpotifyAlbum (VStr "a1")] |})
  /\ add_track_to_data discogs_empty_document playlist_item Playlist
       initial_state
     = (Raise KeyError,
        {| data := empty_store;
           log := [DiscogsSearch (VStr "Artist") (VStr song);
                   MusicBrainzSearch (VStr "Artist") "Song Title"] |})
  /\ (forall w (discogs item : gmap string value) artist title st,
        discogs !! "results" = None -> item !! "album" = None ->
        musicbrainz_search w (log st) artist (clean_song_title title)
        = RequestFailed ->
        extract_year_from_discogs_data w (VDict discogs) artist (VStr title)
          (VDict item) st
        = (Raise KeyError,
           {| data := data st;
              log := log st ++ [MusicBrainzSearch artist
                                  (clean_song_title title)] |})).
Proof.
  split_and!; [vm_compute; reflexivity..|]. apply item_without_album.
Qed.

Lemma resolver_lets_exceptions_escape_witness :
  extract_year_from_discogs_data spotify_only (VDict ∅) (VStr "Artist")
    (VStr song) (VDict {[ "track" := track ]}) initial_state
  = (Raise KeyError,
     {| data := empty_store;
        log := [] ++ [MusicBrainzSearch (VStr "Artist")
                        (clean_song_title song)] |}).
Proof.
  refine (proj2 (proj2 (proj2 resolver_lets_exceptions_escape)) spotify_only
            ∅ {[ "track" := track ]} (VStr "Artist") song initial_state
            _ _ _).
  - reflexivity.
  - vm_compute. reflexivity.
  - reflexivity.
Defined.

(** C2, as stated, fails: with Discogs unreachable the track is dropped,
    although MusicBrainz and Spotify both know a date; no later source is
    asked and no row is written. *)
Lemma discogs_failure_example :
  extract_track_info playlist_item Playlist <> None
  /\ add_track_to_data discogs_down playlist_item Playlist initial_state
     = (Ok tt,
        {| data := empty_store;
           log := [DiscogsSearch (VStr "Artist") (VStr song)] |}).
Proof. split; [vm_compute; discriminate|vm_compute; reflexivity]. Qed.

(** C2 (amended): a failed Discogs request does not raise: the per-track
    operation returns normally, but it drops the track.  The store is
    left as it was and the Discogs search is the only call made: neither
    MusicBrainz nor Spotify is asked. *)
Theorem discogs_failure_drops_track w item spotify_type info st :
  extract_track_info item spotify_type = Some info ->
  fetch_failed
    (discogs_search w (log st) (first_artist info) (ti_name info)) ->
  add_track_to_data w item spotify_type st
  = (Ok tt,
     {| data := data st;
        log := log st ++ [DiscogsSearch (first_artist info) (ti_name info)] |}).
Proof.
  intros Hinfo Hfail. rewrite (add_track_to_data_enrich w _ _ _ Hinfo).
  unfold enrich, fetch_discogs_data, bind, record, fetch_failed in *.
  destruct (discogs_search w (log st) (first_artist info) (ti_name info))
    as [|status json]; [done|].
  by rewrite Hfail.
Qed.

Lemma discogs_failure_drops_track_witness :
  add_track_to_data discogs_down playlist_item Playlist initial_state
  = (Ok tt,
     {| data := empty_store;
        log := [] ++ [DiscogsSearch (VStr "Artist") (VStr song)] |}).
Proof.
  refine (discogs_failure_drops_track discogs_down playlist_item Playlist
            {| ti_id := VStr "t1"; ti_name := VStr song;
               ti_artists := [VStr "Artist"]; ti_album := VStr "Album";
               ti_url := song_url |} initial_state _ _).
  - vm_compute. reflexivity.
  - vm_compute. exact I.
Defined.

(** C3 (the claim holds of the design, the code breaks it): the
    docstring of the resolver promises the Spotify album date when
    Discogs and MusicBrainz give no year, and the branch without
    ["results"] does ask Spotify; the branch with ["results"] and no year
    returns ["N/A"] without asking, here although Spotify knows 1999.
    So it is for every Discogs answer with results that carry no year,
    whenever MusicBrainz is unreachable. *)
Theorem resolver_skips_spotify_after_results :
  extract_year_from_discogs_data spotify_only (results_of [])
    (VStr "Artist") (VStr song) track initial_state
  = (Ok (VStr "N/A"),
     {| data := empty_store;
        log := [MusicBrainzSearch (VStr "Artist") "Song Title"] |})
  /\ extract_year_from_discogs_data spotify_only no_results_key
       (VStr "Artist") (VStr song) track initial_state
     = (Ok (VStr "1999"),
        {| data := empty_store;
           log := [MusicBrainzSearch (VStr "Artist") "Song Title";
                   SpotifyAlbum (VStr "a1")] |})
  /\ (forall w candidates rest artist title item st,
        years_of candidates = [] ->
        musicbrainz_search w (log st) artist (clean_song_title title)
        = RequestFailed ->
        extract_year_from_discogs_data w (results_json candidates rest)
          artist (VStr title) item st
        = (Ok (VStr "N/A"),
           {| data := data st;
              log := log st ++ [MusicBrainzSearch artist
                                  (clean_song_title title)] |})).
Proof.
  split_and!; [vm_compute; reflexivity..|]. apply results_without_year.
Qed.

Lemma resolver_skips_spotify_after_results_witness :
  extract_year_from_discogs_data spotify_only
    (results_json [ {[ "title" := VStr "Song Title" ]} ] ∅)
    (VStr "Artist") (VStr song) track initial_state
  = (Ok (VStr "N/A"),
     {| data := empty_store;
        log := [] ++ [MusicBrainzSearch (VStr "Artist")
                        (clean_song_title song)] |}).
Proof.
  refine (proj2 (proj2 resolver_skips_spotify_after_results) spotify_only
            [ {[ "title" := VStr "Song Title" ]} ] ∅ (VStr "Artist") song
            track initial_state _ _).
  - vm_compute. reflexivity.
  - reflexivity.
Defined.




(** C5: from the Discogs candidates with the years 2001, 1998 and 2010
    the resolver returns 1998, the first after the ascending sort,
    whatever the artist, title, item and state, and makes no call: the
    state, with its log, is as before.  The value returned is the
    candidate's own: the string ["1998"] for years that are strings, as
    Discogs sends them, and the number for years that are numbers.  In
    general, when the years the candidates carry are all numbers or all
    strings and there is at least one, the resolver returns one of them
    than which none is less, and makes no call. *)
Theorem earliest_discogs_year_wins :
  (forall w artist title item st,
     extract_year_from_discogs_data w three_years artist title item st
     = (Ok (VStr "1998"), st)
     /\ extract_year_from_discogs_data w three_numbers artist title item st
        = (Ok (VInt 1998), st))
  /\ (forall w candidates rest artist title item st,
        Forall is_number (years_of candidates)
        \/ Forall is_text (years_of candidates) ->
        years_of candidates <> [] ->
        exists y,
          extract_year_from_discogs_data w (results_json candidates rest)
            artist title item st = (Ok y, st)
          /\ y ∈ years_of candidates
          /\ forall y', y' ∈ years_of candidates -> lt y' y = Ok false).
Proof.
  split.
  - intros. split; vm_compute; reflexivity.
  - intros w candidates rest artist title item st [Hg|Hg] Hne.
    + by apply (discogs_earliest w is_number lt_numbers).
    + by apply (discogs_earliest w is_text lt_texts).
Qed.

Lemma earliest_discogs_year_wins_witness :
  exists y,
    extract_year_from_discogs_data offline (results_json three_candidates ∅)
      (VStr "Artist") (VStr song) track initial_state
    = (Ok y, initial_state)
    /\ y ∈ years_of three_candidates
    /\ forall y', y' ∈ years_of three_candidates -> lt y' y = Ok false.
Proof.
  refine (proj2 earliest_discogs_year_wins offline three_candidates ∅
            (VStr "Artist") (VStr song) track initial_state _ _).
  - right. vm_compute. repeat constructor; by eexists.
  - vm_compute. discriminate.
Defined.

Lemma various_spec r :
  various r = true <-> rel_credit r = Some (VStr "Various Artists").
Proof.
  unfold various. destruct (rel_credit r) as [[| | |name| |]|]; try done.
  destruct (String.eqb_spec name "Various Artists"); split; congruence.
Qed.

Lemma survives_spec r :
  survives r = true <->
  exists text d, rel_date r = Some text /\ try_parsing_date text = Some d
                 /\ rel_credit r <> Some (VStr "Various Artists").
Proof.
  unfold survives, parsed_date. split.
  - destruct (rel_date r) as [text|]; [|done].
    destruct (try_parsing_date text) as [d|] eqn:E; [|done].
    intros Hv. exists text, d. split_and!; [done..|].
    intros Hc%various_spec. by rewrite Hc in Hv.
  - intros (text & d & -> & -> & Hv).
    destruct (various r) eqn:Hc; [|done]. by apply various_spec in Hc.
Qed.

(** C6: the MusicBrainz stage reads the releases of the first recording
    only; of those it keeps the ones that have a date field the date
    parser accepts and that are not credited to "Various Artists", and it
    returns the date of the earliest of them in the calendar (of several
    with that date, the first listed), or ["N/A"] when none is kept.  The
    release objects may hold any further fields, as those of MusicBrainz
    do.  When Discogs gives no year (no results, or results without a
    year), the resolver returns the text before the first hyphen of that
    date.  With the releases dated 2005-03-01 and 1999-06-01, the second
    credited to "Various Artists", it returns ["2005"]; with the
    releases of [unsorted_releases], where the earliest date is not the
    first, the stage returns ["1999-07"] and the resolver ["1999"]. *)
Theorem musicbrainz_stage_earliest :
  (forall w releases rs first_rest rest more artist title st,
     Forall2 reads_as releases rs ->
     musicbrainz_search w (log st) artist (clean_song_title title)
     = Response 200
         (Some (recordings_document releases first_rest rest more)) ->
     exists date,
       get_release_year_musicbrainz w artist (VStr title) st
       = (Ok date,
          {| data := data st;
             log := log st
                    ++ [MusicBrainzSearch artist (clean_song_title title)] |})
       /\ ((survivors rs = [] /\ date = "N/A")
           \/ exists r, earliest_survivor rs r /\ rel_date r = Some date))
  /\ (forall r,
        survives r = true <->
        exists text d, rel_date r = Some text
                       /\ try_parsing_date text = Some d
                       /\ rel_credit r <> Some (VStr "Various Artists"))
  /\ (forall w discogs_data releases rs first_rest rest more artist title
             item st r date,
        without_year discogs_data ->
        Forall2 reads_as releases rs ->
        musicbrainz_search w (log st) artist (clean_song_title title)
        = Response 200
            (Some (recordings_document releases first_rest rest more)) ->
        earliest_survivor rs r -> rel_date r = Some date ->
        extract_year_from_discogs_data w discogs_data artist (VStr title)
          item st
        = (Ok (VStr (split_first date)),
           {| data := data st;
              log := log st
                     ++ [MusicBrainzSearch artist (clean_song_title title)] |}))
  /\ (forall w discogs_data first second r1 r2 first_rest rest more artist
             title item st,
        without_year discogs_data ->
        reads_as first r1 -> reads_as second r2 ->
        rel_date r1 = Some "2005-03-01" ->
        rel_credit r1 <> Some (VStr "Various Artists") ->
        rel_date r2 = Some "1999-06-01" ->
        rel_credit r2 = Some (VStr "Various Artists") ->
        musicbrainz_search w (log st) artist (clean_song_title title)
        = Response 200
            (Some (recordings_document [first; second] first_rest rest
                     more)) ->
        extract_year_from_discogs_data w discogs_data artist (VStr title)
          item st
        = (Ok (VStr "2005"),
           {| data := data st;
              log := log st
                     ++ [MusicBrainzSearch artist (clean_song_title title)] |}))
  /\ (get_release_year_musicbrainz musicbrainz_unsorted (VStr "Artist")
        (VStr song) initial_state
      = (Ok "1999-07",
         {| data := empty_store;
            log := [MusicBrainzSearch (VStr "Artist") "Song Title"] |})
      /\ extract_year_from_discogs_data musicbrainz_unsorted (results_of [])
           (VStr "Artist") (VStr song) track initial_state
         = (Ok (VStr "1999"),
            {| data := empty_store;
               log := [MusicBrainzSearch (VStr "Artist") "Song Title"] |})).
Proof.
  split_and!.
  - intros w releases rs first_rest rest more artist title st Hrs Hw.
    exists (earliest_release_date rs).
    split; [by eapply musicbrainz_document|].
    destruct (earliest_release_date_chronological rs)
      as [[? ?]|(r & date & Hr & Hdate & ->)]; [by left|right; eauto].
  - apply survives_spec.
  - intros w discogs_data releases rs first_rest rest more artist title
      item st r date Hwy Hrs Hw Hr Hdate.
    eapply resolver_takes_musicbrainz; [done| |by eapply survivor_date_is_no_sentinel].
    rewrite (musicbrainz_document w releases rs first_rest rest more artist
               title st Hrs Hw).
    destruct (earliest_release_date_chronological rs)
      as [[Hnone _]|(r' & date' & Hr' & Hdate' & ->)].
    + destruct Hr as (l1 & l2 & d & Hl & _). rewrite Hnone in Hl.
      by destruct l1.
    + do 2 f_equal.
      by rewrite (earliest_survivor_unique rs r r' Hr Hr') in Hdate; simplify_eq.
  - intros w discogs_data first second r1 r2 first_rest rest more artist
      title item st Hwy Hf Hs Hd1 Hc1 Hd2 Hc2 Hw.
    apply (resolver_takes_musicbrainz w discogs_data artist title item st
             "2005-03-01" _ Hwy).
    + rewrite (musicbrainz_document w [first; second] [r1; r2] first_rest
                 rest more artist title st) by (by repeat constructor).
      do 2 f_equal. unfold earliest_release_date.
      assert (survives r1 = true) as S1.
      { apply survives_spec. eexists _, _. split_and!; [done| |done].
        by vm_compute. }
      assert (survives r2 = false) as S2.
      { destruct (survives r2) eqn:E; [|done].
        apply survives_spec in E as (? & ? & _ & _ & E). done. }
      cbn [List.filter]. rewrite S1, S2. cbn [earliest_by]. by rewrite Hd1.
    + done.
  - vm_compute. reflexivity.
  - vm_compute. reflexivity.
Qed.

Lemma musicbrainz_stage_earliest_witness :
  exists date,
    get_release_year_musicbrainz musicbrainz_unsorted (VStr "Artist")
      (VStr song) initial_state
    = (Ok date,
       {| data := empty_store;
          log := [] ++ [MusicBrainzSearch (VStr "Artist")
                          (clean_song_title song)] |})
    /\ ((survivors unsorted_read = [] /\ date = "N/A")
        \/ exists r,
             earliest_survivor unsorted_read r /\ rel_date r = Some date).
Proof.
  refine (proj1 musicbrainz_stage_earliest musicbrainz_unsorted
            unsorted_releases unsorted_read _ _ _ (VStr "Artist") song
            initial_state _ _).
  - repeat constructor;
      (eexists; split; [reflexivity|]; simpl;
       first [ reflexivity
             | split_and!; [reflexivity..|];
               eexists _, _, _; split_and!; reflexivity ]).
  - reflexivity.
Defined.

(** C7: the date parser tries [%Y-%m-%d], [%Y-%m], [%Y] in this order
    and returns the first success, [None] when none of them parses the
    text.  This is stated of the parser on any [str], for every table of
    the decimal digits of Unicode.  Whenever the parser returns a date,
    the text before the first hyphen is four decimal digits and the
    number they make is the year of that date; the year rendered at year
    precision parses to the same year; and when the four digits are
    ASCII digits, the rendering is that text itself.  A [%Y] parse is
    dated the first of January and a [%Y-%m] parse the first of the
    month.  Every existing date is parsed from its text at each of the
    three precisions, four decimal digits of any script are parsed as
    their year, and ["1994"] parses to the same value as ["1994-01-01"].
    On the strings of the embedding the parser is [try_parsing_date].
    With the table of Unicode 14.0, the text of 2005-03-01 with the year
    in Arabic-Indic digits parses to that date, and the year 2005 in
    fullwidth digits to the first of January 2005. *)
Theorem try_parsing_date_spec :
  (forall decimal,
     Unicode.decimal_table decimal ->
     let parse := Unicode.try_parsing_date decimal in
     let strptime := Unicode.strptime decimal in
     (forall text,
        parse text
        = match strptime text FmtYmd with
          | Some d => Some d
          | None =>
              match strptime text FmtYm with
              | Some d => Some d
              | None => strptime text FmtY
              end
          end)
     /\ (forall text,
           (forall f, f ∈ date_formats -> strptime text f = None) ->
           parse text = None)
     /\ (forall text dt,
           parse text = Some dt ->
           Unicode.year_value decimal (Unicode.before_hyphen text)
           = Some (year dt)
           /\ (1 <= year dt <= 9999)%Z
           /\ parse (Unicode.of_string (render_year dt))
              = Some (mkdate (year dt) 1 1)
           /\ (Forall Unicode.ascii_digit (Unicode.before_hyphen text) ->
               Unicode.before_hyphen text
               = Unicode.of_string (render_year dt)))
     /\ (forall text dt,
           (strptime text FmtY = Some dt -> month dt = 1%Z /\ day dt = 1%Z)
           /\ (strptime text FmtYm = Some dt -> day dt = 1%Z))
     /\ (forall y m d,
           valid_date y m d = true ->
           parse (Unicode.of_string (render_ymd y m d)) = Some (mkdate y m d)
           /\ parse (Unicode.of_string (render_ym y m))
              = Some (mkdate y m 1)
           /\ parse (Unicode.of_string (render_y y)) = Some (mkdate y 1 1))
     /\ (forall a b c e va vb vc ve,
           decimal a = Some va -> decimal b = Some vb ->
           decimal c = Some vc -> decimal e = Some ve ->
           let y := (1000 * va + 100 * vb + 10 * vc + ve)%Z in
           (1 <= y)%Z -> parse [a; b; c; e] = Some (mkdate y 1 1))
     /\ parse (Unicode.of_string "1994") = Some (mkdate 1994 1 1)
     /\ parse (Unicode.of_string "1994")
        = parse (Unicode.of_string "1994-01-01")
     /\ (forall text,
           parse (Unicode.of_string text) = try_parsing_date text))
  /\ (Unicode.decimal_table Unicode.unicode_decimal
      /\ Unicode.try_parsing_date Unicode.unicode_decimal arabic_indic_date
         = Some (mkdate 2005 3 1)
      /\ Unicode.try_parsing_date Unicode.unicode_decimal fullwidth_year
         = Some (mkdate 2005 1 1)).
Proof.
  split; [|split_and!; [apply unicode_decimal_table|by vm_compute..]].
  intros decimal Htable parse strptime. subst parse strptime.
  split_and!.
  - intros text. unfold Unicode.try_parsing_date. simpl.
    by destruct (Unicode.strptime decimal text FmtYmd),
      (Unicode.strptime decimal text FmtYm),
      (Unicode.strptime decimal text FmtY).
  - intros text H. unfold Unicode.try_parsing_date. simpl.
    rewrite (H FmtYmd), (H FmtYm), (H FmtY);
      [done|apply list_elem_of_In; simpl; auto..].
  - intros text dt (f & _ & H)%ufirst_parse_inv.
    apply (ustrptime_inv decimal Htable) in H
      as (Hy & Hr & _ & _ & _ & Ha).
    split; [done|]. split; [done|]. split; [|done].
    rewrite (try_parsing_date_of_string decimal Htable).
    by apply try_parsing_date_y.
  - intros text dt.
    split; intros H;
      apply (ustrptime_inv decimal Htable) in H
        as (_ & _ & _ & HY & HYm & _);
      [by apply HY|by apply HYm].
  - intros y m d Hv.
    pose proof (valid_date_bounds _ _ _ Hv) as (Hy & Hm & Hd).
    rewrite !(try_parsing_date_of_string decimal Htable).
    split_and!; [by apply try_parsing_date_ymd|by apply try_parsing_date_ym
                |by apply try_parsing_date_y].
  - intros a b c e va vb vc ve Ha Hb Hc He y Hy.
    by apply (four_digits_parse decimal Htable a b c e va vb vc ve).
  - rewrite (try_parsing_date_of_string decimal Htable). by vm_compute.
  - rewrite !(try_parsing_date_of_string decimal Htable). by vm_compute.
  - apply (try_parsing_date_of_string decimal Htable).
Qed.

Lemma try_parsing_date_spec_witness :
  Unicode.year_value Unicode.unicode_decimal
    (Unicode.before_hyphen arabic_indic_date)
  = Some (year (mkdate 2005 3 1))
  /\ (1 <= year (mkdate 2005 3 1) <= 9999)%Z
  /\ Unicode.try_parsing_date Unicode.unicode_decimal
       (Unicode.of_string (render_year (mkdate 2005 3 1)))
     = Some (mkdate (year (mkdate 2005 3 1)) 1 1)
  /\ (Forall Unicode.ascii_digit (Unicode.before_hyphen arabic_indic_date) ->
      Unicode.before_hyphen arabic_indic_date
      = Unicode.of_string (render_year (mkdate 2005 3 1))).
Proof.
  refine (proj1 (proj2 (proj2
            (proj1 try_parsing_date_spec Unicode.unicode_decimal
               unicode_decimal_table)))
            arabic_indic_date (mkdate 2005 3 1) _).
  vm_compute. reflexivity.
Defined.

Lemma delimiters_not_space o c : (o, c) ∈ delimiters -> isspace o = false.
Proof.
  unfold delimiters. rewrite !elem_of_cons, elem_of_nil.
  intros [?|[?|[?|[]]]]; by simplify_eq.
Qed.

(** C8 (the claim holds of the design, the code breaks it on titles with
    a line break): the docstring and the comments of the normalizer say
    that it removes any text inside parentheses, square brackets and
    curly braces and anything after a hyphen, but its patterns use [.],
    which does not match a line break.  So the title of the two lines
    [x (a] and [b) y] is returned as it is, the run in parentheses still
    in it, and of the two lines [a - b] and [c] the second line stays
    after the hyphen.
    On the titles of one line the code does what the claim says.  It
    applies, in this order, the substitution for parentheses, for square
    brackets and for curly braces, then the one for the hyphen, then
    trims.  A substitution for a pair of delimiters removes the first run
    (opening delimiter, text up to the next closing delimiter, closing
    delimiter) with the whitespace around it and goes on after it; the
    one for the hyphen removes the rest of the line from the first hyphen
    on, with the whitespace before it.  A title of one line comes out
    without any such run and without a hyphen, trimmed, and made of
    characters of the input in their order; a title with no run and no
    hyphen is only trimmed.
    ["Song Title (Remastered 2009) - Radio Edit"] becomes ["Song Title"]. *)
Theorem clean_song_title_spec :
  (clean_song_title broken_parenthesis = broken_parenthesis
   /\ ~ no_pair "("%char ")"%char
         (list_ascii_of_string (clean_song_title broken_parenthesis))
   /\ clean_song_title broken_suffix = "a" +:+ nl +:+ "c")
  /\ clean_song_title "Song Title (Remastered 2009) - Radio Edit"
     = "Song Title"
  /\ (forall title,
        clean_song_title title
        = string_of_list_ascii
            (strip (sub_dash (sub_braces (sub_brackets (sub_parens
               (list_ascii_of_string title)))))))
  /\ (forall o c pre ws1 body ws2 post,
        (o, c) ∈ delimiters ->
        o ∉ pre -> rstrip pre = pre -> spaces ws1 ->
        c ∉ body -> newline ∉ body -> spaces ws2 ->
        skip_spaces post = post ->
        re_sub (match_enclosed o c)
          (pre ++ ws1 ++ o :: body ++ c :: ws2 ++ post)
        = pre ++ re_sub (match_enclosed o c) post)
  /\ (forall pre ws rest,
        "-"%char ∉ pre -> rstrip pre = pre -> spaces ws ->
        sub_dash (pre ++ ws ++ "-"%char :: rest)
        = pre ++ sub_dash (rest_of_line rest)
        /\ (newline ∉ rest ->
            sub_dash (pre ++ ws ++ "-"%char :: rest) = pre))
  /\ (forall title,
        let s := list_ascii_of_string title in
        let r := list_ascii_of_string (clean_song_title title) in
        r `sublist_of` s
        /\ (single_line s ->
            (forall o c, (o, c) ∈ delimiters -> no_pair o c r)
            /\ ("-"%char ∉ r) /\ strip r = r))
  /\ (forall title,
        let s := list_ascii_of_string title in
        (forall o c, (o, c) ∈ delimiters -> no_pair o c s) ->
        "-"%char ∉ s ->
        clean_song_title title = py_strip title).
Proof.
  split; [|split_and!].
  - split_and!; [by vm_compute| |by vm_compute].
    assert (clean_song_title broken_parenthesis = broken_parenthesis)
      as -> by (by vm_compute).
    intros H. vm_compute in H.
    destruct H as (_ & _ & H & _). apply (H eq_refl).
    repeat constructor.
  - by vm_compute.
  - done.
  - intros o c pre ws1 body ws2 post Hd%delimiters_not_space.
    by apply re_sub_enclosed_run.
  - intros pre ws rest H1 H2 H3.
    split; [by apply re_sub_dash_run|intros; by apply re_sub_dash_line].
  - intros title s r. subst r. unfold clean_song_title.
    rewrite list_ascii_of_string_of_list_ascii. fold s.
    split; [apply clean_chars_sublist|]. intros Hl.
    destruct (clean_chars_normal s Hl) as (H1 & H2 & H3 & H4 & H5).
    split_and!; [|done..]. intros o c. unfold delimiters.
    rewrite !elem_of_cons, elem_of_nil.
    intros [?|[?|[?|[]]]]; by simplify_eq.
  - intros title s Hp Hd. unfold clean_song_title, py_strip. fold s.
    f_equal. apply clean_chars_plain; [apply Hp..|done];
      unfold delimiters; set_solver.
Qed.

Lemma clean_song_title_spec_witness :
  clean_song_title "  Plain title " = py_strip "  Plain title ".
Proof.
  refine (proj2 (proj2 (proj2 (proj2 (proj2 (proj2 clean_song_title_spec)))))
            "  Plain title " _ _).
  - intros o c. unfold delimiters. rewrite !elem_of_cons, elem_of_nil.
    intros [?|[?|[?|[]]]]; simplify_eq; vm_compute;
      repeat split; intros; discriminate.
  - apply (bool_decide_unpack _). vm_compute. exact I.
Defined.

(** C9 (the claim holds of the design, the code breaks it on titles with
    a line break): the title of the three lines [(a], [(b)] and [)] is
    normalized to ["(a)"], which still has text inside parentheses (the
    docstring says it is removed), and ["(a)"] is normalized to the empty
    title: the second pass changes the result of the first.  The defect
    is the one of C8: [.] does not match a line break, so the outer run
    is not seen before the inner one, with the line breaks around it, is
    gone.  For every title of one line, normalizing the normalized title
    gives it back. *)
Theorem clean_song_title_idempotent :
  (clean_song_title three_lines = "(a)"
   /\ clean_song_title (clean_song_title three_lines) = ""
   /\ clean_song_title (clean_song_title three_lines)
      <> clean_song_title three_lines)
  /\ (forall title,
        single_line (list_ascii_of_string title) ->
        clean_song_title (clean_song_title title) = clean_song_title title).
Proof.
  split; [split_and!; by vm_compute|].
  intros title Hl. unfold clean_song_title.
  rewrite list_ascii_of_string_of_list_ascii. f_equal.
  by apply clean_chars_fixed.
Qed.

Lemma clean_song_title_idempotent_witness :
  clean_song_title (clean_song_title song) = clean_song_title song.
Proof.
  refine (proj2 clean_song_title_idempotent song _).
  apply (bool_decide_unpack _). vm_compute. exact I.
Defined.

(** C10: the five columns of the record store have one length.  They do
    in the store [main] creates; one call of the per-track operation
    leaves the store as it was or returns normally with exactly one
    element more in each column; a failed extraction leaves everything as
    it was; so the per-track operation, the loop over a page of tracks
    and the loop over the further pages keep the columns at one length,
    whatever the outcome. *)
Theorem store_columns_aligned :
  aligned empty_store
  /\ (forall w item spotify_type st,
        let out := add_track_to_data w item spotify_type st in
        (data out.2 = data st
         \/ (out.1 = Ok tt /\ one_row_more (data st) (data out.2)))
        /\ (extract_track_info item spotify_type = None -> out = (Ok tt, st))
        /\ (aligned (data st) -> aligned (data out.2)))
  /\ (forall w results spotify_type st,
        aligned (data st) ->
        aligned (data (add_tracks_to_data w results spotify_type st).2))
  /\ (forall w pages results spotify_type st,
        aligned (data st) ->
        aligned (data (fetch_and_add_additional_tracks w pages results
                         spotify_type st).2)).
Proof.
  split_and!.
  - by repeat split.
  - intros w item spotify_type st out. split_and!.
    + apply add_track_to_data_step.
    + intros H. subst out. unfold add_track_to_data. by rewrite H.
    + apply add_track_to_data_aligned.
  - intros. by apply add_tracks_to_data_aligned.
  - intros. by apply fetch_and_add_additional_tracks_aligned.
Qed.

Lemma store_columns_aligned_witness :
  aligned (data (add_track_to_data discogs_1998 anonymous_item Playlist
                   initial_state).2).
Proof.
  refine (proj2 (proj2 (proj1 (proj2 store_columns_aligned)
            discogs_1998 anonymous_item Playlist initial_state)) _).
  repeat split.
Defined.

(** * Further properties of the program *)

(** ** The title normalizer *)

Lemma string_length_chars s :
  String.length s = length (list_ascii_of_string s).
Proof. induction s as [|a s IH]; simpl; [done|]. by rewrite IH. Qed.

(** X1: a cleaned title never starts or ends with whitespace, whatever
    the title, and has at most as many characters as the title. *)
Theorem clean_song_title_trimmed title :
  py_strip (clean_song_title title) = clean_song_title title
  /\ String.length (clean_song_title title) <= String.length title.
Proof.
  unfold py_strip, clean_song_title. split.
  - rewrite list_ascii_of_string_of_list_ascii. unfold clean_chars.
    by rewrite strip_fixed.
  - rewrite !string_length_chars, list_ascii_of_string_of_list_ascii.
    apply sublist_length, clean_chars_sublist.
Qed.

Lemma rstrip_split s : exists ws, spaces ws /\ s = rstrip s ++ ws.
Proof.
  induction s as [|x s (ws & Hws & E)]; simpl.
  { exists []. split; [constructor|done]. }
  destruct (rstrip s) as [|y r] eqn:Er.
  - simpl in E. subst s. destruct (isspace x) eqn:Hx.
    + exists (x :: ws). split; [by constructor|done].
    + by exists ws.
  - exists ws. split; [done|]. simpl. by rewrite E at 1.
Qed.

Lemma skip_spaces_rstrip_comm s : skip_spaces (rstrip s) = rstrip (skip_spaces s).
Proof.
  induction s as [|x s IH]; [done|].
  destruct (isspace x) eqn:Hx.
  - simpl. rewrite Hx, <- IH.
    destruct (rstrip s) as [|y r]; simpl; by rewrite ?Hx.
  - rewrite (skip_spaces_nonspace x s Hx). simpl.
    destruct (rstrip s) as [|y r]; rewrite ?Hx; simpl; by rewrite Hx.
Qed.

Lemma strip_rstrip s : strip (rstrip s) = strip s.
Proof. unfold strip. by rewrite skip_spaces_rstrip_comm, rstrip_fixed. Qed.

Lemma skip_spaces_upto_dash pre rest :
  exists y t, skip_spaces (pre ++ "-"%char :: rest) = y :: t
              /\ (y ∈ pre \/ y = "-"%char).
Proof.
  induction pre as [|x pre (y & t & E & Hy)]; simpl.
  - exists "-"%char, rest. by split; [|right].
  - destruct (isspace x).
    + exists y, t. split; [done|]. destruct Hy; [left; by right|by right].
    + exists x, (pre ++ "-"%char :: rest). split; [done|left; by left].
Qed.

Lemma re_sub_enclosed_upto_dash o c pre rest :
  o <> "-"%char -> o ∉ pre ->
  re_sub (match_enclosed o c) (pre ++ "-"%char :: rest)
  = pre ++ "-"%char :: re_sub (match_enclosed o c) rest.
Proof.
  intros Ho. pose proof (match_enclosed_shrinks o c) as Hm.
  assert (forall p, o ∉ p ->
            match_enclosed o c (p ++ "-"%char :: rest) = None) as Hnone.
  { intros p Hp. unfold match_enclosed.
    destruct (skip_spaces_upto_dash p rest) as (y & t & -> & Hy).
    destruct (Ascii.eqb_spec y o) as [->|]; [|done].
    destruct Hy; [done|congruence]. }
  induction pre as [|x pre IH]; intros Hpre.
  - simpl. rewrite re_sub_cons by done.
    pose proof (Hnone [] (not_elem_of_nil _)) as E. simpl in E.
    by rewrite E.
  - pose proof (Hnone (x :: pre) Hpre) as E. simpl in *.
    rewrite re_sub_cons, E by done. f_equal. apply IH.
    by apply not_elem_of_cons in Hpre as [_ ?].
Qed.

Lemma chars_append (a b : string) :
  list_ascii_of_string (a +:+ b)
  = list_ascii_of_string a ++ list_ascii_of_string b.
Proof. induction a as [|x a IH]; simpl; [done|]. by rewrite IH. Qed.

(** X2: what stands before the first hyphen is what is searched for.
    When no parenthesis, square bracket or curly brace opens before the
    first hyphen of a title, and the title has no line break after that
    hyphen, the cleaned title is the text before the hyphen, trimmed:
    whatever follows the hyphen, enclosed runs included, is dropped. *)
Theorem clean_song_title_cut_at_hyphen (pre rest : string) :
  let p := list_ascii_of_string pre in
  "("%char ∉ p -> "["%char ∉ p -> "{"%char ∉ p -> "-"%char ∉ p ->
  newline ∉ list_ascii_of_string rest ->
  clean_song_title (pre +:+ "-" +:+ rest) = py_strip pre.
Proof.
  intros p H1 H2 H3 H4 Hn. unfold clean_song_title, py_strip. f_equal.
  rewrite !chars_append. fold p. simpl.
  set (r := list_ascii_of_string rest) in *.
  unfold clean_chars, sub_parens, sub_brackets, sub_braces.
  rewrite !re_sub_enclosed_upto_dash by done.
  set (r' := re_sub _ (re_sub _ (re_sub _ r))).
  assert (newline ∉ r') as Hr.
  { intros H. apply Hn. subst r'.
    repeat (eapply elem_of_sublist in H;
            [|apply re_sub_sublist, match_enclosed_shrinks]).
    done. }
  destruct (rstrip_split p) as (ws & Hws & Ep).
  unfold sub_dash. rewrite Ep at 1. rewrite <- app_assoc.
  rewrite re_sub_dash_line; try done.
  - apply strip_rstrip.
  - intros H. apply H4. eapply elem_of_sublist; [exact H|].
    apply rstrip_sublist.
  - apply rstrip_fixed.
Qed.

Lemma clean_song_title_cut_at_hyphen_witness :
  clean_song_title ("Bohemian Rhapsody " +:+ "-" +:+ " Remastered (2011)")
  = py_strip "Bohemian Rhapsody ".
Proof.
  apply (clean_song_title_cut_at_hyphen
           "Bohemian Rhapsody " " Remastered (2011)");
    apply (bool_decide_unpack _); vm_compute; exact I.
Defined.

(** X3: a title that is nothing but one parenthesis (whitespace around
    it, the text inside on one line and without a closing parenthesis) is
    cleaned to the empty text: MusicBrainz is then searched with an empty
    recording. *)
Theorem clean_song_title_only_parenthesis ws1 body ws2 :
  spaces ws1 -> ")"%char ∉ body -> newline ∉ body -> spaces ws2 ->
  clean_song_title
    (string_of_list_ascii (ws1 ++ "("%char :: body ++ ")"%char :: ws2))
  = "".
Proof.
  intros H1 H2 H3 H4. unfold clean_song_title.
  rewrite list_ascii_of_string_of_list_ascii. unfold clean_chars.
  unfold sub_parens.
  pose proof (re_sub_enclosed_run "("%char ")"%char [] ws1 body ws2 [])
    as E.
  rewrite app_nil_r in E. simpl in E.
  rewrite E; try done. apply not_elem_of_nil.
Qed.

Lemma clean_song_title_only_parenthesis_witness :
  clean_song_title
    (string_of_list_ascii
       ([" "%char] ++ "("%char :: list_ascii_of_string "Intro"
                   ++ ")"%char :: []))
  = "".
Proof.
  apply (clean_song_title_only_parenthesis
           [" "%char] (list_ascii_of_string "Intro") []).
  - by repeat constructor.
  - apply (bool_decide_unpack _). vm_compute. exact I.
  - apply (bool_decide_unpack _). vm_compute. exact I.
  - constructor.
Defined.

(** ** The date parser *)

Section Lengths.

Context {A : Type}.
Implicit Types (k : Z -> matcher A) (s : list ascii) (r : A).

Lemma re_m_length k s r :
  re_m k s = Some r ->
  exists m rest, k m rest = Some r
                 /\ length rest + 1 <= length s <= length rest + 2.
Proof.
  unfold re_m.
  intros [H|[H|H]%or_else_inv]%or_else_inv.
  - apply two_inv in H as (a & b & rest & -> & _ & _ & H).
    exists (10 + digit_val b)%Z, rest. simpl. split; [done|lia].
  - apply two_inv in H as (a & b & rest & -> & _ & _ & H).
    exists (digit_val b), rest. simpl. split; [done|lia].
  - apply one_inv in H as (a & rest & -> & _ & H).
    exists (digit_val a), rest. simpl. split; [done|lia].
Qed.

Lemma re_d_length k s r :
  re_d k s = Some r ->
  exists d rest, k d rest = Some r
                 /\ length rest + 1 <= length s <= length rest + 2.
Proof.
  unfold re_d.
  intros [H|[H|[H|[H|H]%or_else_inv]%or_else_inv]%or_else_inv]%or_else_inv.
  - apply two_inv in H as (a & b & rest & -> & _ & _ & H).
    eexists _, rest. simpl. split; [exact H|lia].
  - apply two_inv in H as (a & b & rest & -> & _ & _ & H).
    eexists _, rest. simpl. split; [exact H|lia].
  - apply two_inv in H as (a & b & rest & -> & _ & _ & H).
    eexists _, rest. simpl. split; [exact H|lia].
  - apply one_inv in H as (a & rest & -> & _ & H).
    eexists _, rest. simpl. split; [exact H|lia].
  - apply two_inv in H as (a & b & rest & -> & _ & _ & H).
    eexists _, rest. simpl. split; [exact H|lia].
Qed.

End Lengths.

(** The number of characters a format takes. *)
Lemma regex_match_length f s y m d rest :
  regex_match f s = Some (y, m, d, rest) ->
  match f with
  | FmtYmd => length rest + 8 <= length s <= length rest + 10
  | FmtYm => length rest + 6 <= length s <= length rest + 7
  | FmtY => length s = length rest + 4
  end.
Proof.
  destruct f; simpl;
    intros (a & b & c & e & tail & -> & _ & _ & _ & _ & H)%re_Y_inv.
  - apply re_lit_inv in H as (t & -> & H).
    apply re_m_length in H as (m' & r1 & H & L1).
    apply re_lit_inv in H as (t' & -> & H).
    apply re_d_length in H as (d' & r2 & H & L2).
    simplify_eq. simpl in *. lia.
  - apply re_lit_inv in H as (t & -> & H).
    apply re_m_length in H as (m' & r1 & H & L1).
    simplify_eq. simpl in *. lia.
  - simplify_eq. simpl. lia.
Qed.

Lemma strptime_length text f dt :
  strptime text f = Some dt ->
  match f with
  | FmtYmd => 8 <= String.length text <= 10
  | FmtYm => 6 <= String.length text <= 7
  | FmtY => String.length text = 4
  end.
Proof.
  unfold strptime. rewrite string_length_chars.
  destruct (regex_match f (list_ascii_of_string text))
    as [[[[y m] d] rest]|] eqn:E; [|done].
  destruct rest; [|done]. intros _.
  apply regex_match_length in E. simpl in E. destruct f; lia.
Qed.

Lemma strptime_too_long text f :
  match f with
  | FmtYmd => 10 < String.length text
  | FmtYm => 7 < String.length text
  | FmtY => 4 < String.length text
  end ->
  strptime text f = None.
Proof.
  intros H. destruct (strptime text f) as [dt|] eqn:E; [|done].
  apply strptime_length in E. destruct f; lia.
Qed.

(** X4: a date that does not exist is no date.  The text of a year
    (from 0 on), a month and a day in the range of the pattern, written
    as [YYYY-MM-DD], is rejected when the calendar has no such day (the
    30th of February, the 31st of April, the 29th of February of a year
    that is not a leap year, any day of the year 0): no other format
    takes the text either, so the parser returns [None]. *)
Theorem try_parsing_date_rejects y m d :
  (0 <= y <= 9999)%Z -> (1 <= m <= 12)%Z -> (1 <= d <= 31)%Z ->
  valid_date y m d = false ->
  try_parsing_date (render_ymd y m d) = None.
Proof.
  intros Hy Hm Hd Hv. unfold try_parsing_date.
  cbn [date_formats first_parse].
  assert (String.length (render_ymd y m d) = 10) as Hlen.
  { unfold render_ymd. rewrite string_length_chars.
    by rewrite list_ascii_of_string_of_list_ascii. }
  rewrite (strptime_too_long _ FmtYm), (strptime_too_long _ FmtY)
    by (rewrite Hlen; lia).
  unfold strptime, render_ymd. rewrite list_ascii_of_string_of_list_ascii.
  rewrite regex_match_ymd by done. by rewrite Hv.
Qed.

Lemma try_parsing_date_rejects_witness :
  try_parsing_date (render_ymd 2023 2 30) = None.
Proof.
  apply (try_parsing_date_rejects 2023 2 30); [lia..|reflexivity].
Defined.

(** X5: the order of the formats does not matter.  No text is taken by
    two of the three formats (they take 8 to 10, 6 to 7 and 4
    characters), so whichever format accepts a text, the date it gives is
    the one the parser returns. *)
Theorem try_parsing_date_any_format text f dt :
  strptime text f = Some dt -> try_parsing_date text = Some dt.
Proof.
  intros H. pose proof (strptime_length _ _ _ H) as L.
  unfold try_parsing_date. cbn [date_formats first_parse].
  destruct f.
  - by rewrite H.
  - rewrite H.
    destruct (strptime text FmtYmd) as [d1|] eqn:E1; [|done].
    apply strptime_length in E1. lia.
  - rewrite H.
    destruct (strptime text FmtYmd) as [d1|] eqn:E1.
    { apply strptime_length in E1. lia. }
    destruct (strptime text FmtYm) as [d2|] eqn:E2; [|done].
    apply strptime_length in E2. lia.
Qed.

Lemma try_parsing_date_any_format_witness :
  try_parsing_date "1999-6" = Some (mkdate 1999 6 1).
Proof.
  apply (try_parsing_date_any_format "1999-6" FmtYm). reflexivity.
Defined.

(** ** The MusicBrainz stage *)

Lemma release_tuple_date release t :
  release_tuple release = Ok t ->
  t.1.2 = "N/A" \/ is_Some (try_parsing_date t.1.2).
Proof.
  unfold release_tuple, rbind. intros H.
  repeat case_match; simplify_eq; simpl; eauto.
Qed.

Lemma release_tuples_dates releases ts :
  release_tuples releases = Ok ts ->
  Forall (fun t => t.1.2 = "N/A" \/ is_Some (try_parsing_date t.1.2)) ts.
Proof.
  revert ts. induction releases as [|release rest IH]; simpl; intros ts.
  - intros [= <-]. constructor.
  - unfold rbind. intros H. repeat case_match; simplify_eq; eauto.
    constructor; eauto using release_tuple_date.
Qed.

Section SortElements.

Context {A K : Type}.
Variable less : K -> K -> result bool.

Lemma insert_sorted_elem (x : A * K) l r :
  insert_sorted less x l = Ok r -> forall y, y ∈ r -> y = x \/ y ∈ l.
Proof.
  revert r. induction l as [|z l IH]; simpl; intros r.
  - intros [= <-] y Hy. left. by apply list_elem_of_singleton in Hy.
  - unfold rbind. intros H. repeat case_match; simplify_eq.
    + intros y [->|Hy]%elem_of_cons; [right; by left|].
      destruct (IH _ eq_refl y Hy); [by left|right; by right].
    + intros y [->|Hy]%elem_of_cons; [by left|by right].
Qed.

Lemma sort_keyed_elem (l s : list (A * K)) :
  sort_keyed less l = Ok s -> forall y, y ∈ s -> y ∈ l.
Proof.
  revert s. induction l as [|x l IH]; simpl; intros s.
  - by intros [= <-].
  - unfold rbind. destruct (sort_keyed less l) as [s'|e] eqn:E; [|done].
    intros H y Hy.
    destruct (insert_sorted_elem _ _ _ H y Hy) as [->|Hy'];
      [by left|right; eauto].
Qed.

Lemma rmap_keyed_fst (key : A -> result K) l keyed :
  rmap (fun x => rbind (key x) (fun k => Ok (x, k))) l = Ok keyed ->
  keyed.*1 = l.
Proof.
  revert keyed. induction l as [|x l IH]; simpl; intros keyed.
  - by intros [= <-].
  - unfold rbind. intros H. repeat case_match; simplify_eq.
    simpl. f_equal. by apply IH.
Qed.

(** Sorting invents nothing: what comes out was put in. *)
Lemma sort_elem (key : A -> result K) l s :
  sort less key l = Ok s -> forall x, x ∈ s -> x ∈ l.
Proof.
  unfold sort, rbind.
  destruct (rmap _ l) as [keyed|] eqn:Ek; [|done].
  destruct (sort_keyed less keyed) as [s'|] eqn:Es; [|done].
  intros [= <-] x (y & -> & Hy)%list_elem_of_fmap.
  apply rmap_keyed_fst in Ek as <-.
  apply list_elem_of_fmap. exists y. split; [done|].
  by eapply sort_keyed_elem.
Qed.

End SortElements.

Section MusicBrainzShape.

Variable w : world.

Lemma musicbrainz_date artist title st date :
  (get_release_year_musicbrainz w artist title st).1 = Ok date ->
  date = "N/A" \/ is_Some (try_parsing_date date).
Proof.
  unfold get_release_year_musicbrainz, bind, lift, record, ret, raise.
  simpl. intros H.
  repeat match type of H with
         | context [match ?x with _ => _ end] =>
             lazymatch x with
             | rbind _ _ => fail
             | _ => destruct x eqn:?; simpl in H
             end
         end; simplify_eq; try (by left).
  revert H. unfold rbind.
  destruct (getitem0 _) as [first|]; [|done].
  destruct (getitem first "releases") as [releases|]; [|done].
  destruct (iter releases) as [l|]; [|done].
  destruct (release_tuples l) as [ts|] eqn:Et; [|done].
  destruct (sort _ _ _) as [s|] eqn:Es; [|done].
  destruct s as [|release s]; intros [= <-]; [by left|].
  right.
  assert (release ∈ List.filter has_date (List.filter not_various ts))
    as Hin.
  { eapply sort_elem; [exact Es|by left]. }
  apply list_elem_of_In, filter_In in Hin as [Hin Hd].
  apply filter_In in Hin as [Hin _]. apply list_elem_of_In in Hin.
  apply release_tuples_dates in Et.
  rewrite Forall_forall in Et. destruct (Et _ Hin) as [E|]; [|done].
  unfold has_date in Hd. rewrite E in Hd. done.
Qed.

End MusicBrainzShape.

(** X6: what the MusicBrainz stage does for every artist, title and
    answer of the service.  It makes exactly one request, for the
    cleaned title, and leaves the record store alone; and when it
    returns, the text it returns is ["N/A"] or a date that the date
    parser accepts. *)
Theorem musicbrainz_stage_shape w artist title st :
  let out := get_release_year_musicbrainz w artist (VStr title) st in
  out.2 = {| data := data st;
             log := log st
                    ++ [MusicBrainzSearch artist (clean_song_title title)] |}
  /\ forall date, out.1 = Ok date ->
                  date = "N/A" \/ is_Some (try_parsing_date date).
Proof.
  split; [apply musicbrainz_state|]. intros date. apply musicbrainz_date.
Qed.

Section Fallbacks.

Variable w : world.

Lemma musicbrainz_not_available artist title st :
  no_recordings (musicbrainz_search w (log st) artist (clean_song_title title)) ->
  get_release_year_musicbrainz w artist (VStr title) st
  = (Ok "N/A",
     {| data := data st;
        log := log st ++ [MusicBrainzSearch artist (clean_song_title title)] |}).
Proof.
  intros H.
  unfold get_release_year_musicbrainz, bind, lift, record, ret. simpl.
  destruct (musicbrainz_search _ _ _ _) as [|status_code json]; [done|].
  destruct (is_error_status status_code); [done|].
  destruct (Z.eqb_spec status_code 200) as [->|]; [|done].
  destruct H as [H|[->|(d & -> & H)]]; [done|done|]. simpl.
  destruct (d !! "recordings") as [recordings|]; [|done].
  by rewrite H.
Qed.

End Fallbacks.

(** X7: every way in which MusicBrainz names no recording gives the
    sentinel.  When the request fails (a transport error, a 4xx or 5xx
    status), the status is not 200, the body is not JSON, or the body is
    an object without ["recordings"] or with an empty value there, the
    stage returns ["N/A"] after its one request and raises nothing. *)
Theorem musicbrainz_no_recordings w artist title st :
  no_recordings (musicbrainz_search w (log st) artist (clean_song_title title)) ->
  get_release_year_musicbrainz w artist (VStr title) st
  = (Ok "N/A",
     {| data := data st;
        log := log st ++ [MusicBrainzSearch artist (clean_song_title title)] |}).
Proof. apply musicbrainz_not_available. Qed.

(** X9: the Spotify stage.  When the Discogs answer has no ["results"],
    MusicBrainz names no recording, the item carries an album with an id
    and Spotify answers the album lookup with an object, the resolver
    returns the text before the first hyphen of the album's
    ["release_date"], whatever that text is, and ["N/A"] when the album
    has no such field; a release date that is not a text raises
    [AttributeError].  Two requests are made: MusicBrainz, then the
    album. *)
Theorem spotify_stage_year w (discogs item album_entry album : gmap string value)
    album_id artist title st :
  discogs !! "results" = None ->
  no_recordings (musicbrainz_search w (log st) artist (clean_song_title title)) ->
  item !! "album" = Some (VDict album_entry) ->
  album_entry !! "id" = Some album_id ->
  spotify_album w
    (log st ++ [MusicBrainzSearch artist (clean_song_title title)]) album_id
  = Ok (VDict album) ->
  extract_year_from_discogs_data w (VDict discogs) artist (VStr title)
    (VDict item) st
  = (match album !! "release_date" with
     | None => Ok (VStr "N/A")
     | Some (VStr text) => Ok (VStr (split_first text))
     | Some _ => Raise AttributeError
     end,
     {| data := data st;
        log := log st ++ [MusicBrainzSearch artist (clean_song_title title);
                          SpotifyAlbum album_id] |}).
Proof.
  intros Hd Hmb Hitem Hid Halbum.
  unfold extract_year_from_discogs_data.
  unfold bind at 1. unfold lift at 1. cbn [contains]. rewrite Hd.
  unfold bind at 1. rewrite musicbrainz_not_available by done.
  cbn [String.eqb Ascii.eqb Bool.eqb negb].
  unfold bind, lift, record. cbn [getitem rbind log data].
  rewrite Hitem. cbn [getitem rbind]. rewrite Hid, Halbum.
  cbn [contains]. rewrite <- app_assoc. cbn [app].
  destruct (album !! "release_date") as [release_date|] eqn:E;
    rewrite ?E; [|done].
  cbn [getitem rbind]. rewrite E. by destruct release_date.
Qed.

(** ** The Discogs stage *)

(** X10: a Discogs answer without a usable body.  When the Discogs
    request succeeds (no transport error, no 4xx or 5xx status) but the
    body is not JSON, the per-track operation raises [ValueError]: the
    decoding is outside the [try] of [fetch_discogs_data].  When the body
    is the JSON value [null], the track is dropped without an error, as
    after a failed request.  In both cases the store is left as it was
    and the Discogs request is the only one made. *)
Theorem discogs_body_unusable w item spotify_type info st status_code json :
  extract_track_info item spotify_type = Some info ->
  discogs_search w (log st) (first_artist info) (ti_name info)
  = Response status_code json ->
  is_error_status status_code = false ->
  json = None \/ json = Some VNone ->
  add_track_to_data w item spotify_type st
  = (match json with None => Raise ValueError | Some _ => Ok tt end,
     {| data := data st;
        log := log st ++ [DiscogsSearch (first_artist info) (ti_name info)] |}).
Proof.
  intros Hinfo Hd Hs Hj. rewrite (add_track_to_data_enrich w _ _ _ Hinfo).
  unfold enrich, fetch_discogs_data, bind, record, ret, raise. simpl.
  rewrite Hd, Hs. by destruct Hj as [->| ->].
Qed.

Section MixedKeys.

Implicit Types l s : list (value * value).

Lemma lt_comparable a b t : lt a b = Ok t -> comparable a b.
Proof.
  unfold lt, comparable, is_number, is_text.
  destruct (as_number a) eqn:Ea, (as_number b) eqn:Eb;
    destruct a, b; simpl in *; try done; eauto.
Qed.

Lemma lt_raises a b e : lt a b = Raise e -> e = TypeError.
Proof.
  unfold lt. destruct (as_number a), (as_number b);
    destruct a, b; simpl; congruence.
Qed.

Lemma number_not_text v : is_number v -> is_text v -> False.
Proof. intros [n Hn] [s ->]. done. Qed.

Lemma insert_sorted_raises (x : value * value) l e :
  insert_sorted lt x l = Raise e -> e = TypeError.
Proof.
  induction l as [|y l IH]; simpl; [done|]. unfold rbind.
  destruct (lt y.2 x.2) as [[]|e'] eqn:E.
  - destruct (insert_sorted lt x l); [done|]. intros [= <-]. by apply IH.
  - done.
  - intros [= <-]. by eapply lt_raises.
Qed.

Lemma sort_keyed_raises l e : sort_keyed lt l = Raise e -> e = TypeError.
Proof.
  induction l as [|x l IH]; simpl; [done|]. unfold rbind.
  destruct (sort_keyed lt l) as [s|e'].
  - apply insert_sorted_raises.
  - intros [= <-]. by apply IH.
Qed.

Lemma sort_keyed_nil l : sort_keyed lt l = Ok [] -> l = [].
Proof.
  destruct l as [|x l]; simpl; [done|]. unfold rbind.
  destruct (sort_keyed lt l) as [s|]; [|done].
  destruct s as [|y s]; simpl; [done|]. unfold rbind.
  destruct (lt y.2 x.2) as [[]|]; [|done..].
  by destruct (insert_sorted lt x s).
Qed.

(** A sort that returns has compared like with like: the keys of a list
    of two or more are all numbers or all texts. *)
Lemma sort_keyed_comparable l s :
  sort_keyed lt l = Ok s ->
  forall x y, x ∈ l -> y ∈ l -> x = y \/ comparable x.2 y.2.
Proof.
  revert s. induction l as [|z l IH]; intros s; [by intros _ x y []%elem_of_nil|].
  simpl. unfold rbind.
  destruct (sort_keyed lt l) as [s'|] eqn:Es; [|done]. intros Hins.
  specialize (IH s' eq_refl).
  assert (forall y, y ∈ l -> comparable z.2 y.2) as Hz.
  { destruct s' as [|h tl].
    { apply sort_keyed_nil in Es as ->. by intros y []%elem_of_nil. }
    assert (h ∈ l) as Hh.
    { eapply sort_keyed_elem; [exact Es|by left]. }
    simpl in Hins. unfold rbind in Hins.
    destruct (lt h.2 z.2) as [t|] eqn:Ehz; [|done].
    apply lt_comparable in Ehz. intros y Hy.
    destruct (IH h y Hh Hy) as [<-|Hc].
    - destruct Ehz as [[]|[]]; [left|right]; done.
    - destruct Ehz as [[]|[]], Hc as [[]|[]];
        try (exfalso; eauto using number_not_text; fail);
        [left|right]; done. }
  intros x y [->|Hx]%elem_of_cons [->|Hy]%elem_of_cons; eauto.
  right. destruct (Hz x Hx) as [[]|[]]; [left|right]; done.
Qed.

Lemma year_keys cs :
  year_key <$> (VDict <$> List.filter has_year cs) = years_of cs.
Proof.
  induction cs as [|c cs IH]; [done|].
  unfold years_of in *. simpl. unfold has_year at 1.
  destruct (year_of c) as [v|] eqn:E; simpl; rewrite ?E;
    [f_equal|]; exact IH.
Qed.

Lemma getitem_year cs x :
  x ∈ VDict <$> List.filter has_year cs -> getitem x "year" = Ok (year_key x).
Proof.
  intros (c & -> & Hc)%list_elem_of_fmap.
  apply list_elem_of_In, filter_In in Hc as [_ Hc].
  unfold has_year, year_of in *. simpl. unfold year_of.
  by destruct (c !! "year").
Qed.

Lemma sort_years_mixed cs y1 y2 :
  y1 ∈ years_of cs -> y2 ∈ years_of cs ->
  is_number y1 -> ~ is_number y2 ->
  sort lt (fun x => getitem x "year") (VDict <$> List.filter has_year cs)
  = Raise TypeError.
Proof.
  intros H1 H2 Hn1 Hn2. unfold sort.
  rewrite (rmap_keys _ year_key) by apply getitem_year.
  cbn [rbind].
  set (keyed := (fun x => (x, year_key x)) <$> _).
  destruct (sort_keyed lt keyed) as [s|e] eqn:Es.
  - exfalso. rewrite <- year_keys in H1, H2.
    apply list_elem_of_fmap in H1 as (x1 & -> & Hx1).
    apply list_elem_of_fmap in H2 as (x2 & -> & Hx2).
    destruct (sort_keyed_comparable _ _ Es (x1, year_key x1)
                (x2, year_key x2)) as [[= <-]|[[_ ?]|[? _]]];
      try (apply list_elem_of_fmap; eauto; fail); simpl in *;
      eauto using number_not_text.
  - simpl. f_equal. by eapply sort_keyed_raises.
Qed.

End MixedKeys.

(** X11: years of two kinds cannot be ordered.  When the years of the
    Discogs results hold a number and also a value that is no number (a
    text, say, as Discogs sends years in both forms), the sort of the
    resolver raises [TypeError], which leaves the resolver: no year is
    returned and no other source is asked. *)
Theorem discogs_mixed_years_raise w candidates rest artist title item st
    y1 y2 :
  y1 ∈ years_of candidates -> y2 ∈ years_of candidates ->
  is_number y1 -> ~ is_number y2 ->
  extract_year_from_discogs_data w (results_json candidates rest) artist
    title item st
  = (Raise TypeError, st).
Proof.
  intros H1 H2 Hn1 Hn2. unfold extract_year_from_discogs_data, results_json.
  unfold bind at 1. unfold lift at 1. cbn [contains].
  rewrite lookup_insert_eq. unfold bind at 1. unfold lift at 1.
  cbn [getitem rbind iter]. rewrite lookup_insert_eq. cbn [rbind iter].
  rewrite rfilter_year. cbn [rbind].
  by rewrite (sort_years_mixed _ _ _ H1 H2 Hn1 Hn2).
Qed.

(** ** The rows of the store *)

Section Rows.

Variable w : world.

Lemma adds_row_ret info artist : adds_row_of info artist (ret tt).
Proof. intros st. by left. Qed.

Lemma adds_row_bind {A} info artist (m : M A) (k : A -> M unit) :
  only_logs m -> (forall a, adds_row_of info artist (k a)) ->
  adds_row_of info artist (bind m k).
Proof.
  intros Hm Hk st. unfold bind.
  destruct (Hm st) as [Hd _]. destruct (m st) as [[a|e] st1]; simpl in *.
  - specialize (Hk a st1). rewrite Hd in Hk. exact Hk.
  - by left.
Qed.

Lemma adds_row_enrich info artist item :
  adds_row_of info artist (enrich w info artist item).
Proof.
  unfold enrich. apply adds_row_bind; [apply only_logs_discogs|].
  intros discogs_data.
  assert (adds_row_of info artist
            (year <- extract_year_from_discogs_data w discogs_data artist
                       (ti_name info) item ;;
             qr_img <- generate_qr_code w (ti_url info) ;;
             qr_img <- add_overlay_to_qr_code w qr_img ;;
             append_row artist (ti_name info) year (ti_url info) qr_img))
    as Hrow.
  { apply adds_row_bind; [apply only_logs_resolver|]. intros year.
    apply adds_row_bind; [apply only_logs_qr|]. intros qr_img.
    apply adds_row_bind; [apply only_logs_overlay|]. intros qr_img'.
    intros st. right. split; [done|]. by exists year, qr_img'. }
  destruct discogs_data; first [apply adds_row_ret | apply Hrow].
Qed.

Lemma add_track_to_data_row item spotify_type st :
  let out := add_track_to_data w item spotify_type st in
  data out.2 = data st
  \/ exists info year qr_img,
       extract_track_info item spotify_type = Some info
       /\ out.1 = Ok tt
       /\ data out.2
          = add_row (data st) (first_artist info) (ti_name info) year
              (ti_url info) qr_img.
Proof.
  simpl. destruct (extract_track_info item spotify_type) as [info|] eqn:E.
  - rewrite (add_track_to_data_enrich w _ _ _ E).
    destruct (adds_row_enrich info (first_artist info) item st)
      as [H|[H (year & qr_img & Hrow)]]; [by left|].
    right. by exists info, year, qr_img.
  - left. unfold add_track_to_data. by rewrite E.
Qed.

Lemma for_each_rows spotify_type items st :
  let out :=
    for_each (fun item => add_track_to_data w item spotify_type) items st in
  exists infos,
    infos `sublist_of` listed items spotify_type
    /\ Artist (data out.2) = Artist (data st) ++ (first_artist <$> infos)
    /\ Title (data out.2) = Title (data st) ++ (ti_name <$> infos)
    /\ URL (data out.2) = URL (data st) ++ (ti_url <$> infos).
Proof.
  revert st. induction items as [|item items IH]; intros st; simpl.
  { exists []. by rewrite !app_nil_r. }
  unfold bind.
  pose proof (add_track_to_data_row item spotify_type st) as Hstep.
  simpl in Hstep.
  destruct (add_track_to_data w item spotify_type st) as [[[]|e] st1];
    simpl in Hstep.
  - destruct (IH st1) as (infos & Hsub & HA & HT & HU).
    destruct Hstep as [Hd|(info & year & qr_img & Hinfo & _ & Hd)].
    + exists infos. rewrite HA, HT, HU, Hd. split; [|done].
      unfold listed in *. simpl.
      destruct (extract_track_info item spotify_type);
        [by apply sublist_cons|done].
    + exists (info :: infos). rewrite HA, HT, HU, Hd. simpl.
      rewrite <- !app_assoc. split; [|done].
      unfold listed in *. simpl. rewrite Hinfo. by apply sublist_skip.
  - exists []. simpl. destruct Hstep as [->|(? & ? & ? & _ & [=] & _)].
    rewrite !app_nil_r. split; [apply sublist_nil_l|done].
Qed.

End Rows.

(** X12: the row of a track.  When the per-track operation adds a row
    for a track, the row holds the first artist of the track ([None] when
    it has none), the title as Spotify gives it (not the cleaned title)
    and the URL of the track; otherwise the store is left as it was. *)
Theorem add_track_to_data_row_contents w item spotify_type info st :
  extract_track_info item spotify_type = Some info ->
  let out := add_track_to_data w item spotify_type st in
  data out.2 = data st
  \/ (out.1 = Ok tt
      /\ exists year qr_img,
           data out.2
           = add_row (data st) (first_artist info) (ti_name info) year
               (ti_url info) qr_img).
Proof.
  intros E. simpl. rewrite (add_track_to_data_enrich w _ _ _ E).
  apply adds_row_enrich.
Qed.

(** X13: the rows follow the listing.  For a page of a listing,
    whatever the services answer and also when an exception ends the
    loop, the rows that [add_tracks_to_data] adds belong to tracks of the
    page that [extract_track_info] can read, each track of the page at
    most once, in the order of the page: the new artists, titles and
    URLs are those of a sublist of the page's tracks. *)
Theorem add_tracks_to_data_in_order w (results : gmap string value) items
    spotify_type st :
  results !! "items" = Some (VList items) ->
  let out := add_tracks_to_data w (VDict results) spotify_type st in
  exists infos,
    infos `sublist_of` listed items spotify_type
    /\ Artist (data out.2) = Artist (data st) ++ (first_artist <$> infos)
    /\ Title (data out.2) = Title (data st) ++ (ti_name <$> infos)
    /\ URL (data out.2) = URL (data st) ++ (ti_url <$> infos).
Proof.
  intros Hitems. unfold add_tracks_to_data, bind, lift. simpl.
  rewrite Hitems. simpl. apply for_each_rows.
Qed.

(** ** The paging loop *)

Lemma paging_no_spotify_exception w pages results spotify_type st :
  (fetch_and_add_additional_tracks w pages results spotify_type st).1
  <> Raise SpotifyException.
Proof.
  revert results st. induction pages as [|pages IH]; intros results st;
    [done|].
  cbn [fetch_and_add_additional_tracks]. unfold bind, lift.
  destruct (getitem results "next") as [next|e] eqn:E.
  - destruct (truthy next); [|done].
    destruct (next_page w results spotify_type st) as [[results'|e] st'];
      [apply IH|by destruct e].
  - simpl. unfold getitem in E. repeat case_match; by simplify_eq.
Qed.

(** X14: the paging loop.  It never lets a [SpotifyException] out,
    whatever the services answer and however many pages there are; with
    a ["next"] that is [None] (or otherwise false) it does nothing; and
    when the request for the next page raises a [SpotifyException], the
    loop ends normally after that one request, with the store as it
    was. *)
Theorem paging_loop_edges :
  (forall w pages results spotify_type st,
     (fetch_and_add_additional_tracks w pages results spotify_type st).1
     <> Raise SpotifyException)
  /\ (forall w pages (results : gmap string value) next spotify_type st,
        results !! "next" = Some next -> truthy next = false ->
        fetch_and_add_additional_tracks w pages (VDict results)
          spotify_type st = (Ok tt, st))
  /\ (forall w pages (results : gmap string value) next spotify_type st,
        results !! "next" = Some next -> truthy next = true ->
        spotify_next w (log st) (VDict results) = Raise SpotifyException ->
        fetch_and_add_additional_tracks w (S pages) (VDict results)
          spotify_type st
        = (Ok tt,
           {| data := data st;
              log := log st ++ [SpotifyNext (VDict results)] |})).
Proof.
  split_and!.
  - apply paging_no_spotify_exception.
  - intros w [|pages] results next spotify_type st Hn Ht; [done|].
    cbn [fetch_and_add_additional_tracks]. unfold bind, lift. simpl.
    by rewrite Hn, Ht.
  - intros w pages results next spotify_type st Hn Ht Hs.
    cbn [fetch_and_add_additional_tracks]. unfold bind, lift. simpl.
    rewrite Hn, Ht. unfold next_page, bind, record, lift. simpl.
    by rewrite Hs.
Qed.

(** ** The URL of the listing *)

Section Paths.

Implicit Types s piece : list ascii.

Lemma split_on_cons sep s : exists piece pieces, split_on sep s = piece :: pieces.
Proof.
  induction s as [|x s (p & ps & E)]; simpl; [by eexists _, _|].
  destruct (Ascii.eqb x sep); [by eexists _, _|].
  rewrite E. by eexists _, _.
Qed.

Lemma split_on_app sep s t :
  split_on sep (s ++ sep :: t) = split_on sep s ++ split_on sep t.
Proof.
  induction s as [|x s IH]; simpl.
  - by rewrite Ascii.eqb_refl.
  - destruct (Ascii.eqb x sep); [by rewrite IH|].
    rewrite IH. by destruct (split_on_cons sep s) as (p & ps & ->).
Qed.

Lemma split_on_first sep s t :
  sep ∉ s ->
  exists piece pieces,
    split_on sep t = piece :: pieces
    /\ split_on sep (s ++ t) = (s ++ piece) :: pieces.
Proof.
  induction s as [|x s IH]; simpl.
  - intros _. destruct (split_on_cons sep t) as (p & ps & E). eauto.
  - intros [Hx Hs]%not_elem_of_cons.
    destruct (IH Hs) as (p & ps & E1 & E2). exists p, ps.
    destruct (Ascii.eqb_spec x sep); [done|]. by rewrite E2.
Qed.

Lemma split_on_whole sep s : sep ∉ s -> split_on sep s = [s].
Proof.
  intros Hs. destruct (split_on_first sep s [] Hs) as (p & ps & E1 & E2).
  rewrite app_nil_r in E2. simpl in E1. by simplify_eq; rewrite app_nil_r in E2.
Qed.

Lemma type_word_inv s :
  is_type_word s = true ->
  s = list_ascii_of_string "album" \/ s = list_ascii_of_string "playlist".
Proof.
  unfold is_type_word.
  intros [H|H]%orb_prop; apply String.eqb_eq in H; [left|right];
    by rewrite <- H, list_ascii_of_string_of_list_ascii.
Qed.

Lemma type_word_whole s : is_type_word s = true -> split_on "/" s = [s].
Proof.
  intros [-> | ->]%type_word_inv; reflexivity.
Qed.

Lemma find_id_and_type_app pre parts :
  Forall (fun part => is_type_word part = false) pre ->
  find_id_and_type (pre ++ parts) = find_id_and_type parts.
Proof. induction 1 as [|p pre Hp _ IH]; simpl; [done|]. by rewrite Hp. Qed.

Lemma find_id_and_type_none parts :
  find_id_and_type parts = Ok None
  <-> Forall (fun part => is_type_word part = false) parts.
Proof.
  induction parts as [|p parts IH]; simpl; [by split; [constructor|]|].
  destruct (is_type_word p) eqn:Hp.
  - split; [by destruct parts|]. intros H. apply Forall_cons_1 in H as [H _].
    congruence.
  - rewrite IH. split; [by constructor|]. by intros [_ ?]%Forall_cons_1.
Qed.

Lemma id_only_first id t :
  "/"%char ∉ id -> "?"%char ∉ id ->
  t = [] \/ (exists r, t = "/"%char :: r) \/ (exists r, t = "?"%char :: r) ->
  exists piece pieces,
    split_on "/" (id ++ t) = piece :: pieces
    /\ hd [] (split_on "?" piece) = id.
Proof.
  intros H1 H2 Ht.
  destruct (split_on_first "/" id t H1) as (p & ps & E1 & E2).
  exists (id ++ p), ps. split; [done|].
  assert (p = [] \/ exists r, p = "?"%char :: r) as Hp.
  { destruct Ht as [->|[[r ->]|[r ->]]]; simpl in E1.
    - left. by simplify_eq.
    - left. by simplify_eq.
    - right. destruct (split_on_cons "/" r) as (p' & ps' & E).
      rewrite E in E1. simplify_eq. by eexists. }
  destruct (split_on_first "?" id p H2) as (q & qs & E3 & ->). simpl.
  destruct Hp as [->|[r ->]]; simpl in E3; simplify_eq;
    by rewrite app_nil_r.
Qed.

End Paths.

(** X15: the id and the type of a listing.  In a path whose first
    segment that is [album] or [playlist] is followed by a segment, the
    function returns the text of that segment up to its first question
    mark, and the type word: for [.../album/<id>], [.../playlist/<id>],
    also with a prefix such as [/intl-de], a further segment or a query
    behind the id. *)
Theorem extract_spotify_id_and_type_found (pre type_word id rest : string) :
  no_type_word pre ->
  type_word = "album" \/ type_word = "playlist" ->
  "/"%char ∉ list_ascii_of_string id ->
  "?"%char ∉ list_ascii_of_string id ->
  ends_id rest ->
  extract_spotify_id_and_type
    (pre +:+ "/" +:+ type_word +:+ "/" +:+ id +:+ rest)
  = Ok (Some (id, type_word)).
Proof.
  intros Hpre Hty H1 H2 Hrest. unfold extract_spotify_id_and_type.
  rewrite !chars_append. cbn [list_ascii_of_string app].
  rewrite split_on_app, find_id_and_type_app by done.
  assert (is_type_word (list_ascii_of_string type_word) = true) as Hw.
  { by destruct Hty as [-> | ->]. }
  rewrite split_on_app, (type_word_whole _ Hw).
  destruct (id_only_first (list_ascii_of_string id)
              (list_ascii_of_string rest) H1 H2)
    as (piece & pieces & -> & Hid).
  { destruct rest as [|c rest]; [by left|]. simpl in *.
    destruct Hrest as [-> | ->]; eauto. }
  cbn [app find_id_and_type]. rewrite Hw, Hid.
  by rewrite !string_of_list_ascii_of_string.
Qed.

(** X16: a path that ends with the type word.  When the first segment
    that is [album] or [playlist] is the last segment of the path, the
    function raises [IndexError] (it reads the segment after the type
    word) instead of returning the pair of [None]s. *)
Theorem extract_spotify_id_and_type_no_id (pre type_word : string) :
  no_type_word pre ->
  type_word = "album" \/ type_word = "playlist" ->
  extract_spotify_id_and_type (pre +:+ "/" +:+ type_word)
  = Raise IndexError.
Proof.
  intros Hpre Hty. unfold extract_spotify_id_and_type.
  rewrite !chars_append. cbn [list_ascii_of_string app].
  rewrite split_on_app, find_id_and_type_app by done.
  by destruct Hty as [-> | ->].
Qed.

(** X17: the pair of [None]s is returned exactly for the paths in which
    no segment is [album] or [playlist]. *)
Theorem extract_spotify_id_and_type_none path :
  extract_spotify_id_and_type path = Ok None <-> no_type_word path.
Proof. apply find_id_and_type_none. Qed.

Section PathResults.

Lemma split_on_pieces sep s :
  Forall (fun piece => sep ∉ piece) (split_on sep s).
Proof.
  induction s as [|x s IH]; simpl.
  - repeat constructor. apply not_elem_of_nil.
  - destruct (Ascii.eqb_spec x sep) as [->|Hx].
    + constructor; [apply not_elem_of_nil|done].
    + destruct (split_on sep s) as [|p ps]; [|apply Forall_cons_1 in IH as [? ?]];
        constructor; try done; apply not_elem_of_cons; split; try done.
      apply not_elem_of_nil.
Qed.

Lemma split_on_hd_sublist sep s : hd [] (split_on sep s) `sublist_of` s.
Proof.
  induction s as [|x s IH]; simpl; [done|].
  destruct (Ascii.eqb x sep); simpl; [apply sublist_nil_l|].
  destruct (split_on sep s) as [|p ps]; simpl in *;
    [constructor; apply sublist_nil_l|by constructor].
Qed.

Lemma find_id_and_type_some parts id type_word :
  find_id_and_type parts = Ok (Some (id, type_word)) ->
  (type_word = "album" \/ type_word = "playlist")
  /\ exists part, part ∈ parts
       /\ list_ascii_of_string id `sublist_of` part
       /\ "?"%char ∉ list_ascii_of_string id.
Proof.
  induction parts as [|p parts IH]; simpl; [done|].
  destruct (is_type_word p) eqn:Hp.
  - destruct parts as [|q parts]; [done|]. intros [= <- <-].
    rewrite list_ascii_of_string_of_list_ascii. split.
    + apply type_word_inv in Hp as [-> | ->]; [by left|by right].
    + exists q. split; [right; by left|]. split.
      * apply split_on_hd_sublist.
      * pose proof (split_on_pieces "?" q) as H.
        destruct (split_on "?" q); [apply not_elem_of_nil|].
        by apply Forall_cons_1 in H as [? _].
  - intros (Hty & part & Hin & Hsub)%IH. split; [done|].
    exists part. split; [by right|done].
Qed.

End PathResults.

(** X18: what the function returns when it returns an id.  The type is
    one of the two words [album] and [playlist], so the table of
    [fetch_tracks] always has a method for it, and the id has no slash
    and no question mark. *)
Theorem extract_spotify_id_and_type_result path id type_word :
  extract_spotify_id_and_type path = Ok (Some (id, type_word)) ->
  (type_word = "album" \/ type_word = "playlist")
  /\ ("/"%char ∉ list_ascii_of_string id)
  /\ ("?"%char ∉ list_ascii_of_string id).
Proof.
  unfold extract_spotify_id_and_type.
  intros (Hty & part & Hin & Hsub & Hq)%find_id_and_type_some.
  split; [done|]. split; [|done].
  pose proof (split_on_pieces "/" (list_ascii_of_string path)) as H.
  rewrite Forall_forall in H. intros Hid. apply (H part Hin).
  by eapply elem_of_sublist.
Qed.

(** ** The listing *)

Section CreateData.

Variable w : world.
Variable album_tracks playlist_tracks : value -> M value.

Lemma fetch_tracks_data spotify_id spotify_type st :
  (forall spotify_id, only_logs (album_tracks spotify_id)) ->
  (forall spotify_id, only_logs (playlist_tracks spotify_id)) ->
  data (fetch_tracks album_tracks playlist_tracks spotify_id spotify_type
          st).2 = data st.
Proof.
  intros Ha Hp. unfold fetch_tracks, api_methods.
  destruct (String.eqb spotify_type "album").
  - destruct (Ha spotify_id st) as [Hd _].
    by destruct (album_tracks spotify_id st) as [[] ?].
  - destruct (String.eqb spotify_type "playlist"); [|done].
    destruct (Hp spotify_id st) as [Hd _].
    by destruct (playlist_tracks spotify_id st) as [[] ?].
Qed.

End CreateData.

(** X19: [fetch_tracks] never raises.  Whatever the method of the client
    does, the function returns; it returns [None] when the method
    raises, and for a type that is neither [album] nor [playlist] it
    returns [None] without calling anything. *)
Theorem fetch_tracks_never_raises :
  (forall album_tracks playlist_tracks spotify_id spotify_type st,
     exists results,
       (fetch_tracks album_tracks playlist_tracks spotify_id spotify_type
          st).1 = Ok results)
  /\ (forall album_tracks playlist_tracks spotify_id spotify_type method e
             st st',
        api_methods album_tracks playlist_tracks spotify_type = Some method ->
        method spotify_id st = (Raise e, st') ->
        fetch_tracks album_tracks playlist_tracks spotify_id spotify_type st
        = (Ok VNone, st'))
  /\ (forall album_tracks playlist_tracks spotify_id spotify_type st,
        spotify_type <> "album" -> spotify_type <> "playlist" ->
        fetch_tracks album_tracks playlist_tracks spotify_id spotify_type st
        = (Ok VNone, st)).
Proof.
  split_and!.
  - intros. unfold fetch_tracks.
    destruct (api_methods _ _ _) as [method|]; [|by eexists].
    destruct (method spotify_id st) as [[results|e] st']; by eexists.
  - intros * Hm He. unfold fetch_tracks. by rewrite Hm, He.
  - intros * H1 H2. unfold fetch_tracks, api_methods.
    apply String.eqb_neq in H1, H2. by rewrite H1, H2.
Qed.

(** X20: when [create_data] lists nothing.  For a path without a type
    word it returns at once: no request is made and the store is left as
    it was.  When the listing method of the client raises, it returns
    normally in the state the method left, and no track is processed.
    For a path that ends with the type word the [IndexError] of
    [extract_spotify_id_and_type] leaves [create_data] before any
    request. *)
Theorem create_data_without_listing :
  (forall w album_tracks playlist_tracks path pages st,
     no_type_word path ->
     create_data w album_tracks playlist_tracks path pages st = (Ok tt, st))
  /\ (forall w album_tracks playlist_tracks path pages id type_word method
             e st st',
        extract_spotify_id_and_type path = Ok (Some (id, type_word)) ->
        api_methods album_tracks playlist_tracks type_word = Some method ->
        method (VStr id) st = (Raise e, st') ->
        create_data w album_tracks playlist_tracks path pages st
        = (Ok tt, st'))
  /\ (forall w album_tracks playlist_tracks pre type_word pages st,
        no_type_word pre ->
        type_word = "album" \/ type_word = "playlist" ->
        create_data w album_tracks playlist_tracks
          (pre +:+ "/" +:+ type_word) pages st
        = (Raise IndexError, st)).
Proof.
  split_and!.
  - intros * H%find_id_and_type_none. unfold create_data, bind, lift.
    unfold extract_spotify_id_and_type. by rewrite H.
  - intros * Hx Hm He. unfold create_data, bind, lift. rewrite Hx.
    unfold fetch_tracks. by rewrite Hm, He.
  - intros * Hpre Hty. unfold create_data, bind, lift.
    unfold extract_spotify_id_and_type.
    rewrite !chars_append. cbn [list_ascii_of_string app].
    rewrite split_on_app, find_id_and_type_app by done.
    by destruct Hty as [-> | ->].
Qed.

(** X21: the columns stay aligned through the whole of [create_data].
    When the listing methods of the client do not touch the store, the
    five columns have one length after [create_data] if they had before,
    for every path, every answer of the services and every bound on the
    pages, also when an exception ends it. *)
Theorem create_data_aligned w album_tracks playlist_tracks path pages st :
  (forall spotify_id, only_logs (album_tracks spotify_id)) ->
  (forall spotify_id, only_logs (playlist_tracks spotify_id)) ->
  aligned (data st) ->
  aligned (data (create_data w album_tracks playlist_tracks path pages
                   st).2).
Proof.
  intros Ha Hp Hst. unfold create_data, bind, lift.
  destruct (extract_spotify_id_and_type path)
    as [[[spotify_id spotify_type]|]|e]; [|done..].
  pose proof (fetch_tracks_data album_tracks playlist_tracks (VStr spotify_id)
                spotify_type st Ha Hp)
    as Hd.
  destruct (fetch_tracks _ _ _ _ st) as [[results|e] st1]; simpl in Hd;
    [|simpl; by rewrite Hd].
  assert (aligned (data st1)) as H1 by (by rewrite Hd).
  assert (aligned
            (data ((_ <- add_tracks_to_data w results (type_of spotify_type) ;;
                    fetch_and_add_additional_tracks w pages results
                      (type_of spotify_type)) st1).2)) as H.
  { unfold bind.
    pose proof (add_tracks_to_data_aligned w results (type_of spotify_type)
                  st1 H1) as H2.
    destruct (add_tracks_to_data w results (type_of spotify_type) st1)
      as [[[]|e] st2]; simpl in H2; [|done].
    by apply fetch_and_add_additional_tracks_aligned. }
  by destruct results.
Qed.

(** ** The overlay and the card files *)



Lemma append_inv_head (base a b : string) :
  base +:+ a = base +:+ b -> a = b.
Proof. induction base as [|c base IH]; simpl; [done|]. intros [= H]. auto. Qed.

Lemma append_inv_tail (a b tail : string) :
  a +:+ tail = b +:+ tail -> a = b.
Proof.
  intros H. apply (f_equal list_ascii_of_string) in H.
  rewrite !chars_append in H. apply app_inv_tail in H.
  apply (f_equal string_of_list_ascii) in H.
  by rewrite !string_of_list_ascii_of_string in H.
Qed.

Lemma str_of_index_inj i j : str_of_index i = str_of_index j -> i = j.
Proof.
  assert (forall n, N.to_uint n <> Decimal.Nil) as Hnil.
  { intros [|p]; [done|]. apply DecimalPos.Unsigned.to_uint_nonnil. }
  unfold str_of_index. intros H.
  apply (f_equal NilZero.uint_of_string) in H.
  rewrite !NilZero.usu in H by done. injection H as H.
  by apply DecimalN.Unsigned.to_uint_inj.
Qed.

(** X23: no card overwrites another.  For one base name, cards with
    different indices are saved under different file names. *)
Theorem file_name_distinct base_name i j :
  i <> j -> file_name base_name i <> file_name base_name j.
Proof.
  intros Hij H. apply Hij. unfold file_name in H.
  apply append_inv_head in H. injection H as H.
  change (str_of_index i +:+ ".png" = str_of_index j +:+ ".png") in H.
  by apply append_inv_tail, str_of_index_inj in H.
Qed.

Lemma file_name_distinct_witness :
  (0 <> 1)%N /\ file_name "deck" 0 <> file_name "deck" 1.
Proof.
  split; [discriminate|]. apply (file_name_distinct "deck" 0 1). discriminate.
Defined.

(** ** The properties at concrete inputs *)

Import Samples.

Lemma musicbrainz_no_recordings_witness :
  get_release_year_musicbrainz musicbrainz_empty (VStr "Artist") (VStr song)
    initial_state
  = (Ok "N/A",
     {| data := empty_store;
        log := [] ++ [MusicBrainzSearch (VStr "Artist")
                        (clean_song_title song)] |}).
Proof.
  apply (musicbrainz_no_recordings musicbrainz_empty (VStr "Artist") song
           initial_state).
  simpl. right. right. exists {[ "recordings" := VList [] ]}.
  split; reflexivity.
Defined.

Lemma spotify_stage_year_witness :
  extract_year_from_discogs_data spotify_only (VDict ∅) (VStr "Artist")
    (VStr song) (VDict item_with_album) initial_state
  = (match album_of_1999 !! "release_date" with
     | None => Ok (VStr "N/A")
     | Some (VStr text) => Ok (VStr (split_first text))
     | Some _ => Raise AttributeError
     end,
     {| data := empty_store;
        log := [] ++ [MusicBrainzSearch (VStr "Artist")
                        (clean_song_title song);
                      SpotifyAlbum (VStr "a1")] |}).
Proof.
  apply (spotify_stage_year spotify_only ∅ item_with_album
           {[ "id" := VStr "a1" ]} album_of_1999 (VStr "a1") (VStr "Artist")
           song initial_state); reflexivity.
Defined.

Lemma discogs_body_unusable_witness :
  add_track_to_data discogs_not_json playlist_item Playlist initial_state
  = (Raise ValueError,
     {| data := empty_store;
        log := [] ++ [DiscogsSearch (VStr "Artist") (VStr song)] |}).
Proof.
  apply (discogs_body_unusable discogs_not_json playlist_item Playlist
           song_info initial_state 200 None).
  - vm_compute. reflexivity.
  - reflexivity.
  - reflexivity.
  - by left.
Defined.

Lemma discogs_mixed_years_raise_witness :
  extract_year_from_discogs_data offline (results_json mixed_candidates ∅)
    (VStr "Artist") (VStr song) track initial_state
  = (Raise TypeError, initial_state).
Proof.
  apply (discogs_mixed_years_raise offline mixed_candidates ∅ (VStr "Artist")
           (VStr song) track initial_state (VInt 1998) (VStr "2001")).
  - change (VInt 1998 ∈ [VInt 1998; VStr "2001"]). by left.
  - change (VStr "2001" ∈ [VInt 1998; VStr "2001"]). right. by left.
  - by eexists.
  - by intros [n Hn].
Defined.

Lemma add_track_to_data_row_contents_witness :
  let out :=
    add_track_to_data discogs_1998 playlist_item Playlist initial_state in
  data out.2 = data initial_state
  \/ (out.1 = Ok tt
      /\ exists year qr_img,
           data out.2
           = add_row (data initial_state) (first_artist song_info)
               (ti_name song_info) year (ti_url song_info) qr_img).
Proof.
  apply (add_track_to_data_row_contents discogs_1998 playlist_item Playlist
           song_info initial_state).
  vm_compute. reflexivity.
Defined.

Lemma add_tracks_to_data_in_order_witness :
  let out :=
    add_tracks_to_data discogs_1998 (VDict last_page) Playlist
      initial_state in
  exists infos,
    infos `sublist_of` listed [playlist_item; anonymous_item] Playlist
    /\ Artist (data out.2)
       = Artist (data initial_state) ++ (first_artist <$> infos)
    /\ Title (data out.2) = Title (data initial_state) ++ (ti_name <$> infos)
    /\ URL (data out.2) = URL (data initial_state) ++ (ti_url <$> infos).
Proof.
  apply (add_tracks_to_data_in_order discogs_1998 last_page
           [playlist_item; anonymous_item] Playlist initial_state).
  reflexivity.
Defined.

Lemma paging_loop_edges_witness :
  fetch_and_add_additional_tracks offline 1 (VDict first_page) Playlist
    initial_state
  = (Ok tt,
     {| data := empty_store;
        log := [] ++ [SpotifyNext (VDict first_page)] |}).
Proof.
  apply (proj2 (proj2 paging_loop_edges) offline 0 first_page
           (VStr "https://api.spotify.com/v1/next") Playlist initial_state);
    reflexivity.
Defined.

Lemma extract_spotify_id_and_type_found_witness :
  extract_spotify_id_and_type
    ("/intl-de" +:+ "/" +:+ "album" +:+ "/" +:+ "4aawyAB9vmqN3uQ7FjRGTy"
     +:+ "?si=abc")
  = Ok (Some ("4aawyAB9vmqN3uQ7FjRGTy", "album")).
Proof.
  apply (extract_spotify_id_and_type_found "/intl-de" "album"
           "4aawyAB9vmqN3uQ7FjRGTy" "?si=abc").
  - by repeat constructor.
  - by left.
  - apply (bool_decide_unpack _). vm_compute. exact I.
  - apply (bool_decide_unpack _). vm_compute. exact I.
  - simpl. by right.
Defined.

Lemma extract_spotify_id_and_type_no_id_witness :
  extract_spotify_id_and_type ("" +:+ "/" +:+ "playlist") = Raise IndexError.
Proof.
  apply (extract_spotify_id_and_type_no_id "" "playlist").
  - by repeat constructor.
  - by right.
Defined.

Lemma extract_spotify_id_and_type_result_witness :
  ("playlist" = "album" \/ "playlist" = "playlist")
  /\ ("/"%char ∉ list_ascii_of_string "37i9dQZF1DX")
  /\ ("?"%char ∉ list_ascii_of_string "37i9dQZF1DX").
Proof.
  apply (extract_spotify_id_and_type_result "/playlist/37i9dQZF1DX?si=1/x"
           "37i9dQZF1DX" "playlist").
  reflexivity.
Defined.

Lemma fetch_tracks_never_raises_witness :
  fetch_tracks lists_last_page listing_fails (VStr "p1") "playlist"
    initial_state
  = (Ok VNone, initial_state).
Proof.
  apply (proj1 (proj2 fetch_tracks_never_raises) lists_last_page
           listing_fails (VStr "p1") "playlist" listing_fails
           SpotifyException initial_state initial_state);
    reflexivity.
Defined.

Lemma create_data_without_listing_witness :
  create_data offline lists_last_page listing_fails "/track/t1" 1
    initial_state
  = (Ok tt, initial_state).
Proof.
  apply (proj1 create_data_without_listing offline lists_last_page
           listing_fails "/track/t1" 1 initial_state).
  by repeat constructor.
Defined.

Lemma create_data_aligned_witness :
  aligned
    (data (create_data discogs_1998 listing_fails lists_last_page
             "/playlist/p1" 1 initial_state).2).
Proof.
  apply (create_data_aligned discogs_1998 listing_fails lists_last_page
           "/playlist/p1" 1 initial_state).
  - intros spotify_id. apply only_logs_raise.
  - intros spotify_id. apply only_logs_ret.
  - by repeat split.
Defined.
